(** * fast-md: the build pipeline of [src/index.ts]

    A shallow embedding of the static-site generator: the Navigation
    Builder ([buildNavTree]), the Image Externalizer
    ([processMarkdownImages]), the Orphan Collector
    ([cleanupOrphanedImages]), the build pass ([compile]) and the
    debounced rebuild loop of the development server ([debounce],
    [handleRebuild], [triggerReload], [watchFiles]).

    Conventions.
    - JavaScript strings are [string]s (sequences of bytes); a [Buffer]
      is a [list Byte.byte].
    - What the program takes from its environment and from npm packages
      ([process.cwd()], [localeCompare], [new URL], [fetch],
      [imagemin.buffer], [marked.parse], [sanitizeHtml] and its defaults)
      is a section variable, and so is the page template: every
      statement holds whatever they compute.
    - [path.join], [path.basename], [path.extname], [String.replace] and
      the image pattern are written out, on the arguments the program
      passes to them.
    - An [async] function that is awaited runs to its end inside the
      pass; the interleaving of passes is the subject of [DevLoop]. *)

From Stdlib Require Import ZArith Ascii String List Permutation.
From stdpp Require Import gmap strings list sorting.
From Equations Require Import Equations.

Set Warnings "-register-all".

Local Open Scope string_scope.
Local Open Scope Z_scope.
Local Open Scope list_scope.

(** ** Strings *)

Module Str.

Definition chars (s : string) : list ascii := list_ascii_of_string s.
Definition ofChars (l : list ascii) : string := string_of_list_ascii l.

(** [s.endsWith(suffix)] *)
Fixpoint startsWithChars (p l : list ascii) : bool :=
  match p, l with
  | [], _ => true
  | a :: p', b :: l' => if Ascii.eqb a b then startsWithChars p' l' else false
  | _ :: _, [] => false
  end.

Definition endsWith (s suffix : string) : bool :=
  startsWithChars (rev (chars suffix)) (rev (chars s)).

(** the string without its last [n] characters *)
Definition dropEnd (n : nat) (s : string) : string :=
  ofChars (rev (drop n (rev (chars s)))).

(** [s.toLowerCase()] and [c.toUpperCase()] on ASCII letters *)
Definition lowerChar (c : ascii) : ascii :=
  let n := nat_of_ascii c in
  if ((65 <=? n) && (n <=? 90))%nat then ascii_of_nat (n + 32) else c.

Definition upperChar (c : ascii) : ascii :=
  let n := nat_of_ascii c in
  if ((97 <=? n) && (n <=? 122))%nat then ascii_of_nat (n - 32) else c.

Definition toLowerCase (s : string) : string := ofChars (map lowerChar (chars s)).

(** the class [\w] of a regular expression without the [u] flag *)
Definition isWordChar (c : ascii) : bool :=
  let n := nat_of_ascii c in
  ((48 <=? n) && (n <=? 57) || (65 <=? n) && (n <=? 90)
   || (97 <=? n) && (n <=? 122) || (n =? 95))%nat.

(** the rest of [l] after the prefix [p] *)
Fixpoint stripPrefix (p l : list ascii) : option (list ascii) :=
  match p, l with
  | [], _ => Some l
  | a :: p', b :: l' => if Ascii.eqb a b then stripPrefix p' l' else None
  | _ :: _, [] => None
  end.

Definition slash : ascii := "/"%char.
Definition dot : ascii := "."%char.

End Str.

(** ** [path] (POSIX) *)

Module Path.
Import Str.

(** [path.basename(p)]: trailing separators are dropped, then the part
    after the last separator is kept. *)
Fixpoint dropSlashes (l : list ascii) : list ascii :=
  match l with
  | c :: l' => if Ascii.eqb c slash then dropSlashes l' else l
  | [] => []
  end.

Fixpoint takeSegment (l : list ascii) : list ascii :=
  match l with
  | c :: l' => if Ascii.eqb c slash then [] else c :: takeSegment l'
  | [] => []
  end.

Definition basename (p : string) : string :=
  ofChars (rev (takeSegment (dropSlashes (rev (chars p))))).

(** [path.basename(p, suffix)] *)
Definition basenameExt (p suffix : string) : string :=
  let b := basename p in
  if String.eqb b suffix then (if String.eqb p suffix then "" else b)
  else if endsWith b suffix then dropEnd (String.length suffix) b
  else b.

(** [path.extname(name)] for an entry name (no separator): from the last
    dot to the end, and empty when there is no dot, when the only dot
    is the first character, or when the name is [".."]. *)
Fixpoint lastDot (l : list ascii) (i : nat) (found : option nat) : option nat :=
  match l with
  | [] => found
  | c :: l' => lastDot l' (S i) (if Ascii.eqb c dot then Some i else found)
  end.

Definition extname (name : string) : string :=
  match lastDot (chars name) 0 None with
  | None => ""
  | Some O => ""
  | Some (S i) =>
      if String.eqb name ".." then "" else ofChars (drop (S i) (chars name))
  end.

(** [path.join(dir, segment)] for a normalized [dir] and one segment
    that is neither ["."] nor [".."]: an empty segment adds nothing. *)
Definition join (dir segment : string) : string :=
  if String.eqb segment "" then dir else dir +:+ "/" +:+ segment.

(** [path.relative(from, to)] for a path [to] below [from] *)
Definition relative (from to : string) : string :=
  match stripPrefix (chars from ++ [slash]) (chars to) with
  | Some rest => ofChars rest
  | None => to
  end.

End Path.

(** ** Navigation Builder *)

Module Nav.
Import Str Path.

(** A directory of the source tree as [fs.readdirSync(dir,
    {withFileTypes: true})] shows it: the entries in the order of the
    listing, a subdirectory carrying its own listing. *)
Inductive Dirent : Type :=
| DFile (name : string) (content : string)
| DDir (name : string) (entries : list Dirent)
| DOther (name : string).

Definition name (e : Dirent) : string :=
  match e with DFile n _ | DDir n _ | DOther n => n end.

Definition isFile (e : Dirent) : bool :=
  match e with DFile _ _ => true | _ => false end.

Definition isDirectory (e : Dirent) : bool :=
  match e with DDir _ _ => true | _ => false end.

Definition entriesOf (e : Dirent) : list Dirent :=
  match e with DDir _ es => es | _ => [] end.

Fixpoint direntSize (e : Dirent) : nat :=
  match e with
  | DDir _ es =>
      S ((fix go (l : list Dirent) : nat :=
            match l with [] => O | x :: r => (direntSize x + go r)%nat end) es)
  | _ => 1%nat
  end.

Definition listingSize (es : list Dirent) : nat :=
  list_sum (map direntSize es).

(** [interface NavItem] *)
Inductive NavItem : Type :=
| mkNavItem (name : string) (path : string) (children : option (list NavItem)).

Definition itemName (i : NavItem) : string := match i with mkNavItem n _ _ => n end.
Definition itemPath (i : NavItem) : string := match i with mkNavItem _ p _ => p end.
Definition itemChildren (i : NavItem) : option (list NavItem) :=
  match i with mkNavItem _ _ c => c end.

(** [prettifyName] *)
Fixpoint capitalizeWords (prevWord : bool) (l : list ascii) : list ascii :=
  match l with
  | [] => []
  | c :: l' =>
      (if isWordChar c && negb prevWord then upperChar c else c)
        :: capitalizeWords (isWordChar c) l'
  end.

Definition hyphenToSpace (c : ascii) : ascii :=
  if Ascii.eqb c "-"%char then " "%char else c.

Definition prettifyName (name : string) : string :=
  let baseName := basenameExt name ".md" in
  if String.eqb baseName "index" then "Home"
  else ofChars (capitalizeWords false (map hyphenToSpace (chars baseName))).

(** [name.replace(/\.md$/, ".html")] *)
Definition mdToHtml (name : string) : string :=
  if endsWith name ".md" then dropEnd 3 name +:+ ".html" else name.

(** [Array.prototype.sort(compare)]: a stable comparison sort; here by
    insertion from the right, which is the order every stable sort
    yields once [compare] is consistent. *)
Section Sort.
Context {A : Type} (compare : A -> A -> Z).

Fixpoint insertSorted (x : A) (l : list A) : list A :=
  match l with
  | [] => [x]
  | y :: r => if compare x y <=? 0 then x :: y :: r else y :: insertSorted x r
  end.

Fixpoint arraySort (l : list A) : list A :=
  match l with
  | [] => []
  | x :: r => insertSorted x (arraySort r)
  end.
End Sort.

(** the loop body needs to know that the entry it visits comes from
    the listing *)
Fixpoint mapIn {A B : Type} (l : list A) : (forall x, In x l -> B) -> list B :=
  match l with
  | [] => fun _ => []
  | x :: r => fun f =>
      f x (or_introl eq_refl) :: mapIn r (fun y H => f y (or_intror H))
  end.

Section Builder.
(** [String.prototype.localeCompare] *)
Variable localeCompare : string -> string -> Z.

Definition compareFiles (a b : Dirent) : Z :=
  if String.eqb (name a) "index.md" then -1
  else if String.eqb (name b) "index.md" then 1
  else localeCompare (name a) (name b).

Definition compareDirs (a b : Dirent) : Z :=
  localeCompare (name a) (name b).

Definition isMarkdown (e : Dirent) : bool :=
  isFile e && endsWith (name e) ".md".

Definition sortedFiles (entries : list Dirent) : list Dirent :=
  arraySort compareFiles (List.filter isMarkdown entries).

Definition sortedDirs (entries : list Dirent) : list Dirent :=
  arraySort compareDirs (List.filter isDirectory entries).

Definition fileItem (webPathPrefix : string) (file : Dirent) : NavItem :=
  mkNavItem (prettifyName (name file))
            (webPathPrefix +:+ mdToHtml (name file)) None.

(** [children.find(child => path.basename(child.path) === "index.html")] *)
Definition isIndexPage (child : NavItem) : bool :=
  String.eqb (basename (itemPath child)) "index.html".

Definition dirPath (children : list NavItem) : string :=
  match List.find isIndexPage children with
  | Some indexPage => itemPath indexPage
  | None => "#"
  end.

(** what the second loop pushes for [subDir], given its child list *)
Definition dirItem (subDir : Dirent) (children : list NavItem) : list NavItem :=
  match children with
  | [] => []
  | _ :: _ => [mkNavItem (prettifyName (name subDir)) (dirPath children)
                         (Some children)]
  end.

Definition subPrefix (webPathPrefix : string) (subDir : Dirent) : string :=
  webPathPrefix +:+ name subDir +:+ "/".

(** [buildNavTree]: [entries] is the listing of [dir]; the recursive call
    on [path.join(dir, subDir.name)] reads the listing of that entry. *)
Equations? buildNavTree (entries : list Dirent) (webPathPrefix : string)
  : list NavItem by wf (listingSize entries) lt :=
buildNavTree entries webPathPrefix :=
  map (fileItem webPathPrefix) (sortedFiles entries)
  ++ concat (mapIn (sortedDirs entries) (fun subDir Hin =>
       dirItem subDir
         (buildNavTree (entriesOf subDir) (subPrefix webPathPrefix subDir)))).
Proof.
  assert (Hins : forall x l, In subDir (insertSorted compareDirs x l) ->
                             subDir = x \/ In subDir l).
  { intros x l. induction l as [|z l IH]; simpl; [intuition (subst; auto)|].
    destruct (compareDirs x z <=? 0); simpl; intuition (subst; auto). }
  assert (Hsort : forall l, In subDir (arraySort compareDirs l) -> In subDir l).
  { induction l as [|x l IH]; simpl; [tauto|].
    intros H. apply Hins in H. intuition (subst; auto). }
  apply Hsort, filter_In in Hin. destruct Hin as [Hin Hdir].
  destruct subDir as [|n es|]; try discriminate. simpl.
  assert (Hle : forall l, In (DDir n es) l ->
                          (direntSize (DDir n es) <= listingSize l)%nat).
  { unfold listingSize. induction l as [|x l IH]; simpl; [tauto|].
    intros [->|H]; [simpl; lia|]. specialize (IH H). simpl in IH. lia. }
  specialize (Hle _ Hin).
  assert (Hsz : direntSize (DDir n es) = S (listingSize es)).
  { unfold listingSize. simpl. f_equal.
    clear. induction es as [|e es IH]; simpl; [reflexivity|]. now rewrite IH. }
  lia.
Qed.

(** the child list [buildNavTree] computes for a subdirectory *)
Definition childrenOf (webPathPrefix : string) (subDir : Dirent) : list NavItem :=
  buildNavTree (entriesOf subDir) (subPrefix webPathPrefix subDir).

(** the order [localeCompare] puts on the names of entries *)
Definition inOrder (a b : Dirent) : Prop :=
  localeCompare (name a) (name b) <= 0.

End Builder.

(** an item pushed for a subdirectory carries a child list *)
Definition isDirItem (i : NavItem) : bool :=
  match itemChildren i with Some _ => true | None => false end.

End Nav.


(** ** The process: filesystem, globals, console, exceptions *)

Module Sys.
Import Str Path.

(** what a path of the filesystem holds *)
Inductive node : Type :=
| File (data : list Byte.byte)
| Dir.

(** a thrown value *)
Inductive error : Type :=
| Error (message : string).

Inductive logLine : Type :=
| Log (text : string)
| LogError (text : string) (err : error).

Definition isLog (l : logLine) : bool :=
  match l with Log _ => true | LogError _ _ => false end.

(** The state the build pass works on. [files] is the filesystem outside
    the source tree, keyed by absolute path; [source] is the tree under
    [mdDir] ([None] while that directory is missing); [allUsedImages] is
    the module-level set of the program. [requests] and [writes] record,
    oldest first, the URLs handed to [fetch] and the paths written by
    [fs.writeFileSync]: they are not read by the program. *)
Record world : Type := mkWorld {
  files : gmap string node;
  source : option (list Nav.Dirent);
  allUsedImages : gset string;
  console : list logLine;
  requests : list string;
  writes : list string
}.

Definition setFiles (f : gmap string node) (w : world) : world :=
  mkWorld f (source w) (allUsedImages w) (console w) (requests w) (writes w).
Definition setSource (s : option (list Nav.Dirent)) (w : world) : world :=
  mkWorld (files w) s (allUsedImages w) (console w) (requests w) (writes w).
Definition setUsed (u : gset string) (w : world) : world :=
  mkWorld (files w) (source w) u (console w) (requests w) (writes w).
Definition addLine (l : logLine) (w : world) : world :=
  mkWorld (files w) (source w) (allUsedImages w) (console w ++ [l])
          (requests w) (writes w).
Definition addRequest (url : string) (w : world) : world :=
  mkWorld (files w) (source w) (allUsedImages w) (console w)
          (requests w ++ [url]) (writes w).
Definition addWrite (p : string) (w : world) : world :=
  mkWorld (files w) (source w) (allUsedImages w) (console w)
          (requests w) (writes w ++ [p]).

(** *** State and exception monad *)

Inductive result (A : Type) : Type :=
| Ok (a : A)
| Throw (e : error).
Arguments Ok {A} a.
Arguments Throw {A} e.

Definition M (A : Type) : Type := world -> result A * world.

Definition ret {A} (a : A) : M A := fun w => (Ok a, w).

Definition bind {A B} (m : M A) (k : A -> M B) : M B :=
  fun w => match m w with
           | (Ok a, w') => k a w'
           | (Throw e, w') => (Throw e, w')
           end.

Definition throw {A} (e : error) : M A := fun w => (Throw e, w).

(** [try { body } catch (error) { handler }] *)
Definition tryCatch {A} (body : M A) (handler : error -> M A) : M A :=
  fun w => match body w with
           | (Ok a, w') => (Ok a, w')
           | (Throw e, w') => handler e w'
           end.

Definition gets {A} (f : world -> A) : M A := fun w => (Ok (f w), w).
Definition modify (f : world -> world) : M unit := fun w => (Ok tt, f w).

Global Instance M_ret : MRet M := @ret.
Global Instance M_bind : MBind M := fun A B k m => bind m k.

Definition consoleLog (text : string) : M unit := modify (addLine (Log text)).
Definition consoleError (text : string) (e : error) : M unit :=
  modify (addLine (LogError text e)).

(** *** Paths of the flat filesystem *)

Definition hasSlash (l : list ascii) : bool := existsb (Ascii.eqb slash) l.

(** the name under which [p] is listed in [dir], when [p] lies directly
    in [dir] *)
Definition childName (dir p : string) : option string :=
  match stripPrefix (chars dir ++ [slash]) (chars p) with
  | Some (c :: rest) =>
      if hasSlash (c :: rest) then None else Some (ofChars (c :: rest))
  | _ => None
  end.

(** a name a directory can list: not empty, no separator *)
Definition isEntryName (n : string) : bool :=
  negb (String.eqb n "") && negb (hasSlash (chars n)).

(** [p] is [dir] or lies below it *)
Definition isUnder (dir p : string) : bool :=
  String.eqb dir p
  || match stripPrefix (chars dir ++ [slash]) (chars p) with
     | Some _ => true
     | None => false
     end.

(** [path.dirname(p)] of an absolute path without trailing separator *)
Fixpoint dropSegment (l : list ascii) : list ascii :=
  match l with
  | c :: l' => if Ascii.eqb c slash then l else dropSegment l'
  | [] => []
  end.

Definition dirname (p : string) : string :=
  ofChars (rev (drop 1 (dropSegment (rev (chars p))))).

(** *** [fs] *)

Definition existsSync (p : string) : M bool :=
  gets (fun w => match files w !! p with Some _ => true | None => false end).

Definition isDirectoryAt (w : world) (p : string) : bool :=
  String.eqb p "" || match files w !! p with Some Dir => true | _ => false end.

(** the path as the message of a system error shows it *)
Definition quoted (p : string) : string := "'" +:+ p +:+ "'".

(** [fs.unlinkSync(p)]: removes a file; throws on a directory and on a
    missing path. *)
Definition unlinkSync (p : string) : M unit :=
  fun w => match files w !! p with
           | Some (File _) => (Ok tt, setFiles (delete p (files w)) w)
           | Some Dir =>
               (Throw (Error ("EISDIR: illegal operation on a directory, unlink "
                              +:+ quoted p)), w)
           | None =>
               (Throw (Error ("ENOENT: no such file or directory, unlink "
                              +:+ quoted p)), w)
           end.

(** [fs.writeFileSync(p, data)]: creates or replaces the file; throws
    when [p] is a directory or its parent directory is missing. *)
Definition writeFileSync (p : string) (data : list Byte.byte) : M unit :=
  fun w => match files w !! p with
           | Some Dir =>
               (Throw (Error ("EISDIR: illegal operation on a directory, open "
                              +:+ quoted p)), w)
           | _ =>
               if isDirectoryAt w (dirname p)
               then (Ok tt, addWrite p (setFiles (<[p := File data]> (files w)) w))
               else (Throw (Error ("ENOENT: no such file or directory, open "
                                   +:+ quoted p)), w)
           end.

(** the order of the bytes of two names, as [strcmp] has it *)
Definition byteCompare (a b : string) : Z :=
  match String.compare a b with
  | Lt => -1
  | Eq => 0
  | Gt => 1
  end.

(** [fs.readdirSync(dir)]: the names of the entries directly in [dir],
    in the order of their bytes, which is the order in which the
    [scandir] under [readdirSync] hands them over *)
Definition listing (dir : string) (f : gmap string node) : list string :=
  Nav.arraySort byteCompare
    (omap (fun kv => childName dir (fst kv)) (map_to_list f)).

Definition readdirSync (dir : string) : M (list string) :=
  fun w => match files w !! dir with
           | Some Dir => (Ok (listing dir (files w)), w)
           | Some (File _) =>
               (Throw (Error ("ENOTDIR: not a directory, scandir " +:+ quoted dir)),
                w)
           | None =>
               (Throw (Error ("ENOENT: no such file or directory, scandir "
                              +:+ quoted dir)), w)
           end.

(** the directories on the way to [p], [p] included *)
Fixpoint ancestorsFrom (seen l : list ascii) : list string :=
  match l with
  | [] => match seen with [] => [] | _ => [ofChars (rev seen)] end
  | c :: l' =>
      if Ascii.eqb c slash
      then match seen with
           | [] => ancestorsFrom [c] l'
           | _ => ofChars (rev seen) :: ancestorsFrom (c :: seen) l'
           end
      else ancestorsFrom (c :: seen) l'
  end.

Definition ancestors (p : string) : list string := ancestorsFrom [] (chars p).

Definition isFileAt (f : gmap string node) (p : string) : bool :=
  match f !! p with Some (File _) => true | _ => false end.

(** [fs.mkdirSync(p, {recursive: true})]: throws when [p] is a file, or
    when a file is on the way to it *)
Definition mkdirSync (p : string) : M unit :=
  fun w => if existsb (isFileAt (files w)) (ancestors p)
           then (Throw (Error ((if isFileAt (files w) p
                                then "EEXIST: file already exists, mkdir "
                                else "ENOTDIR: not a directory, mkdir ")
                               +:+ quoted p)), w)
           else (Ok tt,
                 setFiles (foldr (fun d f => <[d := Dir]> f) (files w)
                                 (ancestors p)) w).

(** [fs.rmSync(p, {recursive: true, force: true})] *)
Definition rmSync (p : string) : M unit :=
  modify (fun w =>
    setFiles (filter (fun kv => isUnder p (fst kv) = false) (files w)) w).

End Sys.

(** ** [String.prototype.replace] and the image pattern *)

Module JsString.
Import Str.

Definition dollar : ascii := "$"%char.

(** the first occurrence of [pat] in [l]: what precedes it and what
    follows it *)
Fixpoint splitAtFirst (pat l before : list ascii)
  : option (list ascii * list ascii) :=
  match stripPrefix pat l with
  | Some after => Some (rev before, after)
  | None =>
      match l with
      | [] => None
      | c :: l' => splitAtFirst pat l' (c :: before)
      end
  end.

(** the replacement text with its [$] patterns expanded; a string
    pattern has no captures, so [$1] and the like stay as they are *)
Fixpoint substitution (matched before after repl : list ascii) : list ascii :=
  match repl with
  | [] => []
  | c :: r =>
      if Ascii.eqb c dollar then
        match r with
        | d :: r' =>
            if Ascii.eqb d dollar then dollar :: substitution matched before after r'
            else if Ascii.eqb d "&"%char
                 then matched ++ substitution matched before after r'
            else if Ascii.eqb d "`"%char
                 then before ++ substitution matched before after r'
            else if Ascii.eqb d "'"%char
                 then after ++ substitution matched before after r'
            else c :: substitution matched before after r
        | [] => [c]
        end
      else c :: substitution matched before after r
  end.

(** [s.replace(pattern, replacement)] with a string pattern *)
Definition replace (s pattern replacement : string) : string :=
  match splitAtFirst (chars pattern) (chars s) [] with
  | Some (before, after) =>
      ofChars (before
               ++ substitution (chars pattern) before after (chars replacement)
               ++ after)
  | None => s
  end.

End JsString.

Module Regex.
Import Str.

(** one element of [markdown.matchAll(imageUrlRegex)] *)
Record RegexMatch : Type := mkMatch {
  fullMatch : string;
  altText : string;
  remoteUrl : string
}.

Definition isChar (n : nat) (c : ascii) : bool := Nat.eqb (nat_of_ascii c) n.

(** [.] does not match a line terminator: LF, CR, U+2028, U+2029 (the
    last two are three bytes each in the text) *)
Definition lineTerminatorAt (l : list ascii) : bool :=
  match l with
  | c :: r =>
      isChar 10 c || isChar 13 c
      || (isChar 226 c
          && match r with
             | c1 :: c2 :: _ => isChar 128 c1 && (isChar 168 c2 || isChar 169 c2)
             | _ => false
             end)
  | [] => false
  end.

(** [https?:\/\/] *)
Definition matchScheme (l : list ascii) : option (list ascii * list ascii) :=
  match stripPrefix (chars "https://") l with
  | Some rest => Some (chars "https://", rest)
  | None =>
      match stripPrefix (chars "http://") l with
      | Some rest => Some (chars "http://", rest)
      | None => None
      end
  end.

(** [.*?\)] : the shortest run up to a closing parenthesis *)
Fixpoint scanUrl (l tail : list ascii) : option (list ascii * list ascii) :=
  match l with
  | [] => None
  | c :: l' =>
      if Ascii.eqb c ")"%char then Some (rev tail, l')
      else if lineTerminatorAt l then None
      else scanUrl l' (c :: tail)
  end.

(** [(.*?)\]\((https?:\/\/.*?)\)] after the opening [![]: the shortest
    alt text after which the rest matches; the result is the alt text,
    the URL, and the text after the match *)
Fixpoint scanAlt (l alt : list ascii)
  : option (list ascii * list ascii * list ascii) :=
  let here :=
    match stripPrefix (chars "](") l with
    | Some l1 =>
        match matchScheme l1 with
        | Some (scheme, l2) =>
            match scanUrl l2 [] with
            | Some (tail, after) => Some (rev alt, scheme ++ tail, after)
            | None => None
            end
        | None => None
        end
    | None => None
    end in
  match here with
  | Some r => Some r
  | None =>
      match l with
      | [] => None
      | c :: l' => if lineTerminatorAt l then None else scanAlt l' (c :: alt)
      end
  end.

Definition matchAt (l : list ascii) : option (RegexMatch * nat) :=
  match stripPrefix (chars "![") l with
  | Some l1 =>
      match scanAlt l1 [] with
      | Some (alt, url, after) =>
          let len := (length l - length after)%nat in
          Some (mkMatch (ofChars (take len l)) (ofChars alt) (ofChars url), len)
      | None => None
      end
  | None => None
  end.

(** the successive matches, left to right, none overlapping *)
Fixpoint matchAllFrom (l : list ascii) (skip : nat) : list RegexMatch :=
  match l with
  | [] => []
  | _ :: l' =>
      match skip with
      | S k => matchAllFrom l' k
      | O =>
          match matchAt l with
          | Some (m, len) => m :: matchAllFrom l' (len - 1)
          | None => matchAllFrom l' 0
          end
      end
  end.

(** [[...markdown.matchAll(/!\[(.*?)\]\((https?:\/\/.*?)\)/g)]] *)
Definition imageUrlMatches (markdown : string) : list RegexMatch :=
  matchAllFrom (chars markdown) 0.

End Regex.

(** ** The build pass *)

Module Build.
Import Str Path Nav Sys Regex.

(** [response.ok], [response.statusText] and the bytes of
    [response.arrayBuffer()] *)
Record Response : Type := mkResponse {
  ok : bool;
  statusText : string;
  body : list Byte.byte
}.

(** the options object handed to [sanitizeHtml] *)
Record SanitizeOptions : Type := mkOptions {
  allowedTags : list string;
  allowedAttributes : list (string * list string)
}.

Definition nl : string := String (ascii_of_nat 10) "".
Definition dq : string := String (ascii_of_nat 34) "".

Section Program.

(** [process.cwd()] *)
Variable cwd : string.
(** [new URL(u).pathname]; [None] when the constructor throws *)
Variable urlPathname : string -> option string.
(** the network: the answer to the [n]-th request of the process, for a
    URL; [None] when [fetch] rejects *)
Variable network : nat -> string -> option Response.
(** [imagemin.buffer(buffer, {plugins})]; [None] when it rejects *)
Variable imagemin : list Byte.byte -> option (list Byte.byte).
(** [marked.parse] under [marked.use({renderer, gfm: true, breaks: true})],
    as a function of the image renderer *)
Variable markedParse :
  (option string -> option string -> string -> string) -> string -> string.
(** [sanitizeHtml] and its [defaults] *)
Variable sanitizeHtml : string -> SanitizeOptions -> string.
Variable defaultAllowedTags : list string.
Variable defaultAllowedAttributes : list (string * list string).
(** the page template of [createHtmlTemplate] *)
Variable createHtmlTemplate : string -> string -> string -> bool -> string.
Variable localeCompare : string -> string -> Z.

Definition mdDir : string := join cwd "md".
Definition publicDir : string := join cwd "public".
Definition imageDir : string := publicDir.
Definition PORT : string := "3000".

(** *** Image Externalizer *)

Definition newURL (u : string) : M string :=
  match urlPathname u with
  | Some pathname => mret pathname
  | None => throw (Error ("TypeError: Invalid URL " +:+ u))
  end.

Definition fetch (url : string) : M Response :=
  fun w => match network (length (requests w)) url with
           | Some response => (Ok response, addRequest url w)
           | None => (Throw (Error "TypeError: fetch failed"), addRequest url w)
           end.

Definition imageminBuffer (buffer : list Byte.byte) : M (list Byte.byte) :=
  match imagemin buffer with
  | Some compressed => mret compressed
  | None => throw (Error "imagemin failed")
  end.

Definition localPathOf (pathname : string) : string :=
  join imageDir (basename pathname).

(** the answer of the network is no image: [fetch] rejects, or the
    response is not [ok] *)
Definition fetchFails (n : nat) (url : string) : bool :=
  match network n url with
  | Some response => negb (ok response)
  | None => true
  end.

Definition webPathOf (withLiveReload : bool) (filename : string) : string :=
  if withLiveReload then "http://localhost:" +:+ PORT +:+ "/" +:+ filename
  else "/" +:+ filename.

(** the [if (!fs.existsSync(localFilePath)) { ... }] block *)
Definition download (remoteUrl localFilePath : string) : M unit :=
  consoleLog ("- Downloading image: " +:+ remoteUrl);;
  response ← fetch remoteUrl;
  (if negb (ok response)
   then throw (Error ("Failed to fetch " +:+ remoteUrl +:+ ": "
                      +:+ statusText response))
   else mret tt);;
  compressedBuffer ← imageminBuffer (body response);
  writeFileSync localFilePath compressedBuffer;;
  consoleLog ("  -> Saved to: " +:+ relative cwd localFilePath).

(** the body of the [try] *)
Definition externalize (withLiveReload : bool) (m : RegexMatch)
    (processedMarkdown : string) : M string :=
  pathname ← newURL (remoteUrl m);
  let filename := basename pathname in
  let localFilePath := join imageDir filename in
  modify (fun w => setUsed ({[localFilePath]} ∪ allUsedImages w) w);;
  present ← existsSync localFilePath;
  (if negb present then download (remoteUrl m) localFilePath else mret tt);;
  let webPath := webPathOf withLiveReload filename in
  let newImageTag := "![" +:+ altText m +:+ "](" +:+ webPath +:+ ")" in
  mret (JsString.replace processedMarkdown (fullMatch m) newImageTag).

(** the line the [catch] writes *)
Definition errorLine (m : RegexMatch) (e : error) : logLine :=
  LogError ("Error processing image " +:+ remoteUrl m +:+ ":") e.

(** the text once the reference of [m] is rewritten *)
Definition rewritten (withLiveReload : bool) (m : RegexMatch)
    (pathname text : string) : string :=
  JsString.replace text (fullMatch m)
    ("![" +:+ altText m +:+ "]("
     +:+ webPathOf withLiveReload (basename pathname) +:+ ")").

(** the state once the local path is in [allUsedImages], and once the
    request for a path without a file is out *)
Definition registered (pathname : string) (w : world) : world :=
  setUsed ({[localPathOf pathname]} ∪ allUsedImages w) w.

Definition requested (m : RegexMatch) (pathname : string) (w : world) : world :=
  addRequest (remoteUrl m)
    (addLine (Log ("- Downloading image: " +:+ remoteUrl m))
             (registered pathname w)).

(** one turn of the [for (const match of matches)] loop *)
Definition processMatch (withLiveReload : bool) (m : RegexMatch)
    (processedMarkdown : string) : M string :=
  if String.eqb (remoteUrl m) "" then mret processedMarkdown
  else tryCatch (externalize withLiveReload m processedMarkdown)
         (fun error =>
            consoleError ("Error processing image " +:+ remoteUrl m +:+ ":") error;;
            mret processedMarkdown).

Fixpoint processMatches (withLiveReload : bool) (matches : list RegexMatch)
    (processedMarkdown : string) : M string :=
  match matches with
  | [] => mret processedMarkdown
  | m :: rest =>
      processedMarkdown' ← processMatch withLiveReload m processedMarkdown;
      processMatches withLiveReload rest processedMarkdown'
  end.

(** [processMarkdownImages], run from its first line to its [return]
    with nothing else running in between. The function awaits [fetch],
    [arrayBuffer] and [imagemin.buffer]; in the one-shot build nothing
    else runs while it waits, in the dev server another pass can, which
    replaces [allUsedImages]. What is said below of the touched set after
    a call is said of the one-shot build. *)
Definition processMarkdownImages (markdown : string) (withLiveReload : bool)
  : M string :=
  processMatches withLiveReload (imageUrlMatches markdown) markdown.

(** how the loop takes the state [w] to [w']: it writes the paths
    [newWrites], each once and only where no file was, sends the
    requests [newRequests], each for a reference whose local path had no
    file, and leaves every file that was there as it was *)
Definition extends (w w' : world) (newWrites newRequests : list string) : Prop :=
  writes w' = writes w ++ newWrites
  /\ requests w' = requests w ++ newRequests
  /\ NoDup newWrites
  /\ (forall p, p ∈ newWrites -> files w !! p = None /\ is_Some (files w' !! p))
  /\ (forall p n, files w !! p = Some n -> files w' !! p = Some n)
  /\ (forall url, url ∈ newRequests ->
        exists pathname, urlPathname url = Some pathname
                         /\ files w !! localPathOf pathname = None).

(** *** Renderer *)

(** [renderer.image]: [title] is used when it is neither [null] nor empty *)
Definition rendererImage (href title : option string) (text : string) : string :=
  match href with
  | None => text
  | Some href =>
      let out := "<img loading=" +:+ dq +:+ "lazy" +:+ dq
                 +:+ " decoding=" +:+ dq +:+ "async" +:+ dq
                 +:+ " src=" +:+ dq +:+ href +:+ dq
                 +:+ " alt=" +:+ dq +:+ text +:+ dq in
      let out := match title with
                 | Some t => if String.eqb t "" then out
                             else out +:+ " title=" +:+ dq +:+ t +:+ dq
                 | None => out
                 end in
      out +:+ "/>"
  end.

(** [{...defaults.allowedAttributes, img: [...]}]: the entry for [img]
    replaces the one of the defaults *)
Definition sanitizeOptions : SanitizeOptions :=
  mkOptions (defaultAllowedTags ++ ["img"])
            (List.filter (fun kv => negb (String.eqb (fst kv) "img"))
                         defaultAllowedAttributes
             ++ [("img", ["src"; "alt"; "title"; "loading"; "decoding"])]).

Definition parseMarkdown (markdown : string) : string :=
  sanitizeHtml (markedParse rendererImage markdown) sanitizeOptions.

(** *** Page Assembler *)

(** the [<li>] of one item; a non-empty child list is rendered by
    [generateSidebarHtml] inside it *)
Fixpoint sidebarItem (currentPagePath : string) (item : NavItem) : string :=
  match item with
  | mkNavItem name path children =>
      "<li><a href=" +:+ dq +:+ path +:+ dq +:+ " class=" +:+ dq
      +:+ (if String.eqb path currentPagePath then "active" else "") +:+ dq
      +:+ ">" +:+ name +:+ "</a>"
      +:+ match children with
          | Some (c :: cs) =>
              "<ul>"
              +:+ (fix items (l : list NavItem) : string :=
                     match l with
                     | [] => ""
                     | x :: r => sidebarItem currentPagePath x +:+ items r
                     end) (c :: cs)
              +:+ "</ul>"
          | _ => ""
          end
      +:+ "</li>"
  end.

Definition generateSidebarHtml (navTree : list NavItem) (currentPagePath : string)
  : string :=
  "<ul>" +:+ foldr (fun item html => sidebarItem currentPagePath item +:+ html)
                   "" navTree
  +:+ "</ul>".

(** *** Orphan Collector *)

Definition imageExtensions : list string :=
  [".png"; ".jpg"; ".jpeg"; ".gif"; ".svg"; ".webp"].

(** [imageExtensions.includes(path.extname(file).toLowerCase())] *)
Definition hasImageExtension (file : string) : bool :=
  existsb (String.eqb (toLowerCase (extname file))) imageExtensions.

Definition isUsed (w : world) (fullPath : string) : bool :=
  bool_decide (fullPath ∈ allUsedImages w).

(** an entry the sweep unlinks: an image extension and a path that is
    not in [allUsedImages] *)
Definition isOrphan (w : world) (file : string) : bool :=
  hasImageExtension file && negb (isUsed w (join imageDir file)).

(** the body of the [for (const file of filesInDir)] loop *)
Definition sweepFile (file : string) : M unit :=
  let fullPath := join imageDir file in
  if hasImageExtension file then
    used ← gets (fun w => isUsed w fullPath);
    if negb used then
      consoleLog ("- Deleting orphaned image: " +:+ relative cwd fullPath);;
      unlinkSync fullPath
    else mret tt
  else mret tt.

Fixpoint sweep (filesInDir : list string) : M unit :=
  match filesInDir with
  | [] => mret tt
  | file :: rest => sweepFile file;; sweep rest
  end.

Definition cleanupOrphanedImages : M unit :=
  consoleLog "Cleaning up orphaned images...";;
  present ← existsSync imageDir;
  if negb present then mret tt
  else
    filesInDir ← readdirSync imageDir;
    sweep filesInDir;;
    consoleLog "Cleanup complete.".

(** *** Build Orchestrator *)

Definition seedPage : string :=
  "# Hello World" +:+ nl +:+ nl +:+ "This is your first page." +:+ nl +:+ nl
  +:+ "Edit `md/index.md` to see changes.".

(** what [processFiles] does for one markdown file *)
Definition processFile (navTree : list NavItem) (withLiveReload : bool)
    (entryName content outBaseDir webPathPrefix : string) : M unit :=
  markdownContent ← processMarkdownImages content withLiveReload;
  let htmlContent := parseMarkdown markdownContent in
  let title := prettifyName entryName in
  let outFileName := mdToHtml entryName in
  let currentPagePath := webPathPrefix +:+ outFileName in
  let sidebarHtml := generateSidebarHtml navTree currentPagePath in
  let finalHtml := createHtmlTemplate title htmlContent sidebarHtml withLiveReload in
  let outFilePath := join outBaseDir outFileName in
  writeFileSync outFilePath (list_byte_of_string finalHtml);;
  consoleLog ("- Generated: " +:+ relative cwd outFilePath).

(** [for (const entry of entries)] *)
Definition forEach {A : Type} (visit : A -> M unit) : list A -> M unit :=
  fix loop (l : list A) : M unit :=
    match l with
    | [] => mret tt
    | x :: rest => visit x;; loop rest
    end.

(** what [processFiles] does for one entry of the listing of [dir] *)
Fixpoint processEntry (navTree : list NavItem) (withLiveReload : bool)
    (outBaseDir webPathPrefix : string) (entry : Dirent) : M unit :=
  match entry with
  | DDir name sub =>
      let newOutDir := join outBaseDir name in
      mkdirSync newOutDir;;
      forEach (processEntry navTree withLiveReload newOutDir
                            (webPathPrefix +:+ name +:+ "/")) sub
  | DFile name content =>
      if endsWith name ".md"
      then processFile navTree withLiveReload name content outBaseDir
                       webPathPrefix
      else mret tt
  | DOther _ => mret tt
  end.

(** [processFiles]: [entries] is the listing of [dir], visited in the
    order of the listing *)
Definition processFiles (navTree : list NavItem) (withLiveReload : bool)
    (entries : list Dirent) (outBaseDir webPathPrefix : string) : M unit :=
  forEach (processEntry navTree withLiveReload outBaseDir webPathPrefix) entries.

(** everything [compile] does before the Orphan Collector *)
Definition buildPages (withLiveReload : bool) : M unit :=
  consoleLog "Building static pages...";;
  modify (setUsed ∅);;
  src ← gets source;
  match src with
  | None =>
      consoleLog "-> No 'md' directory found. Creating one with an example file.";;
      modify (setSource (Some [DFile "index.md" seedPage]))
  | Some _ => mret tt
  end;;
  present ← existsSync publicDir;
  (if present && negb withLiveReload then rmSync publicDir else mret tt);;
  mkdirSync publicDir;;
  entries ← gets (fun w => default [] (source w));
  let navTree := buildNavTree localeCompare entries "/" in
  processFiles navTree withLiveReload entries publicDir "/".

(** [compile]: one pass, run from its first line to its last with no
    other pass in between; the passes of the dev server can overlap
    (see [DevLoop]), the pass of the one-shot build is the only one of
    its process *)
Definition compile (withLiveReload : bool) : M unit :=
  buildPages withLiveReload;;
  cleanupOrphanedImages;;
  consoleLog "Build complete!".

End Program.

End Build.

(** ** Dev Loop *)

(** The event loop of the development server, in milliseconds. The
    program reacts to four kinds of events: a call of the [fs.watch]
    listener, the passing of time (which fires the timers that are due),
    the settling of the [compile(true)] a rebuild awaits, and what
    happens to the connections of the live-reload endpoint. *)

Module DevLoop.

(** an [http.ServerResponse] of the [/__livereload__] endpoint *)
Record Client : Type := mkClient {
  clientId : nat;
  writableEnded : bool;
  received : list string
}.

Inductive logLine : Type :=
| ChangesDetected
| BuildFailed.

Record state : Type := mkState {
  now : nat;
  (** the timers of the event loop that have not fired: identifier and
      due time *)
  timers : list (nat * nat);
  nextTimer : nat;
  (** [let timeout] of the closure [debounce] returns *)
  timeout : option nat;
  liveReloadClients : list Client;
  (** the rebuilds whose [compile(true)] has not settled: start times *)
  running : list nat;
  (** the time at which each rebuild started, oldest first; not read by
      the program *)
  starts : list nat;
  console : list logLine
}.

Inductive event : Type :=
| Watch (filename : option string)
| Tick
| Settle (i : nat) (success : bool)
| Connect (id : nat)
| Close (id : nat)
| End (id : nat).

Definition initial : state := mkState 0 [] 1 None [] [] [] [].

Definition reloadMessage : string :=
  "data: reload" +:+ Build.nl +:+ Build.nl.

(** [res.write("data: reload\n\n")] unless [res.writableEnded] *)
Definition notify (res : Client) : Client :=
  if negb (writableEnded res)
  then mkClient (clientId res) (writableEnded res) (received res ++ [reloadMessage])
  else res.

(** [triggerReload] *)
Definition triggerReload (st : state) : state :=
  mkState (now st) (timers st) (nextTimer st) (timeout st)
          (map notify (liveReloadClients st))
          (running st) (starts st) (console st).

(** [clearTimeout(id)]: nothing happens for a timer that has fired and
    for [undefined] *)
Definition clearTimeout (id : option nat) (st : state) : state :=
  match id with
  | Some i =>
      mkState (now st) (List.filter (fun t => negb (Nat.eqb (fst t) i)) (timers st))
              (nextTimer st) (timeout st) (liveReloadClients st)
              (running st) (starts st) (console st)
  | None => st
  end.

(** [setTimeout(callback, waitFor)] and the assignment of its result to
    [timeout] *)
Definition setTimeout (waitFor : nat) (st : state) : state :=
  mkState (now st) (timers st ++ [(nextTimer st, now st + waitFor)%nat])
          (S (nextTimer st)) (Some (nextTimer st)) (liveReloadClients st)
          (running st) (starts st) (console st).

(** a call of the function [debounce(func, waitFor)] returns *)
Definition debounced (waitFor : nat) (st : state) : state :=
  setTimeout waitFor (clearTimeout (timeout st) st).

(** [handleRebuild = debounce(async () => {...}, 100)] *)
Definition handleRebuild : state -> state := debounced 100.

(** the listener of [fs.watch]: [if (filename) handleRebuild()] *)
Definition onWatch (filename : option string) (st : state) : state :=
  match filename with
  | Some f => if String.eqb f "" then st else handleRebuild st
  | None => st
  end.

(** the timer callback [() => resolve(func(...args))]: the rebuild logs
    and awaits [compile(true)] *)
Definition startRebuild (st : state) : state :=
  mkState (now st) (timers st) (nextTimer st) (timeout st)
          (liveReloadClients st) (running st ++ [now st])
          (starts st ++ [now st]) (console st ++ [ChangesDetected]).

(** the rest of the rebuild once [compile(true)] has settled:
    [triggerReload()] after a success, the [catch] after a failure *)
Definition finishRebuild (success : bool) (st : state) : state :=
  if success then triggerReload st
  else mkState (now st) (timers st) (nextTimer st) (timeout st)
               (liveReloadClients st) (running st) (starts st)
               (console st ++ [BuildFailed]).

Definition isDue (t : nat) (timer : nat * nat) : bool := (snd timer <=? t)%nat.

(** one millisecond passes, then the timers that are due fire in the
    order they were set *)
Definition tick (st : state) : state :=
  let t := S (now st) in
  let due := List.filter (isDue t) (timers st) in
  let st' := mkState t (List.filter (fun x => negb (isDue t x)) (timers st))
                     (nextTimer st) (timeout st) (liveReloadClients st)
                     (running st) (starts st) (console st) in
  fold_left (fun s _ => startRebuild s) due st'.

Definition setClients (cs : list Client) (st : state) : state :=
  mkState (now st) (timers st) (nextTimer st) (timeout st) cs
          (running st) (starts st) (console st).

Definition setRunning (r : list nat) (st : state) : state :=
  mkState (now st) (timers st) (nextTimer st) (timeout st)
          (liveReloadClients st) r (starts st) (console st).

Definition step (st : state) (e : event) : state :=
  match e with
  | Watch filename => onWatch filename st
  | Tick => tick st
  | Settle i success =>
      match running st !! i with
      | Some _ => finishRebuild success (setRunning (delete i (running st)) st)
      | None => st
      end
  | Connect id =>
      setClients (liveReloadClients st ++ [mkClient id false []]) st
  | Close id =>
      setClients (List.filter (fun c => negb (Nat.eqb (clientId c) id))
                              (liveReloadClients st)) st
  | End id =>
      setClients (map (fun c => if Nat.eqb (clientId c) id
                                then mkClient (clientId c) true (received c)
                                else c) (liveReloadClients st)) st
  end.

Definition run (st : state) (events : list event) : state :=
  fold_left step events st.

(** the events of a list that are [Tick]s *)
Definition ticks (events : list event) : nat :=
  length (List.filter (fun e => match e with Tick => true | _ => false end) events).

(** a call of the listener that carries a file name *)
Definition isNamedWatch (e : event) : bool :=
  match e with
  | Watch (Some f) => negb (String.eqb f "")
  | _ => false
  end.

(** the single slot of the debounce closure: no timer, or one timer,
    which is the one [timeout] names and is not yet due *)
Definition slot (st : state) (slack : nat) : Prop :=
  timers st = []
  \/ exists id due,
       timers st = [(id, due)] /\ timeout st = Some id
       /\ (now st + slack < due)%nat /\ (due <= now st + 100)%nat.

(** the starts of two rebuilds are at least one window apart *)
Definition apart (a b : nat) : Prop := (a + 100 <= b)%nat.

Definition serialised (st : state) : Prop :=
  (timers st = []
   \/ exists id due,
        timers st = [(id, due)] /\ timeout st = Some id
        /\ (now st < due)%nat
        /\ Forall (fun s => apart s due) (starts st))
  /\ Forall (fun s => (s <= now st)%nat) (starts st)
  /\ StronglySorted apart (starts st).

End DevLoop.

(** ** The navigation model as a whole *)

Module NavTree.
Import Str Path Nav.

(** a listing holds a markdown document, at any depth *)
Fixpoint direntHasDocument (e : Dirent) : bool :=
  match e with
  | DFile n _ => endsWith n ".md"
  | DDir _ es => existsb direntHasDocument es
  | DOther _ => false
  end.

Definition hasDocument (entries : list Dirent) : bool :=
  existsb direntHasDocument entries.

(** the paths of an item and of the items below it *)
Fixpoint navPaths (item : NavItem) : list string :=
  match item with
  | mkNavItem _ path children =>
      path :: match children with
              | Some cs => flat_map navPaths cs
              | None => []
              end
  end.

Definition allPaths (navTree : list NavItem) : list string :=
  flat_map navPaths navTree.

(** no directory of the tree has the empty name, which [readdirSync]
    never returns *)
Fixpoint direntNamed (e : Dirent) : bool :=
  match e with
  | DDir n es => negb (String.eqb n "") && forallb direntNamed es
  | _ => true
  end.

Definition wellNamed (entries : list Dirent) : bool := forallb direntNamed entries.

End NavTree.

(** ** Steps of the image pattern *)

Module RegexSteps.
Import Str Regex.

(** the attempt of [scanAlt] at the current position *)
Definition matchHere (l alt : list ascii)
  : option (list ascii * list ascii * list ascii) :=
  match stripPrefix (chars "](") l with
  | Some l1 =>
      match matchScheme l1 with
      | Some (scheme, l2) =>
          match scanUrl l2 [] with
          | Some (tail, after) => Some (rev alt, scheme ++ tail, after)
          | None => None
          end
      | None => None
      end
  | None => None
  end.

End RegexSteps.

(** ** Steps of a pass and what they keep *)

Module Pass.
Import Str Path Nav Sys Build.

(** every run of [m] takes a state to a state related to it by [R],
    whether it returns or throws *)
Definition Keeps {A : Type} (R : world -> world -> Prop) (m : M A) : Prop :=
  forall w r w', m w = (r, w') -> R w w'.

(** nothing is removed, and a directory stays a directory *)
Definition grows (w w' : world) : Prop :=
  forall p, (is_Some (files w !! p) -> is_Some (files w' !! p))
            /\ (files w !! p = Some Dir -> files w' !! p = Some Dir).

(** a file stays a file, with this content or another *)
Definition keepsFiles (w w' : world) : Prop :=
  forall p, isFileAt (files w) p = true -> isFileAt (files w') p = true.

(** the [outFilePath] of every page [processFiles] writes for an entry
    of the listing of a directory whose pages go to [outBaseDir] *)
Fixpoint direntPages (outBaseDir : string) (entry : Dirent) : list string :=
  match entry with
  | DDir name sub => flat_map (direntPages (join outBaseDir name)) sub
  | DFile name _ =>
      if endsWith name ".md" then [join outBaseDir (mdToHtml name)] else []
  | DOther _ => []
  end.

Definition pagePaths (outBaseDir : string) (entries : list Dirent) : list string :=
  flat_map (direntPages outBaseDir) entries.

(** the touched set only grows *)
Definition keepsUsed (w w' : world) : Prop := allUsedImages w ⊆ allUsedImages w'.

(** the text of every markdown document [processFiles] reads for an
    entry of a listing *)
Fixpoint direntDocuments (entry : Dirent) : list string :=
  match entry with
  | DDir _ sub => flat_map direntDocuments sub
  | DFile name content => if endsWith name ".md" then [content] else []
  | DOther _ => []
  end.

Definition documents (entries : list Dirent) : list string :=
  flat_map direntDocuments entries.

(** the state in which the writing of the output starts *)
Definition seeded (w : world) : world :=
  let w1 := setUsed ∅ (addLine (Log "Building static pages...") w) in
  match source w with
  | None =>
      setSource (Some [DFile "index.md" seedPage])
        (addLine (Log "-> No 'md' directory found. Creating one with an example file.")
                 w1)
  | Some _ => w1
  end.

Section Steps.
Variable cwd : string.
Variable urlPathname : string -> option string.
Variable network : nat -> string -> option Response.
Variable imagemin : list Byte.byte -> option (list Byte.byte).
Variable markedParse :
  (option string -> option string -> string -> string) -> string -> string.
Variable sanitizeHtml : string -> SanitizeOptions -> string.
Variable defaultAllowedTags : list string.
Variable defaultAllowedAttributes : list (string * list string).
Variable createHtmlTemplate : string -> string -> string -> bool -> string.
Variable localeCompare : string -> string -> Z.

(** the end of [compile]'s [try] block: the output directory is made
    and the pages are written *)
Definition writePages (withLiveReload : bool) : M unit :=
  mkdirSync (publicDir cwd);;
  entries ← gets (fun w => default [] (source w));
  processFiles cwd urlPathname network imagemin markedParse sanitizeHtml
    defaultAllowedTags defaultAllowedAttributes createHtmlTemplate
    (buildNavTree localeCompare entries "/") withLiveReload entries
    (publicDir cwd) "/".

(** what [buildPages] does once the source tree is there *)
Definition buildOutput (withLiveReload : bool) : M unit :=
  present ← existsSync (publicDir cwd);
  (if present && negb withLiveReload then rmSync (publicDir cwd) else mret tt);;
  writePages withLiveReload.

End Steps.

End Pass.

(** ** Traces of the dev loop *)

Module DevLoopTrace.
Import DevLoop.

(** no window closes during [events]: every [Tick] that follows a
    notification with a file name comes less than 100 ms after the last
    such notification; [since] is the time since that notification, and
    [None] when no notification is pending *)
Fixpoint noWindowCloses (since : option nat) (events : list event) : bool :=
  match events with
  | [] => true
  | e :: rest =>
      if isNamedWatch e then noWindowCloses (Some 0%nat) rest
      else match e, since with
           | Tick, Some n => (S n <? 100)%nat && noWindowCloses (Some (S n)) rest
           | _, _ => noWindowCloses since rest
           end
  end.

(** the timer of the debounce closure [since] ms after the notification
    that set it *)
Definition pending (since : option nat) (st : state) : Prop :=
  match since with
  | None => timers st = []
  | Some n =>
      exists id, timers st = [(id, now st + (100 - n))%nat]
                 /\ timeout st = Some id /\ (n < 100)%nat
  end.

Definition clientIds (st : state) : list nat := map clientId (liveReloadClients st).

End DevLoopTrace.

(** ** Reading the options of the sanitizer *)

Module Options.

(** the value of the property [tag] of an [allowedAttributes] object *)
Definition attributesFor (tag : string) (attrs : list (string * list string))
  : option (list string) :=
  match List.find (fun kv => String.eqb (fst kv) tag) attrs with
  | Some kv => Some (snd kv)
  | None => None
  end.

End Options.

(** ** Sample inputs *)

(** Concrete values for the functions the program takes from its
    environment, and small source trees, filesystems and event traces on
    which the definitions above are run. *)

Module Sample.
Import Str Path Nav Sys Regex Build.

Definition cwd : string := "/site".

(** an upper-case ASCII letter for its lower-case one and the other way
    round *)
Definition swapCaseChar (c : ascii) : ascii :=
  if Ascii.eqb (lowerChar c) c then upperChar c else lowerChar c.

Definition swapCase (s : string) : string := ofChars (map swapCaseChar (chars s)).

(** [a.localeCompare(b)] as the default collation has it on names made
    of ASCII letters, digits, [.] and [-]: the letters are compared
    without regard to their case first, and on a tie a lower-case letter
    comes before its upper-case one; so [a.md] comes before [B.md],
    which the order of the code units puts second *)
Definition localeCompare (a b : string) : Z :=
  match String.compare (toLowerCase a) (toLowerCase b) with
  | Lt => -1
  | Gt => 1
  | Eq => byteCompare (swapCase a) (swapCase b)
  end.

Fixpoint splitWhere (stop : ascii -> bool) (l : list ascii)
  : list ascii * list ascii :=
  match l with
  | [] => ([], [])
  | c :: r =>
      if stop c then ([], l)
      else let '(a, b) := splitWhere stop r in (c :: a, b)
  end.

(** the path of an [http(s)] URL with a host: what lies between the
    host and the query or fragment *)
Definition pathnameOf (u : string) : option string :=
  match matchScheme (chars u) with
  | Some (_, rest) =>
      let '(host, r) := splitWhere (Ascii.eqb slash) rest in
      match host with
      | [] => None
      | _ =>
          let '(p, _) :=
            splitWhere (fun c => Ascii.eqb c "?"%char || Ascii.eqb c "#"%char) r in
          Some (match p with [] => "/" | _ => ofChars p end)
      end
  | None => None
  end.

(** a network on which only [good.example] serves an image *)
Definition network (n : nat) (url : string) : option Response :=
  if String.eqb url "https://good.example/img.png"
  then Some (mkResponse true "OK" [Byte.x89; Byte.x50; Byte.x4e; Byte.x47])
  else if String.eqb url "https://bad.example/img.png"
  then Some (mkResponse false "Not Found" [])
  else None.

Definition imagemin (buffer : list Byte.byte) : option (list Byte.byte) :=
  Some buffer.

Definition markedParse
    (image : option string -> option string -> string -> string)
    (markdown : string) : string := markdown.

Definition sanitizeHtml (html : string) (options : SanitizeOptions) : string := html.

Definition createHtmlTemplate (title content sidebarHtml : string)
    (withLiveReload : bool) : string := content.

Definition compile : bool -> M unit :=
  Build.compile cwd pathnameOf network imagemin markedParse sanitizeHtml [] []
    createHtmlTemplate localeCompare.

Definition cleanupOrphanedImages : M unit := Build.cleanupOrphanedImages cwd.

Definition processMarkdownImages : string -> bool -> M string :=
  Build.processMarkdownImages cwd pathnameOf network imagemin.

Definition worldOf (src : option (list Dirent)) (nodes : list (string * node))
    (used : list string) : world :=
  mkWorld (list_to_map nodes) src (list_to_set used) [] [] [].

(** a source tree *)
Definition docs : list Dirent :=
  [DFile "setup.md" ""; DFile "index.md" ""; DFile "about.md" "";
   DFile "logo.png" "";
   DDir "guide" [DFile "install.md" ""; DDir "deep" [DFile "index.md" ""]];
   DDir "assets" [DFile "logo.png" ""];
   DDir "api" [DFile "index.md" ""]].

(** an output directory after a pass that touched [used.png]: an orphan,
    a page, and an image in a subdirectory *)
Definition afterPass : world :=
  worldOf (Some [])
    [("/site", Dir); ("/site/public", Dir);
     ("/site/public/used.png", File [Byte.x01]);
     ("/site/public/old.PNG", File [Byte.x02]);
     ("/site/public/index.html", File [Byte.x03]);
     ("/site/public/assets", Dir);
     ("/site/public/assets/logo.png", File [Byte.x04])]
    ["/site/public/used.png"].

(** a source tree with a directory named like an image, and an output
    directory that holds an image no document refers to *)
Definition withImageNamedDirectory : world :=
  worldOf (Some [DFile "index.md" "# Hi"; DDir "a.png" []])
    [("/site", Dir); ("/site/public", Dir);
     ("/site/public/b.png", File [Byte.x02])]
    [].

(** the output directory of [withImageNamedDirectory] once the pages are
    built, when the collector starts *)
Definition beforeSweep : world :=
  worldOf (Some [])
    [("/site", Dir); ("/site/public", Dir);
     ("/site/public/a.png", Dir);
     ("/site/public/b.png", File [Byte.x02])]
    [].

Definition emptySite : world :=
  worldOf (Some []) [("/site", Dir); ("/site/public", Dir)] [].

Definition badReference : string := "![x](https://bad.example/img.png)".

Definition badMatch : RegexMatch :=
  mkMatch badReference "x" "https://bad.example/img.png".

(** a saved file, then a second save while the first rebuild is still
    in flight *)
Definition twoSaves : list DevLoop.event :=
  [DevLoop.Watch (Some "index.md")] ++ repeat DevLoop.Tick 100
  ++ [DevLoop.Watch (Some "index.md")] ++ repeat DevLoop.Tick 100.

End Sample.

(** ** More sample inputs *)

Module SampleMore.
Import Str Path Nav Sys Regex Build.

Definition goodReference : string := "![x](https://good.example/img.png)".

Definition goodMatch : RegexMatch :=
  mkMatch goodReference "x" "https://good.example/img.png".

(** a site with a document that refers to a remote image, a document in
    a subdirectory, and an output directory that holds an image of an
    earlier pass *)
Definition illustrated : world :=
  Sample.worldOf
    (Some [DFile "index.md" goodReference;
           DDir "guide" [DFile "setup.md" "# Setup"]])
    [("/site", Dir); ("/site/public", Dir);
     ("/site/public/old.png", File [Byte.x02])]
    [].

(** a document with a reference that cannot be fetched and one that
    can *)
Definition mixedReferences : string :=
  "![x](https://bad.example/a.png) ![y](https://good.example/img.png)".

Definition failingMatch : RegexMatch :=
  mkMatch "![x](https://bad.example/a.png)" "x" "https://bad.example/a.png".

Definition servedMatch : RegexMatch :=
  mkMatch "![y](https://good.example/img.png)" "y" "https://good.example/img.png".

(** a reference whose URL holds the text of the reference that follows
    it; its image cannot be fetched, the image of the other can, and
    both images have the file name [img.png] *)
Definition nestedReference : string :=
  "![a](https://x/![z](https://good.example/img.png) "
  +:+ "![z](https://good.example/img.png)".

Definition outerMatch : RegexMatch :=
  mkMatch "![a](https://x/![z](https://good.example/img.png)" "a"
          "https://x/![z](https://good.example/img.png".

Definition innerMatch : RegexMatch :=
  mkMatch "![z](https://good.example/img.png)" "z" "https://good.example/img.png".

(** an output directory when the collector starts: two images no
    document refers to, and between them a directory named like an
    image *)
Definition midSweep : world :=
  Sample.worldOf (Some [])
    [("/site", Dir); ("/site/public", Dir);
     ("/site/public/z.png", File [Byte.x03]);
     ("/site/public/m.png", Dir);
     ("/site/public/a.png", File [Byte.x02])]
    [].

(** a burst of saves that never pauses for 100 ms *)
Definition restlessSaves : list DevLoop.event :=
  [DevLoop.Watch (Some "index.md")] ++ repeat DevLoop.Tick 99
  ++ [DevLoop.Watch (Some "index.md")] ++ repeat DevLoop.Tick 99
  ++ [DevLoop.Watch (Some "about.md")] ++ repeat DevLoop.Tick 99.

(** events that carry no file name *)
Definition idleEvents : list DevLoop.event :=
  [DevLoop.Watch None; DevLoop.Tick; DevLoop.Connect 1; DevLoop.Watch (Some "");
   DevLoop.Tick; DevLoop.Close 1].

End SampleMore.

(** * Properties *)

(** ** Navigation Builder *)

Module NavSpec.
Import Str Path Nav.

Lemma mapIn_map {A B} (f : A -> B) (l : list A) :
  mapIn l (fun x _ => f x) = map f l.
Proof. induction l as [|x l IH]; simpl; [reflexivity|]. now rewrite IH. Qed.

Section Sorting.
Context {A : Type} (compare : A -> A -> Z).
Let R (a b : A) : Prop := compare a b <= 0.
Hypothesis compare_total : forall a b, R a b \/ R b a.
Hypothesis compare_trans : forall a b c, R a b -> R b c -> R a c.

Lemma insertSorted_perm (x : A) (l : list A) :
  Permutation (insertSorted compare x l) (x :: l).
Proof.
  induction l as [|y l IH]; simpl; [reflexivity|].
  destruct (compare x y <=? 0); [reflexivity|].
  rewrite IH. apply perm_swap.
Qed.

Lemma arraySort_perm (l : list A) : Permutation (arraySort compare l) l.
Proof.
  induction l as [|x l IH]; simpl; [reflexivity|].
  rewrite insertSorted_perm. now rewrite IH.
Qed.

Lemma insertSorted_sorted (x : A) (l : list A) :
  StronglySorted R l -> StronglySorted R (insertSorted compare x l).
Proof.
  induction l as [|y l IH]; simpl; intros Hs.
  - repeat constructor.
  - inversion Hs as [|? ? Hl Hy]; subst.
    destruct (Z.leb_spec (compare x y) 0) as [Hxy|Hxy].
    + constructor; [exact Hs|]. constructor; [exact Hxy|].
      eapply Forall_impl; [exact Hy|]. intros z Hz. now apply compare_trans with y.
    + constructor; [now apply IH|].
      eapply Permutation_Forall; [symmetry; apply insertSorted_perm|].
      constructor; [|exact Hy].
      destruct (compare_total x y) as [H|H]; [unfold R in H; lia|exact H].
Qed.

Lemma arraySort_sorted (l : list A) : StronglySorted R (arraySort compare l).
Proof.
  induction l as [|x l IH]; simpl; [constructor|]. now apply insertSorted_sorted.
Qed.

End Sorting.

Section Builder.
Variable localeCompare : string -> string -> Z.

Abbreviation buildNavTree := (Nav.buildNavTree localeCompare).
Abbreviation sortedFiles := (Nav.sortedFiles localeCompare).
Abbreviation sortedDirs := (Nav.sortedDirs localeCompare).

Abbreviation childrenOf := (Nav.childrenOf localeCompare).
Abbreviation inOrder := (Nav.inOrder localeCompare).

Lemma buildNavTree_unfold (entries : list Dirent) (webPathPrefix : string) :
  buildNavTree entries webPathPrefix
  = map (fileItem webPathPrefix) (sortedFiles entries)
    ++ flat_map (fun subDir => dirItem subDir (childrenOf webPathPrefix subDir))
                (sortedDirs entries).
Proof.
  rewrite buildNavTree_equation_1. f_equal.
  rewrite (mapIn_map (fun subDir => dirItem subDir (childrenOf webPathPrefix subDir))).
  now rewrite flat_map_concat_map.
Qed.

Hypothesis localeCompare_total :
  forall a b, localeCompare a b <= 0 \/ localeCompare b a <= 0.
Hypothesis localeCompare_trans :
  forall a b c, localeCompare a b <= 0 -> localeCompare b c <= 0 ->
                localeCompare a c <= 0.

Let filesOrder (a b : Dirent) : Prop := compareFiles localeCompare a b <= 0.

Lemma filesOrder_total (a b : Dirent) : filesOrder a b \/ filesOrder b a.
Proof.
  unfold filesOrder, compareFiles.
  destruct (String.eqb (name a) "index.md"); [left; lia|].
  destruct (String.eqb (name b) "index.md"); [right; lia|].
  apply localeCompare_total.
Qed.

Lemma filesOrder_trans (a b c : Dirent) :
  filesOrder a b -> filesOrder b c -> filesOrder a c.
Proof.
  unfold filesOrder, compareFiles.
  destruct (String.eqb (name a) "index.md"); [lia|].
  destruct (String.eqb (name b) "index.md"); [lia|].
  destruct (String.eqb (name c) "index.md"); [lia|].
  apply localeCompare_trans.
Qed.

Lemma filesOrder_after_other (a b : Dirent) :
  name a <> "index.md" -> filesOrder a b ->
  name b <> "index.md" /\ inOrder a b.
Proof.
  unfold filesOrder, compareFiles, Nav.inOrder. intros Ha.
  apply String.eqb_neq in Ha. rewrite Ha.
  destruct (String.eqb_spec (name b) "index.md"); [lia|]. auto.
Qed.

Lemma filesOrder_others (l : list Dirent) :
  StronglySorted filesOrder l -> Forall (fun d => name d <> "index.md") l ->
  StronglySorted inOrder l.
Proof.
  induction 1 as [|x l Hl IH Hx]; intros Hn; [constructor|].
  inversion Hn as [|? ? Hnx Hnl]; subst. constructor; [auto|].
  rewrite Forall_forall in Hx |- *. intros y Hy.
  now apply (filesOrder_after_other x y Hnx), Hx.
Qed.

(** a listing in the order of the file comparator is the files named
    [index.md] followed by the others in the order of [localeCompare] *)
Lemma filesOrder_split (l : list Dirent) :
  StronglySorted filesOrder l ->
  exists index rest,
    l = index ++ rest
    /\ Forall (fun d => name d = "index.md") index
    /\ Forall (fun d => name d <> "index.md") rest
    /\ StronglySorted inOrder rest.
Proof.
  induction 1 as [|x l Hl IH Hx].
  - exists [], []. repeat split; constructor.
  - destruct (String.eqb_spec (name x) "index.md") as [Hi|Hi].
    + destruct IH as (index & rest & -> & Hidx & Hrest & Hs).
      exists (x :: index), rest. repeat split; auto.
    + assert (Hn : Forall (fun d => name d <> "index.md") (x :: l)).
      { constructor; [exact Hi|]. rewrite Forall_forall in Hx |- *.
        intros y Hy. now apply (filesOrder_after_other x y Hi), Hx. }
      exists [], (x :: l). repeat split; auto.
      apply filesOrder_others; [now constructor|exact Hn].
Qed.

Lemma NoDup_names_filter (p : Dirent -> bool) (l : list Dirent) :
  NoDup (map name l) -> NoDup (map name (List.filter p l)).
Proof.
  induction l as [|x l IH]; simpl; intros Hnd; [constructor|].
  apply NoDup_cons in Hnd as [Hx Hnd].
  destruct (p x); simpl; [|auto].
  apply NoDup_cons. split; [|auto].
  intros Hin. apply Hx. apply list_elem_of_In in Hin. apply list_elem_of_In.
  apply in_map_iff in Hin as (y & Hy & Hin). apply in_map_iff.
  exists y. split; [exact Hy|]. now apply filter_In in Hin as [Hin _].
Qed.

Lemma one_index (index rest : list Dirent) :
  NoDup (map name (index ++ rest)) ->
  Forall (fun d => name d = "index.md") index ->
  (length index <= 1)%nat.
Proof.
  intros Hnd Hidx. destruct index as [|a [|b index]]; simpl; try lia.
  exfalso. inversion Hidx as [|? ? Ha Hidx']; subst.
  inversion Hidx' as [|? ? Hb _]; subst.
  simpl in Hnd. apply NoDup_cons in Hnd as [Hnot _].
  apply Hnot. rewrite Ha, <- Hb. apply list_elem_of_In. now left.
Qed.

(** C8, as the program has it. In every directory the documents come
    first: the one named [index.md] leads, the other documents follow in
    the order of [localeCompare] on their file names; after them come
    the nodes of the subdirectories, in the order of [localeCompare] on
    the directory names. The order is the collation of
    [String.prototype.localeCompare], of which the program uses that it
    is a total preorder; it is not the order of the characters of the
    names. *)
Theorem buildNavTree_order (entries : list Dirent) (webPathPrefix : string) :
  NoDup (map name entries) ->
  exists index rest subdirs,
    buildNavTree entries webPathPrefix
    = map (fileItem webPathPrefix) (index ++ rest)
      ++ flat_map (fun subDir => dirItem subDir (childrenOf webPathPrefix subDir))
                  subdirs
    /\ Permutation (index ++ rest) (List.filter isMarkdown entries)
    /\ Permutation subdirs (List.filter isDirectory entries)
    /\ Forall (fun d => name d = "index.md") index
    /\ (length index <= 1)%nat
    /\ Forall (fun d => name d <> "index.md") rest
    /\ StronglySorted inOrder rest
    /\ StronglySorted inOrder subdirs.
Proof.
  intros Hnd.
  destruct (filesOrder_split (sortedFiles entries)) as (index & rest & Hl & Hidx & Hrest & Hs).
  { apply arraySort_sorted; [apply filesOrder_total|apply filesOrder_trans]. }
  assert (Hperm : Permutation (index ++ rest) (List.filter isMarkdown entries)).
  { rewrite <- Hl. apply arraySort_perm. }
  exists index, rest, (sortedDirs entries).
  rewrite buildNavTree_unfold, Hl. repeat split; auto.
  - apply arraySort_perm.
  - apply (one_index index rest); [|exact Hidx].
    rewrite (Permutation_map name Hperm). now apply NoDup_names_filter.
  - apply (arraySort_sorted (compareDirs localeCompare)).
    + intros a b. apply localeCompare_total.
    + intros a b c. apply localeCompare_trans.
Qed.

Lemma dirPath_first (before after : list NavItem) (child : NavItem) :
  Forall (fun c => basename (itemPath c) <> "index.html") before ->
  basename (itemPath child) = "index.html" ->
  dirPath (before ++ child :: after) = itemPath child.
Proof.
  unfold dirPath. intros Hb Hc.
  induction Hb as [|c before Hn _ IH]; simpl.
  - unfold isIndexPage. now rewrite Hc.
  - unfold isIndexPage at 1. apply String.eqb_neq in Hn. now rewrite Hn.
Qed.

Lemma dirPath_none (children : list NavItem) :
  Forall (fun c => basename (itemPath c) <> "index.html") children ->
  dirPath children = "#".
Proof.
  unfold dirPath. induction 1 as [|c l Hn _ IH]; simpl; [reflexivity|].
  unfold isIndexPage at 1. apply String.eqb_neq in Hn. now rewrite Hn.
Qed.


End Builder.

Lemma byteCompare_le (a b : string) :
  Sys.byteCompare a b <= 0 <-> String.le a b.
Proof.
  unfold Sys.byteCompare, String.le, String.leb.
  destruct (String.compare a b); simpl; split; intros H; try lia; try exact I;
    try contradiction.
Qed.

Lemma byteCompare_total (a b : string) :
  Sys.byteCompare a b <= 0 \/ Sys.byteCompare b a <= 0.
Proof. rewrite !byteCompare_le. apply String.le_total. Qed.

Lemma byteCompare_trans (a b c : string) :
  Sys.byteCompare a b <= 0 -> Sys.byteCompare b c <= 0 ->
  Sys.byteCompare a c <= 0.
Proof. rewrite !byteCompare_le. intros H1 H2. now transitivity b. Qed.

Lemma compare_same (a : string) : String.compare a a = Eq.
Proof.
  pose proof (String.compare_antisym a a) as H.
  destruct (String.compare a a); simpl in H; congruence.
Qed.

(** [Sample.localeCompare] by its two keys *)
Lemma localeCompare_le (a b : string) :
  Sample.localeCompare a b <= 0
  <-> String.compare (toLowerCase a) (toLowerCase b) = Lt
      \/ (toLowerCase a = toLowerCase b
          /\ String.le (Sample.swapCase a) (Sample.swapCase b)).
Proof.
  unfold Sample.localeCompare.
  destruct (String.compare (toLowerCase a) (toLowerCase b)) eqn:E.
  - apply String.compare_eq_iff in E. rewrite byteCompare_le. intuition congruence.
  - split; [now left|lia].
  - split; [lia|]. intros [H|[H _]]; [discriminate|].
    rewrite H, compare_same in E. discriminate.
Qed.

Lemma compare_Lt_le (a b : string) : String.compare a b = Lt -> String.le a b.
Proof. unfold String.le, String.leb. now intros ->. Qed.

Lemma compare_Lt_not_le (a b : string) :
  String.compare a b = Lt -> ~ String.le b a.
Proof.
  unfold String.le, String.leb. rewrite (String.compare_antisym a b).
  intros H. destruct (String.compare b a); simpl in *; try discriminate. auto.
Qed.

Lemma not_le_compare_Lt (a b : string) :
  ~ String.le b a -> String.compare a b = Lt.
Proof.
  unfold String.le, String.leb. rewrite (String.compare_antisym a b).
  destruct (String.compare b a); simpl; intros H; try reflexivity; now destruct H.
Qed.

Lemma compare_Lt_trans (a b c : string) :
  String.compare a b = Lt -> String.compare b c = Lt -> String.compare a c = Lt.
Proof.
  intros Hab Hbc. apply not_le_compare_Lt. intros Hca.
  apply (compare_Lt_not_le b c Hbc). transitivity a; [exact Hca|].
  now apply compare_Lt_le.
Qed.

Lemma localeCompare_total (a b : string) :
  Sample.localeCompare a b <= 0 \/ Sample.localeCompare b a <= 0.
Proof.
  rewrite !localeCompare_le.
  destruct (String.compare (toLowerCase a) (toLowerCase b)) eqn:E.
  - apply String.compare_eq_iff in E.
    destruct (String.le_total (Sample.swapCase a) (Sample.swapCase b));
      [left|right]; right; auto.
  - left. now left.
  - right. left. rewrite String.compare_antisym, E. reflexivity.
Qed.

Lemma localeCompare_trans (a b c : string) :
  Sample.localeCompare a b <= 0 -> Sample.localeCompare b c <= 0 ->
  Sample.localeCompare a c <= 0.
Proof.
  rewrite !localeCompare_le. intros [Hab|[Hab Sab]] [Hbc|[Hbc Sbc]].
  - left. now apply compare_Lt_trans with (toLowerCase b).
  - left. now rewrite <- Hbc.
  - left. now rewrite Hab.
  - right. split; [congruence|now transitivity (Sample.swapCase b)].
Qed.

(** the order of the documents and directories of [Sample.docs] *)
Lemma buildNavTree_order_witness :
  NoDup (map name Sample.docs)
  /\ exists index rest subdirs,
       Nav.buildNavTree Sample.localeCompare Sample.docs "/"
       = map (fileItem "/") (index ++ rest)
         ++ flat_map (fun subDir =>
                        dirItem subDir
                          (Nav.childrenOf Sample.localeCompare "/" subDir))
                     subdirs
       /\ Permutation (index ++ rest) (List.filter isMarkdown Sample.docs)
       /\ Permutation subdirs (List.filter isDirectory Sample.docs)
       /\ Forall (fun d => name d = "index.md") index
       /\ (length index <= 1)%nat
       /\ Forall (fun d => name d <> "index.md") rest
       /\ StronglySorted (Nav.inOrder Sample.localeCompare) rest
       /\ StronglySorted (Nav.inOrder Sample.localeCompare) subdirs.
Proof.
  assert (Hnd : NoDup (map name Sample.docs)).
  { apply (bool_decide_unpack _). vm_compute. exact I. }
  split; [exact Hnd|].
  exact (buildNavTree_order Sample.localeCompare localeCompare_total
           localeCompare_trans Sample.docs "/" Hnd).
Defined.

Example buildNavTree_sample :
  map itemName (Nav.buildNavTree Sample.localeCompare Sample.docs "/")
  = ["Home"; "About"; "Setup"; "Api"; "Guide"]
  /\ map itemPath (Nav.buildNavTree Sample.localeCompare Sample.docs "/")
     = ["/index.html"; "/about.html"; "/setup.html"; "/api/index.html";
        "/guide/deep/index.html"].
Proof. split; vm_compute; reflexivity. Qed.

(** C8 at a directory with the documents [B.md] and [a.md] and the
    subdirectories [Zeta] and [alpha]: [localeCompare] puts [a.md] and
    [alpha] first, the order of the characters puts [B.md] and [Zeta]
    first. *)
Lemma lexicographic_order_counterexample :
  let entries :=
    [DFile "B.md" ""; DFile "a.md" "";
     DDir "Zeta" [DFile "index.md" ""]; DDir "alpha" [DFile "index.md" ""]] in
  map itemPath (Nav.buildNavTree Sample.localeCompare entries "/")
  = ["/a.html"; "/B.html"; "/alpha/index.html"; "/Zeta/index.html"]
  /\ String.ltb "B.md" "a.md" = true
  /\ String.ltb "Zeta" "alpha" = true.
Proof. cbv zeta. split_and!; vm_compute; reflexivity. Qed.

End NavSpec.

(** ** Renderer *)

Module RendererSpec.
Import Build.

Lemma append_assoc (a b c : string) : (a +:+ b) +:+ c = a +:+ b +:+ c.
Proof.
  induction a as [|x a IH]; [reflexivity|].
  change (String x ((a +:+ b) +:+ c) = String x (a +:+ b +:+ c)). now rewrite IH.
Qed.

(** an image with a destination is an [img] element with the two hints,
    the destination and the text *)
Lemma rendererImage_hints (href : string) (title : option string) (text : string) :
  exists rest,
    rendererImage (Some href) title text
    = ("<img loading=" +:+ dq +:+ "lazy" +:+ dq
       +:+ " decoding=" +:+ dq +:+ "async" +:+ dq
       +:+ " src=" +:+ dq +:+ href +:+ dq
       +:+ " alt=" +:+ dq +:+ text +:+ dq) +:+ rest.
Proof.
  unfold rendererImage. destruct title as [t|]; [|eauto].
  destruct (String.eqb t ""); [eauto|].
  eexists. rewrite append_assoc. reflexivity.
Qed.

(** an image without a destination is its text *)
Lemma rendererImage_no_destination (title : option string) (text : string) :
  rendererImage None title text = text.
Proof. reflexivity. Qed.

(** the allow-list handed to [sanitizeHtml] adds [img], and nothing
    else, to the default tags *)
Lemma sanitizeOptions_tags (defaultTags : list string)
    (defaultAttributes : list (string * list string)) (tag : string) :
  tag ∈ allowedTags (sanitizeOptions defaultTags defaultAttributes)
  <-> tag ∈ defaultTags \/ tag = "img".
Proof.
  unfold sanitizeOptions. simpl. rewrite elem_of_app, list_elem_of_singleton.
  reflexivity.
Qed.

End RendererSpec.

(** ** Strings and paths *)

Module PathFacts.
Import Str Path Sys.

Lemma chars_app (a b : string) : chars (a +:+ b) = chars a ++ chars b.
Proof. unfold chars. induction a as [|c a IH]; simpl; [reflexivity|]. now rewrite IH. Qed.

Lemma ofChars_chars (s : string) : ofChars (chars s) = s.
Proof. apply string_of_list_ascii_of_string. Qed.

Lemma chars_ofChars (l : list ascii) : chars (ofChars l) = l.
Proof. apply list_ascii_of_string_of_list_ascii. Qed.

Lemma chars_inj (a b : string) : chars a = chars b -> a = b.
Proof. intros H. rewrite <- (ofChars_chars a), <- (ofChars_chars b). now rewrite H. Qed.

Lemma stripPrefix_app (p l : list ascii) : stripPrefix p (p ++ l) = Some l.
Proof.
  induction p as [|a p IH]; simpl; [reflexivity|]. now rewrite Ascii.eqb_refl.
Qed.

Lemma stripPrefix_Some (p l r : list ascii) :
  stripPrefix p l = Some r -> l = p ++ r.
Proof.
  revert l. induction p as [|a p IH]; simpl; intros l H.
  - now inversion H.
  - destruct l as [|b l]; [discriminate|].
    destruct (Ascii.eqb_spec a b); [|discriminate]. subst. f_equal. now apply IH.
Qed.

Lemma join_entry (dir n : string) :
  isEntryName n = true -> join dir n = dir +:+ "/" +:+ n.
Proof.
  unfold isEntryName, join. destruct (String.eqb n ""); [discriminate|reflexivity].
Qed.

Lemma chars_join (dir n : string) :
  n <> "" -> chars (join dir n) = (chars dir ++ [slash]) ++ chars n.
Proof.
  intros Hn. unfold join. apply String.eqb_neq in Hn. rewrite Hn.
  rewrite !chars_app. simpl. now rewrite <- app_assoc.
Qed.

Lemma isEntryName_nonempty (n : string) : isEntryName n = true -> n <> "".
Proof.
  unfold isEntryName. destruct (String.eqb_spec n ""); [discriminate|auto].
Qed.

Lemma childName_join (dir n : string) :
  isEntryName n = true -> childName dir (join dir n) = Some n.
Proof.
  intros Hn. unfold childName.
  rewrite (chars_join dir n (isEntryName_nonempty n Hn)), stripPrefix_app.
  unfold isEntryName in Hn. apply andb_true_iff in Hn as [Hne Hs].
  destruct (chars n) as [|c rest] eqn:Hc.
  - apply negb_true_iff, String.eqb_neq in Hne. exfalso. apply Hne.
    apply chars_inj. now rewrite Hc.
  - apply negb_true_iff in Hs. rewrite Hs. now rewrite <- Hc, ofChars_chars.
Qed.

Lemma childName_Some (dir p n : string) :
  childName dir p = Some n -> p = join dir n /\ isEntryName n = true.
Proof.
  unfold childName. intros H.
  destruct (stripPrefix (chars dir ++ [slash]) (chars p)) as [cs|] eqn:Hp;
    [|discriminate].
  assert (Hcs : cs <> []) by (intros ->; discriminate).
  assert (H' : hasSlash cs = false /\ n = ofChars cs).
  { destruct cs as [|c rest]; [discriminate|].
    destruct (hasSlash (c :: rest)); [discriminate|]. now injection H as <-. }
  destruct H' as [Hs ->]. clear H.
  assert (Hne : ofChars cs <> "").
  { intros E. apply (f_equal chars) in E. rewrite chars_ofChars in E. now apply Hcs. }
  split.
  - apply chars_inj. rewrite (chars_join _ _ Hne), chars_ofChars.
    now apply stripPrefix_Some.
  - unfold isEntryName. rewrite chars_ofChars, Hs.
    apply String.eqb_neq in Hne. now rewrite Hne.
Qed.

Lemma join_inj (dir a b : string) : join dir a = join dir b -> a = b.
Proof.
  intros H. apply (f_equal chars) in H. unfold join in H.
  destruct (String.eqb_spec a ""), (String.eqb_spec b ""); subst; auto.
  - rewrite !chars_app in H. apply (f_equal (@length _)) in H.
    rewrite !length_app in H. simpl in H. lia.
  - rewrite !chars_app in H. apply (f_equal (@length _)) in H.
    rewrite !length_app in H. simpl in H. lia.
  - rewrite !chars_app in H. apply app_inv_head in H. simpl in H.
    inversion H. now apply chars_inj.
Qed.

(** a path two levels below [dir] is not the path of an entry of [dir] *)
Lemma join_deeper (dir sub rest n : string) :
  sub <> "" -> rest <> "" -> isEntryName n = true ->
  join (join dir sub) rest <> join dir n.
Proof.
  intros Hsub Hr Hn E. apply (f_equal chars) in E.
  rewrite (chars_join _ rest Hr), (chars_join dir sub Hsub),
    (chars_join dir n (isEntryName_nonempty n Hn)) in E.
  unfold isEntryName in Hn. apply andb_true_iff in Hn as [_ Hs].
  apply negb_true_iff in Hs.
  assert (Hin : hasSlash (chars n) = true); [|congruence].
  rewrite <- !app_assoc in E. do 2 apply app_inv_head in E.
  rewrite <- E. unfold hasSlash. rewrite existsb_app. simpl.
  apply orb_true_r.
Qed.

Lemma elem_of_listing (dir n : string) (f : gmap string node) :
  n ∈ listing dir f <-> isEntryName n = true /\ is_Some (f !! join dir n).
Proof.
  unfold listing. rewrite (NavSpec.arraySort_perm byteCompare).
  rewrite list_elem_of_omap. split.
  - intros ([k v] & Hkv & Hc). simpl in Hc.
    apply childName_Some in Hc as [-> Hn]. split; [exact Hn|].
    apply elem_of_map_to_list in Hkv. eauto.
  - intros (Hn & [v Hv]). exists (join dir n, v). split.
    + now apply elem_of_map_to_list.
    + simpl. now apply childName_join.
Qed.

Lemma NoDup_listing (dir : string) (f : gmap string node) : NoDup (listing dir f).
Proof.
  unfold listing. rewrite (NavSpec.arraySort_perm byteCompare).
  assert (Hk : NoDup (map fst (map_to_list f))) by apply NoDup_fst_map_to_list.
  induction (map_to_list f) as [|[k v] l IH]; simpl; [constructor|].
  simpl in Hk. apply NoDup_cons in Hk as [Hk Hl].
  destruct (childName dir k) as [n|] eqn:Hc; [|auto].
  apply NoDup_cons. split; [|auto].
  intros Hin. apply list_elem_of_omap in Hin as ([k' v'] & Hin & Hc').
  simpl in Hc'. apply childName_Some in Hc as [-> _].
  apply childName_Some in Hc' as [-> _]. apply Hk.
  apply list_elem_of_fmap. exists (join dir n, v'). auto.
Qed.

(** a listing is in the order of the bytes of the names *)
Lemma listing_sorted (dir : string) (f : gmap string node) :
  StronglySorted (fun a b => byteCompare a b <= 0) (listing dir f).
Proof.
  unfold listing. apply (NavSpec.arraySort_sorted byteCompare).
  - apply NavSpec.byteCompare_total.
  - apply NavSpec.byteCompare_trans.
Qed.

End PathFacts.

(** ** Orphan Collector *)

Module OrphanSpec.
Import Str Path Sys Build PathFacts.

Ltac unfold_monad :=
  unfold mbind, M_bind, mret, M_ret, bind, ret, gets, modify, consoleLog, throw in *.

Section Collector.
Variable cwd : string.

Abbreviation imageDir := (Build.imageDir cwd).
Abbreviation sweepFile := (Build.sweepFile cwd).
Abbreviation sweep := (Build.sweep cwd).
Abbreviation isOrphan := (Build.isOrphan cwd).
Abbreviation cleanupOrphanedImages := (Build.cleanupOrphanedImages cwd).

Lemma sweepFile_run (file : string) (w : world) :
  sweepFile file w
  = if isOrphan w file
    then unlinkSync (join imageDir file)
           (addLine (Log ("- Deleting orphaned image: "
                          +:+ relative cwd (join imageDir file))) w)
    else (Ok tt, w).
Proof.
  unfold Build.sweepFile, Build.isOrphan.
  destruct (hasImageExtension file); simpl; [|reflexivity].
  unfold_monad. now destruct (isUsed w (join imageDir file)).
Qed.

Lemma isOrphan_used (w w' : world) (file : string) :
  allUsedImages w' = allUsedImages w -> isOrphan w' file = isOrphan w file.
Proof. unfold Build.isOrphan, isUsed. now intros ->. Qed.

(** what one turn of the loop leaves behind *)
Lemma sweepFile_effect (file : string) (w : world) :
  isOrphan w file = true ->
  match files w !! join imageDir file with
  | Some (File _) =>
      exists w', sweepFile file w = (Ok tt, w')
                 /\ allUsedImages w' = allUsedImages w
                 /\ files w' = delete (join imageDir file) (files w)
  | _ =>
      exists e w', sweepFile file w = (Throw e, w')
                   /\ allUsedImages w' = allUsedImages w
                   /\ files w' = files w
  end.
Proof.
  intros Ho. rewrite sweepFile_run, Ho. unfold unlinkSync. simpl.
  destruct (files w !! join imageDir file) as [[d|]|]; eauto.
Qed.

Lemma sweep_cons (file : string) (rest : list string) (w : world) :
  sweep (file :: rest) w
  = match sweepFile file w with
    | (Ok _, w') => sweep rest w'
    | (Throw e, w') => (Throw e, w')
    end.
Proof. reflexivity. Qed.

(** the sweep changes nothing but the paths of orphans, which it removes *)
Lemma sweep_changes (l : list string) (w : world) (r : result unit) (w' : world) :
  sweep l w = (r, w') ->
  allUsedImages w' = allUsedImages w
  /\ forall p, files w' !! p = files w !! p
               \/ (files w' !! p = None
                   /\ exists f, f ∈ l /\ isOrphan w f = true /\ p = join imageDir f).
Proof.
  revert w. induction l as [|file rest IH]; intros w H.
  - inversion H; subst. auto.
  - rewrite sweep_cons in H.
    destruct (isOrphan w file) eqn:Ho.
    + pose proof (sweepFile_effect file w Ho) as He.
      destruct (files w !! join imageDir file) as [[d|]|] eqn:Hf.
      * destruct He as (w1 & E & Hu & Hd). rewrite E in H.
        apply IH in H as [Hu' Hp]. split; [congruence|].
        intros p. destruct (Hp p) as [Hsame|(Hnone & f & Hin & Hof & ->)].
        -- rewrite Hsame, Hd.
           destruct (decide (p = join imageDir file)) as [->|Hne].
           ++ right. rewrite lookup_delete_eq. split; [reflexivity|].
              exists file. split; [left|auto].
           ++ left. now rewrite lookup_delete_ne.
        -- right. split; [exact Hnone|]. exists f. split; [now right|].
           split; [|reflexivity]. now rewrite <- (isOrphan_used w w1 f Hu).
      * destruct He as (e & w1 & E & Hu & Hd). rewrite E in H.
        inversion H; subst. split; [exact Hu|]. intros p. left. now rewrite Hd.
      * destruct He as (e & w1 & E & Hu & Hd). rewrite E in H.
        inversion H; subst. split; [exact Hu|]. intros p. left. now rewrite Hd.
    + rewrite sweepFile_run, Ho in H. apply IH in H as [Hu Hp].
      split; [exact Hu|]. intros p.
      destruct (Hp p) as [Hsame|(Hnone & f & Hin & Hof & ->)]; [now left|].
      right. split; [exact Hnone|]. exists f. split; [now right|auto].
Qed.

(** a sweep that returns has removed every orphan of the listing *)
Lemma sweep_removes (l : list string) (w w' : world) :
  sweep l w = (Ok tt, w') ->
  forall f, f ∈ l -> isOrphan w f = true -> files w' !! join imageDir f = None.
Proof.
  revert w. induction l as [|file rest IH]; intros w H f Hin Hof.
  - inversion Hin.
  - rewrite sweep_cons in H.
    destruct (isOrphan w file) eqn:Ho.
    + pose proof (sweepFile_effect file w Ho) as He.
      destruct (files w !! join imageDir file) as [[d|]|] eqn:Hf.
      * destruct He as (w1 & E & Hu & Hd). rewrite E in H.
        apply elem_of_cons in Hin as [->|Hin].
        -- destruct (proj2 (sweep_changes _ _ _ _ H) (join imageDir file))
             as [Hsame|[Hnone _]]; [|exact Hnone].
           now rewrite Hsame, Hd, lookup_delete_eq.
        -- apply (IH w1 H f Hin). now rewrite (isOrphan_used w w1 f Hu).
      * destruct He as (e & w1 & E & _). rewrite E in H. discriminate.
      * destruct He as (e & w1 & E & _). rewrite E in H. discriminate.
    + rewrite sweepFile_run, Ho in H.
      apply elem_of_cons in Hin as [->|Hin]; [congruence|].
      now apply (IH w H f Hin).
Qed.

(** the sweep returns when every orphan of the listing is a file *)
Lemma sweep_returns (l : list string) (w : world) :
  NoDup l ->
  (forall f, f ∈ l -> isOrphan w f = true ->
             isFileAt (files w) (join imageDir f) = true) ->
  exists w', sweep l w = (Ok tt, w').
Proof.
  revert w. induction l as [|file rest IH]; intros w Hnd Hfiles.
  - now exists w.
  - apply NoDup_cons in Hnd as [Hnot Hnd]. rewrite sweep_cons.
    destruct (isOrphan w file) eqn:Ho.
    + pose proof (sweepFile_effect file w Ho) as He.
      pose proof (Hfiles file (list_elem_of_here _ _) Ho) as Hfile.
      unfold isFileAt in Hfile.
      destruct (files w !! join imageDir file) as [[d|]|] eqn:Hf; try discriminate.
      destruct He as (w1 & E & Hu & Hd). rewrite E. apply IH; [exact Hnd|].
      intros f Hin Hof. rewrite (isOrphan_used w w1 f Hu) in Hof.
      unfold isFileAt. rewrite Hd, lookup_delete_ne.
      * apply (Hfiles f); [now right|exact Hof].
      * intros E'. apply join_inj in E'. subst. contradiction.
    + rewrite sweepFile_run, Ho. apply IH; [exact Hnd|].
      intros f Hin Hof. apply Hfiles; [now right|exact Hof].
Qed.

(** the sweep stops at the first orphan it cannot unlink: the orphans
    listed before it are gone, the exception leaves the loop, and the
    paths of the entries listed later are as they were *)
Lemma sweep_stops (before after : list string) (file : string) (w : world) :
  NoDup (before ++ file :: after) ->
  (forall f, f ∈ before -> isOrphan w f = true ->
             isFileAt (files w) (join imageDir f) = true) ->
  isOrphan w file = true ->
  isFileAt (files w) (join imageDir file) = false ->
  exists e w',
    sweep (before ++ file :: after) w = (Throw e, w')
    /\ (forall f, f ∈ before -> isOrphan w f = true ->
                  files w' !! join imageDir f = None)
    /\ (forall f, f ∈ file :: after ->
                  files w' !! join imageDir f = files w !! join imageDir f).
Proof.
  revert w. induction before as [|g before IH]; intros w Hnd Hfiles Ho Hfile.
  - rewrite app_nil_l, sweep_cons.
    pose proof (sweepFile_effect file w Ho) as He. unfold isFileAt in Hfile.
    destruct (files w !! join imageDir file) as [[d|]|] eqn:Hf; try discriminate;
      destruct He as (e & w1 & E & Hu & Hd); rewrite E; exists e, w1;
      (split; [reflexivity|]);
      (split; [intros f Hin; inversion Hin|intros f _; now rewrite Hd]).
  - rewrite <- app_comm_cons in Hnd |- *. apply NoDup_cons in Hnd as [Hnot Hnd].
    rewrite sweep_cons.
    destruct (isOrphan w g) eqn:Hg.
    + pose proof (sweepFile_effect g w Hg) as He.
      pose proof (Hfiles g (list_elem_of_here _ _) Hg) as Hgf. unfold isFileAt in Hgf.
      destruct (files w !! join imageDir g) as [[d|]|] eqn:Hf; try discriminate.
      destruct He as (w1 & E & Hu & Hd). rewrite E.
      assert (Hne : forall f, f ∈ before ++ file :: after ->
                              join imageDir f <> join imageDir g).
      { intros f Hin E'. apply join_inj in E'. subst. contradiction. }
      destruct (IH w1) as (e & w' & Hs & Hgone & Hkeep); auto.
      * intros f Hin Hof. rewrite (isOrphan_used w w1 f Hu) in Hof.
        unfold isFileAt. rewrite Hd, lookup_delete_ne.
        -- apply (Hfiles f); [now right|exact Hof].
        -- intros E'. symmetry in E'. revert E'. apply Hne.
           apply elem_of_app. now left.
      * now rewrite (isOrphan_used w w1 file Hu).
      * unfold isFileAt. rewrite Hd, lookup_delete_ne; [exact Hfile|].
        intros E'. symmetry in E'. revert E'. apply Hne.
        apply elem_of_app. right. now left.
      * exists e, w'. split; [exact Hs|]. split.
        -- intros f Hin Hof. apply elem_of_cons in Hin as [->|Hin].
           ++ destruct (proj2 (sweep_changes _ _ _ _ Hs) (join imageDir g))
                as [Hsame|[Hnone _]]; [|exact Hnone].
              rewrite Hsame, Hd. apply lookup_delete_eq.
           ++ apply Hgone; [exact Hin|]. now rewrite (isOrphan_used w w1 f Hu).
        -- intros f Hin.
           rewrite (Hkeep f Hin), Hd, lookup_delete_ne; [reflexivity|].
           intros E'. symmetry in E'. revert E'. apply Hne.
           apply elem_of_app. now right.
    + rewrite sweepFile_run, Hg.
      destruct (IH w) as (e & w' & Hs & Hgone & Hkeep); auto.
      * intros f Hin Hof. apply Hfiles; [now right|exact Hof].
      * exists e, w'. split; [exact Hs|]. split; [|exact Hkeep].
        intros f Hin Hof. apply elem_of_cons in Hin as [->|Hin]; [congruence|].
        now apply Hgone.
Qed.

Lemma sweep_console (l : list string) (w : world) (r : result unit) (w' : world) :
  sweep l w = (r, w') ->
  exists lines, console w' = console w ++ lines /\ forallb isLog lines = true.
Proof.
  revert w. induction l as [|file rest IH]; intros w H.
  - inversion H; subst. exists []. now rewrite app_nil_r.
  - rewrite sweep_cons, sweepFile_run in H.
    destruct (isOrphan w file).
    + unfold unlinkSync in H. simpl in H.
      destruct (files w !! join imageDir file) as [[d|]|].
      * apply IH in H as (lines & Hc & Hl). simpl in Hc.
        eexists (_ :: lines). rewrite Hc, <- app_assoc. split; [reflexivity|].
        simpl. exact Hl.
      * inversion H; subst. simpl. eexists [_]. split; reflexivity.
      * inversion H; subst. simpl. eexists [_]. split; reflexivity.
    + now apply IH.
Qed.

Lemma cleanup_run (w : world) :
  cleanupOrphanedImages w
  = let w0 := addLine (Log "Cleaning up orphaned images...") w in
    match files w !! imageDir with
    | None => (Ok tt, w0)
    | Some (File _) =>
        (Throw (Error ("ENOTDIR: not a directory, scandir " +:+ quoted imageDir)),
         w0)
    | Some Dir =>
        match sweep (listing imageDir (files w)) w0 with
        | (Ok _, w1) => (Ok tt, addLine (Log "Cleanup complete.") w1)
        | (Throw e, w1) => (Throw e, w1)
        end
    end.
Proof.
  unfold Build.cleanupOrphanedImages, existsSync, readdirSync. unfold_monad. simpl.
  destruct (files w !! imageDir) as [[d|]|] eqn:Hd; simpl; rewrite ?Hd; try reflexivity.
Qed.

(** what the collector may change: only the paths of orphans of the
    listing, which it removes *)
Lemma cleanup_changes (w : world) (r : result unit) (w' : world) :
  cleanupOrphanedImages w = (r, w') ->
  allUsedImages w' = allUsedImages w
  /\ forall p, files w' !! p = files w !! p
               \/ (files w' !! p = None
                   /\ exists f, f ∈ listing imageDir (files w)
                                /\ isOrphan w f = true /\ p = join imageDir f).
Proof.
  rewrite cleanup_run. simpl.
  destruct (files w !! imageDir) as [[d|]|] eqn:Hd.
  - intros H; inversion H; subst. simpl. auto.
  - destruct (sweep _ _) as [r1 w1] eqn:Hs.
    apply sweep_changes in Hs as [Hu Hp]. simpl in Hu, Hp.
    intros H. assert (files w' = files w1 /\ allUsedImages w' = allUsedImages w1)
      as [Hf Hu'].
    { destruct r1 as [[]|e]; inversion H; subst; auto. }
    rewrite Hf, Hu'. split; [exact Hu|]. exact Hp.
  - intros H; inversion H; subst. simpl. auto.
Qed.


(** C10. The collector lists the output directory only: a path that lies
    in a subdirectory of it is as it was, whether the collector returns
    or throws, and whether or not the path is in the touched set. *)
Theorem subdirectories_untouched (w : world) (sub rest : string) :
  sub <> "" -> rest <> "" ->
  files (snd (cleanupOrphanedImages w)) !! join (join imageDir sub) rest
  = files w !! join (join imageDir sub) rest.
Proof.
  intros Hsub Hrest.
  destruct (cleanupOrphanedImages w) as [r w'] eqn:H. simpl.
  apply cleanup_changes in H as [_ Hp].
  destruct (Hp (join (join imageDir sub) rest)) as [Hsame|(_ & f & Hin & _ & E)];
    [exact Hsame|].
  apply elem_of_listing in Hin as [Hname _].
  exfalso. revert E. now apply join_deeper.
Qed.

Variable urlPathname : string -> option string.
Variable network : nat -> string -> option Response.
Variable imagemin : list Byte.byte -> option (list Byte.byte).
Variable markedParse :
  (option string -> option string -> string -> string) -> string -> string.
Variable sanitizeHtml : string -> SanitizeOptions -> string.
Variable defaultAllowedTags : list string.
Variable defaultAllowedAttributes : list (string * list string).
Variable createHtmlTemplate : string -> string -> string -> bool -> string.
Variable localeCompare : string -> string -> Z.

Abbreviation buildPages :=
  (Build.buildPages cwd urlPathname network imagemin markedParse sanitizeHtml
     defaultAllowedTags defaultAllowedAttributes createHtmlTemplate localeCompare).
Abbreviation compile :=
  (Build.compile cwd urlPathname network imagemin markedParse sanitizeHtml
     defaultAllowedTags defaultAllowedAttributes createHtmlTemplate localeCompare).

Lemma compile_run (withLiveReload : bool) (w0 : world) :
  compile withLiveReload w0
  = match buildPages withLiveReload w0 with
    | (Ok _, w) =>
        match cleanupOrphanedImages w with
        | (Ok _, w') => (Ok tt, addLine (Log "Build complete!") w')
        | (Throw e, w') => (Throw e, w')
        end
    | (Throw e, w) => (Throw e, w)
    end.
Proof.
  unfold Build.compile. unfold_monad.
  destruct (Build.buildPages _ _ _ _ _ _ _ _ _ _ _ _) as [[[]|e] w]; [|reflexivity].
  destruct (Build.cleanupOrphanedImages _ _) as [[[]|e] w']; reflexivity.
Qed.

(** C5, as the program has it. The collector goes through the entries
    of the output directory in the order [readdirSync] lists them, the
    order of the bytes of their names. An entry with an image extension
    and a path outside the touched set that cannot be unlinked ends the
    sweep: the orphans listed before it are gone; the exception leaves
    the collector, which writes no error line; the entries listed after
    it are not examined, so their paths are as they were; and the build
    pass that runs the collector ends with the same exception instead of
    completing. *)
Theorem failed_unlink_aborts (w : world) (before after : list string) (file : string) :
  files w !! imageDir = Some Dir ->
  listing imageDir (files w) = before ++ file :: after ->
  (forall f, f ∈ before -> isOrphan w f = true ->
             isFileAt (files w) (join imageDir f) = true) ->
  isOrphan w file = true ->
  isFileAt (files w) (join imageDir file) = false ->
  exists e w',
    cleanupOrphanedImages w = (Throw e, w')
    /\ StronglySorted (fun a b => byteCompare a b <= 0) (before ++ file :: after)
    /\ (forall f, f ∈ before -> isOrphan w f = true ->
                  files w' !! join imageDir f = None)
    /\ (forall f, f ∈ file :: after ->
                  files w' !! join imageDir f = files w !! join imageDir f)
    /\ (exists lines, console w' = console w ++ lines
                      /\ forallb isLog lines = true)
    /\ (forall withLiveReload w0,
          buildPages withLiveReload w0 = (Ok tt, w) ->
          compile withLiveReload w0 = (Throw e, w')).
Proof.
  intros Hdir Hl Hbefore Ho Hfile.
  destruct (sweep_stops before after file
              (addLine (Log "Cleaning up orphaned images...") w))
    as (e & w' & Hs & Hgone & Hkeep); auto.
  { rewrite <- Hl. apply NoDup_listing. }
  assert (Hc : cleanupOrphanedImages w = (Throw e, w')).
  { rewrite cleanup_run, Hdir. simpl. rewrite Hl, Hs. reflexivity. }
  exists e, w'. split; [exact Hc|].
  split; [rewrite <- Hl; apply listing_sorted|].
  split; [exact Hgone|]. split; [exact Hkeep|]. split.
  - apply sweep_console in Hs as (lines & Hlines & Hlog). simpl in Hlines.
    exists (Log "Cleaning up orphaned images..." :: lines).
    rewrite Hlines, <- app_assoc. split; [reflexivity|exact Hlog].
  - intros withLiveReload w0 Hb. now rewrite compile_run, Hb, Hc.
Qed.

End Collector.


(** the image in [assets] of [Sample.afterPass] *)
Lemma subdirectories_untouched_witness :
  "assets" <> "" /\ "logo.png" <> ""
  /\ files (snd (Sample.cleanupOrphanedImages Sample.afterPass))
       !! join (join (Build.imageDir Sample.cwd) "assets") "logo.png"
     = files Sample.afterPass
         !! join (join (Build.imageDir Sample.cwd) "assets") "logo.png".
Proof.
  split; [discriminate|]. split; [discriminate|].
  apply (subdirectories_untouched Sample.cwd Sample.afterPass "assets" "logo.png");
    discriminate.
Defined.

Example subdirectories_untouched_sample :
  files (snd (Sample.cleanupOrphanedImages Sample.afterPass))
    !! "/site/public/assets/logo.png"
  = Some (File [Byte.x04]).
Proof. vm_compute. reflexivity. Qed.

(** C5 at [Sample.withImageNamedDirectory]: the pass creates the output
    directory [a.png] for the source directory of that name; the
    collector fails to unlink it, writes no error line, and leaves the
    orphan [b.png], listed after it, in place; the pass ends with the
    exception and without its last line. *)
Lemma failed_unlink_counterexample :
  listing "/site/public" (files Sample.beforeSweep) = ["a.png"; "b.png"]
  /\ fst (Sample.compile true Sample.withImageNamedDirectory)
     = Throw (Error "EISDIR: illegal operation on a directory, unlink '/site/public/a.png'")
  /\ files (snd (Sample.compile true Sample.withImageNamedDirectory))
       !! "/site/public/b.png" = Some (File [Byte.x02])
  /\ console (snd (Sample.compile true Sample.withImageNamedDirectory))
     = [Log "Building static pages..."; Log "- Generated: public/index.html";
        Log "Cleaning up orphaned images...";
        Log "- Deleting orphaned image: public/a.png"].
Proof. split_and!; vm_compute; reflexivity. Qed.

(** the collector on [SampleMore.midSweep]: the orphan [a.png] goes, the
    directory [m.png] stops the sweep, the orphan [z.png] stays *)
Lemma failed_unlink_aborts_witness :
  listing "/site/public" (files SampleMore.midSweep) = ["a.png"; "m.png"; "z.png"]
  /\ exists e w',
    Sample.cleanupOrphanedImages SampleMore.midSweep = (Throw e, w')
    /\ StronglySorted (fun a b => byteCompare a b <= 0) (["a.png"] ++ "m.png" :: ["z.png"])
    /\ (forall f, f ∈ ["a.png"] -> Build.isOrphan Sample.cwd SampleMore.midSweep f = true ->
          files w' !! join (Build.imageDir Sample.cwd) f = None)
    /\ (forall f, f ∈ ["m.png"; "z.png"] ->
          files w' !! join (Build.imageDir Sample.cwd) f
          = files SampleMore.midSweep !! join (Build.imageDir Sample.cwd) f)
    /\ (exists lines, console w' = console SampleMore.midSweep ++ lines
                      /\ forallb isLog lines = true)
    /\ (forall withLiveReload w0,
          Build.buildPages Sample.cwd Sample.pathnameOf Sample.network
            Sample.imagemin Sample.markedParse Sample.sanitizeHtml [] []
            Sample.createHtmlTemplate Sample.localeCompare withLiveReload w0
          = (Ok tt, SampleMore.midSweep) ->
          Build.compile Sample.cwd Sample.pathnameOf Sample.network
            Sample.imagemin Sample.markedParse Sample.sanitizeHtml [] []
            Sample.createHtmlTemplate Sample.localeCompare withLiveReload w0
          = (Throw e, w')).
Proof.
  split; [vm_compute; reflexivity|].
  apply (failed_unlink_aborts Sample.cwd Sample.pathnameOf Sample.network
           Sample.imagemin Sample.markedParse Sample.sanitizeHtml [] []
           Sample.createHtmlTemplate Sample.localeCompare
           SampleMore.midSweep ["a.png"] ["z.png"] "m.png").
  - vm_compute. reflexivity.
  - vm_compute. reflexivity.
  - intros f Hin _. apply list_elem_of_singleton in Hin as ->. vm_compute. reflexivity.
  - vm_compute. reflexivity.
  - vm_compute. reflexivity.
Defined.

(** the sweep of [SampleMore.midSweep], run *)
Example failed_unlink_sample :
  fst (Sample.cleanupOrphanedImages SampleMore.midSweep)
  = Throw (Error "EISDIR: illegal operation on a directory, unlink '/site/public/m.png'")
  /\ files (snd (Sample.cleanupOrphanedImages SampleMore.midSweep))
       !! "/site/public/a.png" = None
  /\ files (snd (Sample.cleanupOrphanedImages SampleMore.midSweep))
       !! "/site/public/z.png" = Some (File [Byte.x03]).
Proof. split_and!; vm_compute; reflexivity. Qed.

End OrphanSpec.

(** ** Image Externalizer *)

Module ExternalizerSpec.
Import Str Path Sys Regex Build PathFacts.
Import OrphanSpec.

Section Externalizer.
Variable cwd : string.
Variable urlPathname : string -> option string.
Variable network : nat -> string -> option Response.
Variable imagemin : list Byte.byte -> option (list Byte.byte).

Abbreviation imageDir := (Build.imageDir cwd).
Abbreviation localPathOf := (Build.localPathOf cwd).
Abbreviation fetchFails := (Build.fetchFails network).
Abbreviation processMatch := (Build.processMatch cwd urlPathname network imagemin).
Abbreviation processMatches := (Build.processMatches cwd urlPathname network imagemin).
Abbreviation processMarkdownImages :=
  (Build.processMarkdownImages cwd urlPathname network imagemin).

Abbreviation errorLine := Build.errorLine.
Abbreviation rewritten := Build.rewritten.
Abbreviation registered := (Build.registered cwd).
Abbreviation requested := (Build.requested cwd).
Abbreviation extends := (Build.extends cwd urlPathname).

(** one turn of the loop, case by case *)
Lemma processMatch_run (withLiveReload : bool) (m : RegexMatch) (text : string)
    (w : world) :
  processMatch withLiveReload m text w
  = if String.eqb (remoteUrl m) "" then (Ok text, w)
    else
      match urlPathname (remoteUrl m) with
      | None =>
          (Ok text,
           addLine (errorLine m (Error ("TypeError: Invalid URL " +:+ remoteUrl m))) w)
      | Some pathname =>
          match files w !! localPathOf pathname with
          | Some _ =>
              (Ok (rewritten withLiveReload m pathname text), registered pathname w)
          | None =>
              let w1 := requested m pathname w in
              match network (length (requests w)) (remoteUrl m) with
              | None =>
                  (Ok text, addLine (errorLine m (Error "TypeError: fetch failed")) w1)
              | Some response =>
                  if negb (ok response)
                  then (Ok text,
                        addLine (errorLine m
                                   (Error ("Failed to fetch " +:+ remoteUrl m +:+ ": "
                                           +:+ statusText response))) w1)
                  else
                    match imagemin (body response) with
                    | None =>
                        (Ok text, addLine (errorLine m (Error "imagemin failed")) w1)
                    | Some data =>
                        if isDirectoryAt w (dirname (localPathOf pathname))
                        then
                          (Ok (rewritten withLiveReload m pathname text),
                           addLine (Log ("  -> Saved to: "
                                         +:+ relative cwd (localPathOf pathname)))
                             (addWrite (localPathOf pathname)
                                (setFiles (<[localPathOf pathname := File data]>
                                             (files w)) w1)))
                        else
                          (Ok text,
                           addLine (errorLine m
                                      (Error ("ENOENT: no such file or directory, open "
                                              +:+ quoted (localPathOf pathname)))) w1)
                    end
              end
          end
      end.
Proof.
  unfold Build.processMatch. destruct (String.eqb (remoteUrl m) ""); [reflexivity|].
  unfold tryCatch, Build.externalize, Build.newURL, Build.download, Build.fetch,
    Build.imageminBuffer, existsSync, writeFileSync, consoleError, Build.errorLine,
    Build.rewritten, Build.requested, Build.registered, Build.localPathOf.
  unfold_monad.
  destruct (urlPathname (remoteUrl m)) as [pathname|]; [|reflexivity]. simpl.
  destruct (files w !! join imageDir (basename pathname)) as [n|] eqn:Hf;
    [reflexivity|]. simpl.
  destruct (network (length (requests w)) (remoteUrl m)) as [response|];
    [|reflexivity]. simpl.
  destruct (ok response); simpl; [|reflexivity].
  destruct (imagemin (body response)) as [data|]; [|reflexivity]. simpl.
  rewrite Hf. unfold isDirectoryAt. simpl.
  destruct (String.eqb _ "" || _); reflexivity.
Qed.

Lemma extends_quiet (w w' : world) :
  writes w' = writes w -> requests w' = requests w -> files w' = files w ->
  extends w w' [] [].
Proof.
  intros Hw Hr Hf. unfold Build.extends. rewrite !app_nil_r, Hf.
  split_and!; auto using NoDup_nil_2; intros ? Hin; inversion Hin.
Qed.

Lemma extends_request (w w' : world) (url pathname : string) :
  urlPathname url = Some pathname -> files w !! localPathOf pathname = None ->
  writes w' = writes w -> requests w' = requests w ++ [url] -> files w' = files w ->
  extends w w' [] [url].
Proof.
  intros Hu Hn Hw Hr Hf. unfold Build.extends. rewrite !app_nil_r, Hf.
  split_and!; auto using NoDup_nil_2.
  - intros ? Hin; inversion Hin.
  - intros u Hin. apply list_elem_of_singleton in Hin as ->. eauto.
Qed.

Lemma extends_trans (w w1 w2 : world) (nw1 nw2 nr1 nr2 : list string) :
  extends w w1 nw1 nr1 -> extends w1 w2 nw2 nr2 ->
  extends w w2 (nw1 ++ nw2) (nr1 ++ nr2).
Proof.
  intros (Hw1 & Hr1 & Hd1 & Hn1 & Hk1 & Hq1) (Hw2 & Hr2 & Hd2 & Hn2 & Hk2 & Hq2).
  assert (Hnone : forall p, files w1 !! p = None -> files w !! p = None).
  { intros p Hp. destruct (files w !! p) as [n|] eqn:E; [|reflexivity].
    apply Hk1 in E. congruence. }
  unfold Build.extends. rewrite Hw2, Hw1, Hr2, Hr1, !app_assoc.
  split_and!; auto.
  - apply NoDup_app. split_and!; auto.
    intros p Hp1 Hp2. destruct (Hn1 p Hp1) as [_ [n Hs]].
    destruct (Hn2 p Hp2) as [Hnn _]. congruence.
  - intros p Hin. apply elem_of_app in Hin as [Hin|Hin].
    + destruct (Hn1 p Hin) as [Hp [n Hs]]. apply Hk2 in Hs. eauto.
    + destruct (Hn2 p Hin) as [Hp Hs]. split; [now apply Hnone|exact Hs].
  - intros url Hin. apply elem_of_app in Hin as [Hin|Hin]; [now apply Hq1|].
    destruct (Hq2 url Hin) as (pathname & Hu & Hp). eauto.
Qed.

(** what one turn of the loop does to the filesystem and to the
    records of requests and writes *)
Lemma processMatch_effect (withLiveReload : bool) (m : RegexMatch) (text : string)
    (w : world) :
  exists text' w' newWrites newRequests,
    processMatch withLiveReload m text w = (Ok text', w')
    /\ extends w w' newWrites newRequests.
Proof.
  rewrite processMatch_run.
  destruct (String.eqb (remoteUrl m) "");
    [eexists _, _, _, _; split; [reflexivity|apply extends_quiet; auto]|].
  destruct (urlPathname (remoteUrl m)) as [pathname|] eqn:Hurl;
    [|eexists _, _, _, _; split; [reflexivity|apply extends_quiet; auto]].
  destruct (files w !! localPathOf pathname) as [n|] eqn:Hf;
    [eexists _, _, _, _; split; [reflexivity|apply extends_quiet; auto]|].
  cbv zeta.
  destruct (network (length (requests w)) (remoteUrl m)) as [response|];
    [|eexists _, _, _, _; split;
      [reflexivity|apply extends_request with pathname; eauto]].
  destruct (ok response); simpl;
    [|eexists _, _, _, _; split;
      [reflexivity|apply extends_request with pathname; eauto]].
  destruct (imagemin (body response)) as [data|];
    [|eexists _, _, _, _; split;
      [reflexivity|apply extends_request with pathname; eauto]].
  destruct (isDirectoryAt w (dirname (localPathOf pathname)));
    [|eexists _, _, _, _; split;
      [reflexivity|apply extends_request with pathname; eauto]].
  eexists _, _, [localPathOf pathname], [remoteUrl m].
  split; [reflexivity|]. unfold Build.extends. simpl. split_and!; auto.
  - apply NoDup_singleton.
  - intros p Hin. apply list_elem_of_singleton in Hin as ->.
    rewrite lookup_insert_eq. eauto.
  - intros p n Hp. rewrite lookup_insert_ne; [exact Hp|]. congruence.
  - intros url Hin. apply list_elem_of_singleton in Hin as ->.
    exists pathname. auto.
Qed.

Lemma processMatches_effect (withLiveReload : bool) (matches : list RegexMatch)
    (text : string) (w : world) :
  exists text' w' newWrites newRequests,
    processMatches withLiveReload matches text w = (Ok text', w')
    /\ extends w w' newWrites newRequests.
Proof.
  revert text w. induction matches as [|m rest IH]; intros text w.
  - exists text, w, [], []. split; [reflexivity|apply extends_quiet; auto].
  - destruct (processMatch_effect withLiveReload m text w)
      as (t1 & w1 & nw1 & nr1 & E1 & X1).
    destruct (IH t1 w1) as (t2 & w2 & nw2 & nr2 & E2 & X2).
    exists t2, w2, (nw1 ++ nw2), (nr1 ++ nr2). split.
    + simpl. unfold_monad. now rewrite E1.
    + now apply extends_trans with w1.
Qed.

(** the turn of the loop for a reference whose local path has no file
    and whose fetch does not succeed: it writes the error line and leaves
    the text and the filesystem as they were *)
Lemma failed_fetch_turn (withLiveReload : bool) (m : RegexMatch)
    (rest : list RegexMatch) (text : string) (w : world) (pathname : string) :
  remoteUrl m <> "" ->
  urlPathname (remoteUrl m) = Some pathname ->
  files w !! localPathOf pathname = None ->
  fetchFails (length (requests w)) (remoteUrl m) = true ->
  exists e,
    let w' := addLine (errorLine m e) (requested m pathname w) in
    processMatch withLiveReload m text w = (Ok text, w')
    /\ files w' = files w
    /\ files w' !! localPathOf pathname = None
    /\ processMatches withLiveReload (m :: rest) text w
       = processMatches withLiveReload rest text w'
    /\ exists text'' w'',
         processMatches withLiveReload rest text w' = (Ok text'', w'').
Proof.
  intros Hne Hurl Hnone Hfail.
  assert (Hrun : exists e,
             processMatch withLiveReload m text w
             = (Ok text, addLine (errorLine m e) (requested m pathname w))).
  { rewrite processMatch_run. apply String.eqb_neq in Hne. rewrite Hne, Hurl, Hnone.
    unfold Build.fetchFails in Hfail. cbv zeta.
    destruct (network (length (requests w)) (remoteUrl m)) as [response|];
      [|eauto].
    rewrite Hfail. eauto. }
  destruct Hrun as [e Hrun]. exists e. cbv zeta.
  split; [exact Hrun|]. split; [reflexivity|]. split; [exact Hnone|]. split.
  - simpl. unfold_monad. now rewrite Hrun.
  - destruct (processMatches_effect withLiveReload rest text
                (addLine (errorLine m e) (requested m pathname w)))
      as (t & w2 & _ & _ & E & _). eauto.
Qed.


End Externalizer.

(** the document of the failed-fetch scenario, externalized once *)
Example failed_fetch_sample :
  imageUrlMatches Sample.badReference = [Sample.badMatch]
  /\ fst (Sample.processMarkdownImages Sample.badReference false Sample.emptySite)
     = Ok Sample.badReference
  /\ files (snd (Sample.processMarkdownImages Sample.badReference false
                   Sample.emptySite))
       !! "/site/public/img.png" = None
  /\ console (snd (Sample.processMarkdownImages Sample.badReference false
                     Sample.emptySite))
     = [Log "- Downloading image: https://bad.example/img.png";
        LogError "Error processing image https://bad.example/img.png:"
          (Error "Failed to fetch https://bad.example/img.png: Not Found")].
Proof. split_and!; vm_compute; reflexivity. Qed.


(** a cached image: the second externalization of a document whose
    image was fetched sends no request *)
Example cached_image_sample :
  let doc := "![y](https://good.example/img.png)" in
  let w1 := snd (Sample.processMarkdownImages doc true Sample.emptySite) in
  let r2 := Sample.processMarkdownImages doc true w1 in
  fst r2 = Ok "![y](http://localhost:3000/img.png)"
  /\ requests (snd r2) = ["https://good.example/img.png"]
  /\ writes (snd r2) = ["/site/public/img.png"].
Proof. split_and!; vm_compute; reflexivity. Qed.

End ExternalizerSpec.

(** ** Dev Loop *)

Module DevLoopSpec.
Import DevLoop.

Lemma run_app (st : state) (a b : list event) :
  run st (a ++ b) = run (run st a) b.
Proof. apply fold_left_app. Qed.

Lemma run_cons (st : state) (e : event) (l : list event) :
  run st (e :: l) = run (step st e) l.
Proof. reflexivity. Qed.

Lemma handleRebuild_slot (st : state) (slack : nat) :
  slot st slack ->
  timers (handleRebuild st) = [(nextTimer st, now st + 100)%nat]
  /\ timeout (handleRebuild st) = Some (nextTimer st)
  /\ now (handleRebuild st) = now st
  /\ starts (handleRebuild st) = starts st
  /\ running (handleRebuild st) = running st.
Proof.
  unfold handleRebuild, debounced.
  intros [Hnil|(id & due & Ht & Hto & _)].
  - unfold clearTimeout. destruct (timeout st); simpl; rewrite Hnil; auto.
  - rewrite Hto. simpl. rewrite Ht. simpl. rewrite Nat.eqb_refl. simpl. auto.
Qed.

Lemma tick_idle (st : state) :
  timers st = [] ->
  timers (tick st) = [] /\ starts (tick st) = starts st
  /\ now (tick st) = S (now st) /\ timeout (tick st) = timeout st
  /\ running (tick st) = running st.
Proof. unfold tick. intros ->. simpl. auto. Qed.

Lemma tick_waiting (st : state) (id due : nat) :
  timers st = [(id, due)] -> (S (now st) < due)%nat ->
  timers (tick st) = [(id, due)] /\ starts (tick st) = starts st
  /\ now (tick st) = S (now st) /\ timeout (tick st) = timeout st
  /\ running (tick st) = running st.
Proof.
  unfold tick, isDue. intros -> Hlt. simpl.
  destruct (Nat.leb_spec due (S (now st))); [lia|]. simpl. auto.
Qed.

Lemma tick_fires (st : state) (id due : nat) :
  timers st = [(id, due)] -> (due <= S (now st))%nat ->
  timers (tick st) = [] /\ starts (tick st) = starts st ++ [S (now st)]
  /\ now (tick st) = S (now st) /\ timeout (tick st) = timeout st
  /\ running (tick st) = running st ++ [S (now st)].
Proof.
  unfold tick, isDue. intros -> Hle. simpl.
  destruct (Nat.leb_spec due (S (now st))); [|lia]. simpl. auto.
Qed.

Lemma ticks_cons_tick (l : list event) : ticks (Tick :: l) = S (ticks l).
Proof. reflexivity. Qed.

(** while the window of the last notification is open no rebuild starts *)
Lemma burst_waits (events : list event) (st : state) :
  (ticks events < 100)%nat -> slot st (ticks events) ->
  starts (run st events) = starts st
  /\ slot (run st events) 0
  /\ (timers st <> [] \/ existsb isNamedWatch events = true ->
      timers (run st events) <> []).
Proof.
  revert st. induction events as [|e events IH]; intros st Hlt Hslot.
  - simpl. split; [reflexivity|]. split; [exact Hslot|]. intros [H|H]; [exact H|discriminate].
  - rewrite run_cons.
    assert (Hother : forall st1,
               timers st1 = timers st -> timeout st1 = timeout st ->
               now st1 = now st -> starts st1 = starts st ->
               ticks events = ticks (e :: events) ->
               isNamedWatch e = false ->
               starts (run st1 events) = starts st
               /\ slot (run st1 events) 0
               /\ (timers st <> [] \/ existsb isNamedWatch (e :: events) = true ->
                   timers (run st1 events) <> [])).
    { intros st1 Ht Hto Hn Hs Hk Hw.
      destruct (IH st1) as (Hs' & Hslot' & Hne).
      - lia.
      - unfold slot in *. rewrite Ht, Hto, Hn, Hk. exact Hslot.
      - split; [congruence|]. split; [exact Hslot'|].
        simpl. rewrite Hw, Ht in *. exact Hne. }
    destruct e as [filename| |i ok|id|id|id].
    + change (ticks (Watch filename :: events)) with (ticks events) in Hlt, Hslot.
      destruct (isNamedWatch (Watch filename)) eqn:Hw.
      * assert (Hstep : step st (Watch filename) = handleRebuild st).
        { destruct filename as [f|]; [|discriminate]. simpl in Hw.
          unfold step, onWatch. destruct (String.eqb f ""); [discriminate|reflexivity]. }
        rewrite Hstep.
        destruct (handleRebuild_slot st _ Hslot) as (Ht & Hto & Hn & Hs & _).
        destruct (IH (handleRebuild st)) as (Hs' & Hslot' & Hne).
        -- exact Hlt.
        -- right. exists (nextTimer st), (now st + 100)%nat.
           rewrite Hn. split_and!; auto; lia.
        -- split; [congruence|]. split; [exact Hslot'|].
           intros _. apply Hne. left. rewrite Ht. discriminate.
      * assert (Hstep : step st (Watch filename) = st).
        { destruct filename as [f|]; [|reflexivity]. simpl in Hw.
          unfold step, onWatch. destruct (String.eqb f ""); [reflexivity|discriminate]. }
        rewrite Hstep. now apply Hother.
    + rewrite ticks_cons_tick in Hlt, Hslot. simpl step.
      destruct Hslot as [Hnil|(id & due & Ht & Hto & Hd1 & Hd2)].
      * destruct (tick_idle st Hnil) as (Ht' & Hs' & Hn' & Hto' & _).
        destruct (IH (tick st)) as (Hs'' & Hslot' & Hne); [lia|now left|].
        split; [congruence|]. split; [exact Hslot'|].
        intros [H|H]; [contradiction|]. apply Hne. right. exact H.
      * destruct (tick_waiting st id due Ht) as (Ht' & Hs' & Hn' & Hto' & _); [lia|].
        destruct (IH (tick st)) as (Hs'' & Hslot' & Hne); [lia| |].
        -- right. exists id, due. rewrite Hn', Hto'. split_and!; auto; lia.
        -- split; [congruence|]. split; [exact Hslot'|].
           intros _. apply Hne. left. rewrite Ht'. discriminate.
    + apply Hother; auto; simpl; destruct (running st !! i); try reflexivity;
        destruct ok; reflexivity.
    + now apply Hother.
    + now apply Hother.
    + now apply Hother.
Qed.

(** with no timer pending, time passes and no rebuild starts *)
Lemma idle_ticks (n : nat) (st : state) :
  timers st = [] ->
  timers (run st (repeat Tick n)) = []
  /\ starts (run st (repeat Tick n)) = starts st.
Proof.
  revert st. induction n as [|n IH]; intros st Hnil; [auto|].
  simpl repeat. rewrite run_cons. simpl step.
  destruct (tick_idle st Hnil) as (Ht & Hs & _).
  destruct (IH (tick st) Ht) as [Ht' Hs']. split; congruence.
Qed.

(** the pending timer fires once, when it is due *)
Lemma window_closes (n : nat) (st : state) (id due : nat) :
  timers st = [(id, due)] -> (now st < due)%nat -> (due <= now st + n)%nat ->
  timers (run st (repeat Tick n)) = []
  /\ starts (run st (repeat Tick n)) = starts st ++ [due].
Proof.
  revert st. induction n as [|n IH]; intros st Ht Hlt Hle; [lia|].
  simpl repeat. rewrite run_cons. simpl step.
  destruct (Nat.le_gt_cases due (S (now st))) as [Hdue|Hdue].
  - destruct (tick_fires st id due Ht Hdue) as (Ht' & Hs' & _).
    destruct (idle_ticks n (tick st) Ht') as [Ht'' Hs''].
    split; [exact Ht''|]. rewrite Hs'', Hs'. do 2 f_equal. lia.
  - destruct (tick_waiting st id due Ht Hdue) as (Ht' & Hs' & Hn' & _).
    destruct (IH (tick st) Ht') as [Ht'' Hs'']; [lia|lia|].
    split; [exact Ht''|]. congruence.
Qed.

(** C2, as the program has it. From a state with no rebuild queued, a
    burst of events that holds at least one notification with a file name
    and spans less than the 100 ms window is followed, once the window
    has closed, by exactly one rebuild. When the [compile(true)] of a
    rebuild settles, every client of the list gets the reload message if
    the pass succeeded and its response has not ended, and no client
    gets anything if the pass failed. *)
Theorem burst_one_rebuild (st : state) (burst : list event) (k : nat) :
  timers st = [] ->
  (ticks burst < 100)%nat ->
  existsb isNamedWatch burst = true ->
  let st' := run st (burst ++ repeat Tick (100 + k)) in
  (exists start, starts st' = starts st ++ [start])
  /\ timers st' = []
  /\ (forall s i success,
        is_Some (running s !! i) ->
        liveReloadClients (step s (Settle i success))
        = map (fun res =>
                 mkClient (clientId res) (writableEnded res)
                   (received res
                    ++ (if success && negb (writableEnded res)
                        then [reloadMessage] else [])))
              (liveReloadClients s)).
Proof.
  intros Hnil Hlt Hnamed. cbv zeta. rewrite run_app.
  destruct (burst_waits burst st Hlt (or_introl Hnil)) as (Hs & Hslot & Hne).
  specialize (Hne (or_intror Hnamed)).
  destruct Hslot as [Hempty|(id & due & Ht & _ & Hd1 & Hd2)]; [contradiction|].
  destruct (window_closes (100 + k) (run st burst) id due Ht) as [Ht' Hs'];
    [lia|lia|].
  split; [exists due; congruence|]. split; [exact Ht'|].
  intros s i success [t Hi]. simpl. rewrite Hi.
  unfold finishRebuild, triggerReload. destruct success; simpl.
  - apply map_ext. intros [id' ended msgs]. unfold notify. simpl.
    destruct ended; simpl; [now rewrite app_nil_r|reflexivity].
  - rewrite <- (map_id (liveReloadClients s)) at 1.
    apply map_ext. intros [id' ended msgs]. simpl. now rewrite app_nil_r.
Qed.

Lemma serialised_initial : serialised initial.
Proof. split; [now left|]. split; constructor. Qed.

Lemma serialised_step (st : state) (e : event) :
  serialised st -> serialised (step st e).
Proof.
  intros (Hslot & Hpast & Hsorted).
  assert (Hsame : forall st1,
             timers st1 = timers st -> timeout st1 = timeout st ->
             now st1 = now st -> starts st1 = starts st -> serialised st1).
  { intros st1 Ht Hto Hn Hs. unfold serialised. rewrite Ht, Hto, Hn, Hs. auto. }
  destruct e as [filename| |i ok|id|id|id]; try (now apply Hsame).
  - destruct (isNamedWatch (Watch filename)) eqn:Hw.
    + assert (Hstep : step st (Watch filename) = handleRebuild st).
      { destruct filename as [f|]; [|discriminate]. simpl in Hw.
        unfold step, onWatch. destruct (String.eqb f ""); [discriminate|reflexivity]. }
      rewrite Hstep.
      assert (Hr : timers (handleRebuild st) = [(nextTimer st, now st + 100)%nat]
                   /\ timeout (handleRebuild st) = Some (nextTimer st)
                   /\ now (handleRebuild st) = now st
                   /\ starts (handleRebuild st) = starts st).
      { unfold handleRebuild, debounced.
        destruct Hslot as [Hnil|(id & due & Ht & Hto & _)].
        - unfold clearTimeout. destruct (timeout st); simpl; rewrite Hnil; auto.
        - rewrite Hto. simpl. rewrite Ht. simpl. rewrite Nat.eqb_refl. auto. }
      destruct Hr as (Ht & Hto & Hn & Hs). unfold serialised.
      rewrite Ht, Hto, Hn, Hs. split; [|auto].
      right. exists (nextTimer st), (now st + 100)%nat. split_and!; auto; [lia|].
      eapply Forall_impl; [exact Hpast|]. intros s Hle. unfold apart. simpl in Hle. lia.
    + assert (Hstep : step st (Watch filename) = st).
      { destruct filename as [f|]; [|reflexivity]. simpl in Hw.
        unfold step, onWatch. destruct (String.eqb f ""); [reflexivity|discriminate]. }
      rewrite Hstep. now apply Hsame.
  - simpl step.
    assert (Hpast' : Forall (fun s => (s <= S (now st))%nat) (starts st)).
    { eapply Forall_impl; [exact Hpast|]. simpl. intros; lia. }
    destruct Hslot as [Hnil|(id & due & Ht & Hto & Hlt & Hap)].
    + destruct (tick_idle st Hnil) as (Ht' & Hs' & Hn' & Hto' & _).
      unfold serialised. rewrite Ht', Hs', Hn'. auto.
    + destruct (Nat.le_gt_cases due (S (now st))) as [Hdue|Hdue].
      * destruct (tick_fires st id due Ht Hdue) as (Ht' & Hs' & Hn' & Hto' & _).
        unfold serialised. rewrite Ht', Hs', Hn'. split; [now left|]. split.
        -- apply Forall_app. split; [exact Hpast'|]. constructor; [lia|constructor].
        -- apply StronglySorted_app_2; [|exact Hsorted|repeat constructor].
           intros a b Ha Hb. apply list_elem_of_singleton in Hb as ->.
           rewrite Forall_forall in Hap. specialize (Hap a Ha).
           unfold apart in *. lia.
      * destruct (tick_waiting st id due Ht Hdue) as (Ht' & Hs' & Hn' & Hto' & _).
        unfold serialised. rewrite Ht', Hs', Hn', Hto'. split; [|auto].
        right. exists id, due. split_and!; auto.
  - apply Hsame; simpl; destruct (running st !! i); try reflexivity;
      destruct ok; reflexivity.
Qed.

Lemma serialised_run (events : list event) (st : state) :
  serialised st -> serialised (run st events).
Proof.
  revert st. induction events as [|e events IH]; intros st H; [exact H|].
  rewrite run_cons. apply IH. now apply serialised_step.
Qed.

(** C3, as the program has it. In every state the server reaches, at
    most one rebuild is queued and the rebuilds started so far began at
    least 100 ms apart; a notification starts no rebuild itself: it
    leaves the rebuilds in flight as they are and, when it carries a
    file name, makes the only queued rebuild due 100 ms later. *)
Theorem one_rebuild_queued (events : list event) :
  let st := run initial events in
  (length (timers st) <= 1)%nat
  /\ StronglySorted apart (starts st)
  /\ forall filename,
       running (step st (Watch filename)) = running st
       /\ starts (step st (Watch filename)) = starts st
       /\ (isNamedWatch (Watch filename) = true ->
           timers (step st (Watch filename)) = [(nextTimer st, now st + 100)%nat]).
Proof.
  cbv zeta. pose proof (serialised_run events initial serialised_initial)
    as (Hslot & _ & Hsorted).
  split; [|split; [exact Hsorted|]].
  - destruct Hslot as [->|(id & due & -> & _)]; simpl; lia.
  - intros filename.
    assert (Hr : timers (handleRebuild (run initial events))
                 = [(nextTimer (run initial events), now (run initial events) + 100)%nat]
                 /\ starts (handleRebuild (run initial events))
                    = starts (run initial events)
                 /\ running (handleRebuild (run initial events))
                    = running (run initial events)).
    { unfold handleRebuild, debounced.
      destruct Hslot as [Hnil|(id & due & Ht & Hto & _)].
      - unfold clearTimeout. destruct (timeout _); simpl; rewrite Hnil; auto.
      - rewrite Hto. simpl. rewrite Ht. simpl. rewrite Nat.eqb_refl. auto. }
    destruct Hr as (Ht & Hst & Hrun).
    destruct filename as [f|]; simpl; [|split_and!; auto; discriminate].
    unfold onWatch. destruct (String.eqb f ""); simpl;
      [split_and!; auto; discriminate|]. auto.
Qed.

(** two saves and an event without a file name within 1 ms *)
Lemma burst_one_rebuild_witness :
  let burst := [Watch (Some "a.md"); Tick; Watch None; Watch (Some "b.md")] in
  let st' := run initial (burst ++ repeat Tick (100 + 0)) in
  (exists start, starts st' = starts initial ++ [start])
  /\ timers st' = []
  /\ (forall s i success,
        is_Some (running s !! i) ->
        liveReloadClients (step s (Settle i success))
        = map (fun res =>
                 mkClient (clientId res) (writableEnded res)
                   (received res
                    ++ (if success && negb (writableEnded res)
                        then [reloadMessage] else [])))
              (liveReloadClients s)).
Proof.
  apply (burst_one_rebuild initial
           [Watch (Some "a.md"); Tick; Watch None; Watch (Some "b.md")] 0).
  - reflexivity.
  - vm_compute. lia.
  - reflexivity.
Defined.

(** C2 at a burst of one notification without a file name: the window
    closes and no rebuild has started. *)
Lemma unnamed_burst_counterexample :
  let burst := [Watch None] in
  (1 <= length burst)%nat
  /\ (ticks burst < 100)%nat
  /\ starts (run initial (burst ++ repeat Tick 100)) = [].
Proof. cbv zeta. split_and!; [simpl; lia|vm_compute; lia|vm_compute; reflexivity]. Qed.

(** C3 at [Sample.twoSaves]: the second notification arrives while the
    first rebuild is in flight; 100 ms later the second rebuild starts
    and both are in flight. *)
Lemma overlapping_rebuilds :
  running (run initial (take 101 Sample.twoSaves)) = [100%nat]
  /\ nth_error Sample.twoSaves 101 = Some (Watch (Some "index.md"))
  /\ running (run initial Sample.twoSaves) = [100%nat; 200%nat].
Proof. split_and!; vm_compute; reflexivity. Qed.

(** a broadcast: the client whose response has ended gets nothing *)
Example broadcast_sample :
  let st := run initial ([Connect 1; Connect 2; End 2; Watch (Some "a.md")]
                         ++ repeat Tick 100) in
  map received (liveReloadClients (step st (Settle 0 true)))
  = [[reloadMessage]; []]
  /\ map received (liveReloadClients (step st (Settle 0 false))) = [[]; []].
Proof. split; vm_compute; reflexivity. Qed.

End DevLoopSpec.


(** ** More on strings *)

Module StrFacts.
Import Str Path PathFacts.

Lemma length_chars (s : string) : length (chars s) = String.length s.
Proof. unfold chars. induction s as [|c s IH]; simpl; [reflexivity|]. now rewrite IH. Qed.

Lemma string_append_assoc (a b c : string) : (a +:+ b) +:+ c = a +:+ b +:+ c.
Proof.
  apply chars_inj. rewrite !chars_app. now rewrite app_assoc.
Qed.

Lemma startsWithChars_app (p l : list ascii) : startsWithChars p (p ++ l) = true.
Proof. induction p as [|a p IH]; simpl; [reflexivity|]. now rewrite Ascii.eqb_refl. Qed.

Lemma startsWithChars_split (p l : list ascii) :
  startsWithChars p l = true -> l = p ++ drop (length p) l.
Proof.
  revert l. induction p as [|a p IH]; intros l H; simpl in *; [reflexivity|].
  destruct l as [|b l]; [discriminate|].
  destruct (Ascii.eqb_spec a b); [|discriminate]. subst. simpl. f_equal. now apply IH.
Qed.

Lemma endsWith_app (a b : string) : endsWith (a +:+ b) b = true.
Proof.
  unfold endsWith. rewrite chars_app, rev_app_distr. apply startsWithChars_app.
Qed.

(** a string that ends with [suffix] is the rest followed by [suffix] *)
Lemma endsWith_split (s suffix : string) :
  endsWith s suffix = true ->
  s = dropEnd (String.length suffix) s +:+ suffix.
Proof.
  unfold endsWith, dropEnd. intros H. apply startsWithChars_split in H.
  rewrite length_rev, length_chars in H.
  apply chars_inj. rewrite chars_app, chars_ofChars.
  rewrite <- (rev_involutive (chars s)) at 1. rewrite H at 1.
  rewrite rev_app_distr, rev_involutive. reflexivity.
Qed.

Lemma existsb_rev {A} (f : A -> bool) (l : list A) :
  existsb f (rev l) = existsb f l.
Proof.
  induction l as [|x l IH]; simpl; [reflexivity|].
  rewrite existsb_app, IH. simpl. rewrite orb_false_r. apply orb_comm.
Qed.

Lemma takeSegment_app (r q : list ascii) :
  Sys.hasSlash r = false -> takeSegment (r ++ slash :: q) = r.
Proof.
  unfold Sys.hasSlash. induction r as [|c r IH]; intros H.
  - cbn [app takeSegment]. now rewrite Ascii.eqb_refl.
  - cbn [existsb] in H. apply orb_false_iff in H as [Hc Hr].
    rewrite <- app_comm_cons. cbn [takeSegment].
    rewrite Ascii.eqb_sym, Hc. f_equal. now apply IH.
Qed.

(** the base name of a path that ends with a separator and a segment is
    that segment *)
Lemma basename_segment (p s : string) :
  s <> "" -> Sys.hasSlash (chars s) = false -> basename (p +:+ "/" +:+ s) = s.
Proof.
  intros Hne Hs. unfold basename. rewrite !chars_app.
  change (chars "/") with [slash]. rewrite rev_app_distr.
  change ([slash] ++ chars s) with (slash :: chars s).
  cbn [rev]. rewrite <- app_assoc. cbn [app].
  assert (Hr : Sys.hasSlash (rev (chars s)) = false).
  { unfold Sys.hasSlash. now rewrite existsb_rev. }
  destruct (rev (chars s)) as [|c r] eqn:E.
  - exfalso. apply Hne. apply chars_inj.
    apply (f_equal (@rev _)) in E. now rewrite rev_involutive in E.
  - assert (Hc : Ascii.eqb c slash = false).
    { unfold Sys.hasSlash in Hr. cbn [existsb] in Hr.
      apply orb_false_iff in Hr as [Hc _]. now rewrite Ascii.eqb_sym. }
    rewrite <- app_comm_cons. cbn [dropSlashes]. rewrite Hc.
    rewrite app_comm_cons, (takeSegment_app (c :: r) _ Hr), <- E, rev_involutive.
    apply ofChars_chars.
Qed.

End StrFacts.

(** ** The navigation model as a whole *)

Module NavTreeSpec.
Import Str Path Nav NavTree NavSpec PathFacts StrFacts.

Section Tree.
Variable localeCompare : string -> string -> Z.

Abbreviation buildNavTree := (Nav.buildNavTree localeCompare).
Abbreviation sortedFiles := (Nav.sortedFiles localeCompare).
Abbreviation sortedDirs := (Nav.sortedDirs localeCompare).
Abbreviation childrenOf := (Nav.childrenOf localeCompare).

Lemma elem_of_sortedFiles (d : Dirent) (entries : list Dirent) :
  d ∈ sortedFiles entries <-> d ∈ entries /\ isMarkdown d = true.
Proof.
  unfold Nav.sortedFiles. rewrite (arraySort_perm (compareFiles localeCompare)).
  rewrite !list_elem_of_In, filter_In. reflexivity.
Qed.

Lemma elem_of_sortedDirs (d : Dirent) (entries : list Dirent) :
  d ∈ sortedDirs entries <-> d ∈ entries /\ isDirectory d = true.
Proof.
  unfold Nav.sortedDirs. rewrite (arraySort_perm (compareDirs localeCompare)).
  rewrite !list_elem_of_In, filter_In. reflexivity.
Qed.

Lemma direntSize_DDir (n : string) (es : list Dirent) :
  direntSize (DDir n es) = S (listingSize es).
Proof.
  unfold listingSize. simpl. f_equal.
  induction es as [|e es IH]; simpl; [reflexivity|]. now rewrite IH.
Qed.

Lemma entriesOf_smaller (d : Dirent) (entries : list Dirent) :
  d ∈ entries -> (listingSize (entriesOf d) < listingSize entries)%nat.
Proof.
  induction entries as [|x l IH]; intros Hin; [inversion Hin|].
  change (listingSize (x :: l)) with (direntSize x + listingSize l)%nat.
  apply elem_of_cons in Hin as [->|Hin]; [|specialize (IH Hin); lia].
  destruct x as [|n es|].
  - simpl. unfold listingSize. simpl. lia.
  - rewrite direntSize_DDir. simpl. lia.
  - simpl. unfold listingSize. simpl. lia.
Qed.

(** induction on a listing with the statement at hand for the listing of
    every entry *)
Lemma listing_ind (P : list Dirent -> Prop) :
  (forall entries, (forall d, d ∈ entries -> P (entriesOf d)) -> P entries) ->
  forall entries, P entries.
Proof.
  intros Hstep entries.
  induction entries as [entries IH] using (induction_ltof1 _ listingSize).
  apply Hstep. intros d Hin. apply IH. unfold ltof. now apply entriesOf_smaller.
Qed.

Lemma flat_map_nil {A B} (f : A -> list B) (l : list A) :
  flat_map f l = [] <-> forall x, x ∈ l -> f x = [].
Proof.
  induction l as [|x l IH]; simpl.
  - split; [intros _ x Hin; inversion Hin|reflexivity].
  - split.
    + intros H. apply app_eq_nil in H as [Hx Hl]. intros y Hin.
      apply elem_of_cons in Hin as [->|Hin]; [exact Hx|]. now apply IH.
    + intros H. rewrite (H x (list_elem_of_here _ _)). simpl. apply IH.
      intros y Hin. apply H. now right.
Qed.

Lemma existsb_false {A} (f : A -> bool) (l : list A) :
  existsb f l = false <-> forall x, x ∈ l -> f x = false.
Proof.
  induction l as [|x l IH]; simpl.
  - split; [intros _ x Hin; inversion Hin|reflexivity].
  - rewrite orb_false_iff, IH. split.
    + intros [Hx Hl] y Hin. apply elem_of_cons in Hin as [->|Hin]; auto.
    + intros H. split; [apply H; left|intros y Hin; apply H; now right].
Qed.

Lemma dirItem_nil (subDir : Dirent) (children : list NavItem) :
  dirItem subDir children = [] <-> children = [].
Proof. destruct children; simpl; split; intros H; congruence. Qed.

(** X1. The navigation model of a directory is empty exactly when the
    directory holds no markdown document at any depth: a directory with
    only other files, or only empty subdirectories, gives no node. *)
Theorem buildNavTree_empty (entries : list Dirent) (webPathPrefix : string) :
  buildNavTree entries webPathPrefix = [] <-> hasDocument entries = false.
Proof.
  revert webPathPrefix. induction entries as [entries IH] using listing_ind.
  intros webPathPrefix. rewrite buildNavTree_unfold. unfold hasDocument.
  rewrite existsb_false. split.
  - intros H. apply app_eq_nil in H as [Hfiles Hdirs].
    rewrite flat_map_nil in Hdirs. intros e Hin.
    destruct e as [n c|n es|n]; simpl; [| |reflexivity].
    + destruct (endsWith n ".md") eqn:Hmd; [|reflexivity]. exfalso.
      assert (Hf : DFile n c ∈ sortedFiles entries).
      { apply elem_of_sortedFiles. split; [exact Hin|]. unfold isMarkdown. simpl.
        exact Hmd. }
      apply (list_elem_of_fmap_2 (fileItem webPathPrefix)) in Hf.
      change (fmap (fileItem webPathPrefix) (sortedFiles entries))
        with (map (fileItem webPathPrefix) (sortedFiles entries)) in Hf.
      rewrite Hfiles in Hf. inversion Hf.
    + assert (Hd : DDir n es ∈ sortedDirs entries).
      { apply elem_of_sortedDirs. split; [exact Hin|reflexivity]. }
      specialize (Hdirs _ Hd). apply dirItem_nil in Hdirs.
      apply (IH _ Hin) in Hdirs. exact Hdirs.
  - intros H. apply app_nil. split.
    + destruct (sortedFiles entries) as [|d l] eqn:E; [reflexivity|]. exfalso.
      assert (Hd : d ∈ sortedFiles entries) by (rewrite E; left).
      apply elem_of_sortedFiles in Hd as [Hin Hmd].
      specialize (H d Hin). destruct d as [n c|n es|n]; try discriminate.
      unfold isMarkdown in Hmd. simpl in Hmd, H. congruence.
    + apply flat_map_nil. intros d Hd.
      apply elem_of_sortedDirs in Hd as [Hin Hdir].
      apply dirItem_nil. apply (IH d Hin).
      specialize (H d Hin). destruct d as [n c|n es|n]; try discriminate.
      exact H.
Qed.

(** the comparator of the files puts a file named [index.md] at the
    head, whatever [localeCompare] answers *)
Lemma arraySort_index_first (l : list Dirent) :
  (exists d, d ∈ l /\ name d = "index.md") ->
  exists h t, arraySort (compareFiles localeCompare) l = h :: t
              /\ name h = "index.md".
Proof.
  induction l as [|x l IH]; intros (d & Hin & Hd); [inversion Hin|].
  cbn [arraySort].
  destruct (String.eqb_spec (name x) "index.md") as [Hx|Hx].
  - destruct (arraySort (compareFiles localeCompare) l) as [|y r]; cbn [insertSorted].
    + eauto.
    + unfold compareFiles at 1. apply String.eqb_eq in Hx. rewrite Hx.
      change (-1 <=? 0) with true. cbn iota. apply String.eqb_eq in Hx. eauto.
  - apply elem_of_cons in Hin as [->|Hin]; [contradiction|].
    destruct IH as (h & t & E & Hh); [eauto|]. rewrite E. cbn [insertSorted].
    unfold compareFiles at 1. apply String.eqb_neq in Hx. rewrite Hx.
    apply String.eqb_eq in Hh. rewrite Hh. change (1 <=? 0) with false. cbn iota.
    apply String.eqb_eq in Hh. eauto.
Qed.

(** X2. A subdirectory that holds a document named [index.md] is a node
    of the model of its parent, and the node links to the page of that
    document. *)
Theorem directory_links_to_index (entries : list Dirent) (webPathPrefix : string)
    (n content : string) (sub : list Dirent) :
  DDir n sub ∈ entries ->
  DFile "index.md" content ∈ sub ->
  mkNavItem (prettifyName n)
            ((webPathPrefix +:+ n +:+ "/") +:+ "index.html")
            (Some (buildNavTree sub (webPathPrefix +:+ n +:+ "/")))
  ∈ buildNavTree entries webPathPrefix.
Proof.
  intros Hdir Hindex.
  assert (Hsorted : DDir n sub ∈ sortedDirs entries).
  { apply elem_of_sortedDirs. split; [exact Hdir|reflexivity]. }
  rewrite (buildNavTree_unfold localeCompare entries). apply elem_of_app. right.
  apply list_elem_of_In, in_flat_map. exists (DDir n sub).
  split; [now apply list_elem_of_In|]. apply list_elem_of_In.
  unfold Nav.childrenOf, subPrefix. cbn [entriesOf name].
  set (prefix' := webPathPrefix +:+ n +:+ "/").
  destruct (arraySort_index_first (List.filter isMarkdown sub)) as (h & t & E & Hh).
  { exists (DFile "index.md" content). split; [|reflexivity].
    apply list_elem_of_In, filter_In. split; [now apply list_elem_of_In|].
    vm_compute. reflexivity. }
  assert (Hc : buildNavTree sub prefix'
               = fileItem prefix' h
                 :: (map (fileItem prefix') t
                     ++ flat_map (fun subDir => dirItem subDir (childrenOf prefix' subDir))
                                 (sortedDirs sub))).
  { rewrite (buildNavTree_unfold localeCompare sub). unfold Nav.sortedFiles.
    rewrite E. reflexivity. }
  assert (Hpath : itemPath (fileItem prefix' h) = prefix' +:+ "index.html").
  { unfold fileItem. cbn [itemPath]. rewrite Hh. reflexivity. }
  assert (Hbase : isIndexPage (fileItem prefix' h) = true).
  { unfold isIndexPage. rewrite Hpath. unfold prefix'.
    rewrite <- (string_append_assoc webPathPrefix n "/").
    rewrite (string_append_assoc (webPathPrefix +:+ n) "/" "index.html").
    rewrite basename_segment; [reflexivity|discriminate|reflexivity]. }
  rewrite Hc. cbn [dirItem]. unfold dirPath. cbn [List.find]. rewrite Hbase, Hpath.
  apply list_elem_of_here.
Qed.

(** X3. Every link of the model, at any depth, is the placeholder [#] or
    a path that starts with the web path prefix and ends with [.html]. *)
Theorem links_under_prefix (entries : list Dirent) (webPathPrefix p : string) :
  p ∈ allPaths (buildNavTree entries webPathPrefix) ->
  p = "#"
  \/ (exists rest, p = webPathPrefix +:+ rest) /\ endsWith p ".html" = true.
Proof.
  revert webPathPrefix p. induction entries as [entries IH] using listing_ind.
  intros webPathPrefix p. rewrite buildNavTree_unfold. unfold allPaths.
  rewrite flat_map_app, elem_of_app, !list_elem_of_In, !in_flat_map.
  intros [(item & Hitem & Hp)|(item & Hitem & Hp)].
  - apply in_map_iff in Hitem as (d & <- & Hd).
    apply list_elem_of_In, elem_of_sortedFiles in Hd as [_ Hmd].
    cbn [fileItem navPaths] in Hp. destruct Hp as [<-|[]]. right.
    unfold isMarkdown in Hmd. apply andb_true_iff in Hmd as [_ Hmd].
    unfold mdToHtml. rewrite Hmd. split; [eauto|].
    rewrite <- string_append_assoc. apply endsWith_app.
  - apply in_flat_map in Hitem as (d & Hd & Hitem).
    apply list_elem_of_In, elem_of_sortedDirs in Hd as [Hin _].
    destruct (childrenOf webPathPrefix d) as [|c cs] eqn:Hc; [inversion Hitem|].
    cbn [dirItem] in Hitem. destruct Hitem as [<-|[]].
    assert (Hbelow : forall q, q ∈ allPaths (c :: cs) ->
              q = "#"
              \/ (exists rest, q = webPathPrefix +:+ rest)
                 /\ endsWith q ".html" = true).
    { intros q Hq. rewrite <- Hc in Hq. unfold Nav.childrenOf in Hq.
      destruct (IH d Hin _ _ Hq) as [->|[[rest ->] He]]; [now left|].
      right. split; [|exact He]. unfold subPrefix.
      exists (name d +:+ "/" +:+ rest). now rewrite !string_append_assoc. }
    cbn [navPaths] in Hp. destruct Hp as [<-|Hp].
    + unfold dirPath. destruct (List.find isIndexPage (c :: cs)) as [i|] eqn:Hf;
        [|now left].
      apply find_some in Hf as [Hi _]. apply Hbelow.
      unfold allPaths. apply list_elem_of_In, in_flat_map. exists i.
      split; [exact Hi|]. destruct i. cbn. now left.
    + apply Hbelow. now apply list_elem_of_In.
Qed.

End Tree.

Lemma mdToHtml_markdown (n : string) :
  endsWith n ".md" = true -> mdToHtml n = dropEnd 3 n +:+ ".html".
Proof. unfold mdToHtml. now intros ->. Qed.

(** X4. Two markdown documents with different file names get different
    page names: within a directory no page overwrites another. *)
Theorem mdToHtml_inj (a b : string) :
  endsWith a ".md" = true -> endsWith b ".md" = true ->
  mdToHtml a = mdToHtml b -> a = b.
Proof.
  intros Ha Hb E. rewrite (mdToHtml_markdown a Ha), (mdToHtml_markdown b Hb) in E.
  apply (f_equal chars) in E. rewrite !chars_app in E. apply app_inv_tail in E.
  apply chars_inj in E.
  rewrite (endsWith_split a ".md" Ha), (endsWith_split b ".md" Hb).
  change (String.length ".md") with 3%nat. now rewrite E.
Qed.

Lemma length_capitalizeWords (prevWord : bool) (l : list ascii) :
  length (capitalizeWords prevWord l) = length l.
Proof.
  revert prevWord. induction l as [|c l IH]; intros prevWord; simpl; [reflexivity|].
  now rewrite IH.
Qed.

Lemma upperChar_hyphen (c : ascii) : upperChar c = "-"%char -> c = "-"%char.
Proof.
  destruct c as [[] [] [] [] [] [] [] []]; vm_compute; intros H; congruence.
Qed.

Lemma hyphenToSpace_hyphen (c : ascii) : hyphenToSpace c <> "-"%char.
Proof.
  unfold hyphenToSpace. destruct (Ascii.eqb_spec c "-"%char); [discriminate|auto].
Qed.

Lemma capitalizeWords_hyphen (prevWord : bool) (l : list ascii) :
  Forall (fun c => c <> "-"%char) l ->
  Forall (fun c => c <> "-"%char) (capitalizeWords prevWord l).
Proof.
  intros H. revert prevWord. induction H as [|c l Hc _ IH]; intros prevWord;
    cbn [capitalizeWords]; constructor; [|apply IH].
  destruct (isWordChar c && negb prevWord); [|exact Hc].
  intros E. now apply upperChar_hyphen in E.
Qed.

(** X5. The display name of a file or directory other than [index] is
    as long as its base name and holds no hyphen. *)
Theorem prettifyName_shape (n : string) :
  basenameExt n ".md" <> "index" ->
  String.length (prettifyName n) = String.length (basenameExt n ".md")
  /\ Forall (fun c => c <> "-"%char) (chars (prettifyName n)).
Proof.
  intros Hne. unfold prettifyName. apply String.eqb_neq in Hne. rewrite Hne.
  rewrite <- !length_chars, chars_ofChars, length_capitalizeWords, length_map.
  split; [reflexivity|]. apply capitalizeWords_hyphen.
  apply Forall_forall. intros c Hin. apply list_elem_of_In, in_map_iff in Hin as (x & <- & _).
  apply hyphenToSpace_hyphen.
Qed.

(** the display names of [my-first-page.md] and of the directory
    [user-guide] *)
Lemma prettifyName_shape_witness :
  basenameExt "my-first-page.md" ".md" <> "index"
  /\ String.length (prettifyName "my-first-page.md")
     = String.length (basenameExt "my-first-page.md" ".md")
  /\ Forall (fun c => c <> "-"%char) (chars (prettifyName "my-first-page.md")).
Proof.
  split; [vm_compute; discriminate|].
  apply (prettifyName_shape "my-first-page.md"). vm_compute. discriminate.
Defined.

Example prettifyName_sample :
  prettifyName "my-first-page.md" = "My First Page"
  /\ prettifyName "user-guide" = "User Guide"
  /\ prettifyName "index.md" = "Home".
Proof. split_and!; vm_compute; reflexivity. Qed.

(** the pages of [setup.md] and [about.md] *)
Lemma mdToHtml_inj_witness :
  endsWith "setup.md" ".md" = true /\ endsWith "about.md" ".md" = true
  /\ (mdToHtml "setup.md" = mdToHtml "about.md" -> "setup.md" = "about.md").
Proof.
  split; [reflexivity|]. split; [reflexivity|].
  apply (mdToHtml_inj "setup.md" "about.md"); reflexivity.
Defined.

(** the directory [api] of [Sample.docs] *)
Lemma directory_links_to_index_witness :
  mkNavItem (prettifyName "api") (("/" +:+ "api" +:+ "/") +:+ "index.html")
            (Some (Nav.buildNavTree Sample.localeCompare
                     [DFile "index.md" ""] ("/" +:+ "api" +:+ "/")))
  ∈ Nav.buildNavTree Sample.localeCompare Sample.docs "/".
Proof.
  apply (directory_links_to_index Sample.localeCompare Sample.docs "/" "api" ""
           [DFile "index.md" ""]).
  - unfold Sample.docs. do 6 apply list_elem_of_further. apply list_elem_of_here.
  - apply list_elem_of_here.
Defined.

(** the links of [Sample.docs] *)
Lemma links_under_prefix_witness :
  "/guide/install.html" ∈ allPaths (Nav.buildNavTree Sample.localeCompare Sample.docs "/")
  /\ ("/guide/install.html" = "#"
      \/ (exists rest, "/guide/install.html" = "/" +:+ rest)
         /\ endsWith "/guide/install.html" ".html" = true).
Proof.
  assert (H : "/guide/install.html"
              ∈ allPaths (Nav.buildNavTree Sample.localeCompare Sample.docs "/")).
  { apply (bool_decide_unpack _). vm_compute. exact I. }
  split; [exact H|].
  exact (links_under_prefix Sample.localeCompare Sample.docs "/" _ H).
Defined.

End NavTreeSpec.

(** ** The image pattern *)

Module RegexSpec.
Import Str Path Sys Regex RegexSteps PathFacts StrFacts.

Lemma matchScheme_Some (l scheme rest : list ascii) :
  matchScheme l = Some (scheme, rest) ->
  l = scheme ++ rest /\ (scheme = chars "https://" \/ scheme = chars "http://").
Proof.
  unfold matchScheme.
  destruct (stripPrefix (chars "https://") l) as [r|] eqn:E1.
  - intros H. injection H as <- <-. apply stripPrefix_Some in E1. auto.
  - destruct (stripPrefix (chars "http://") l) as [r|] eqn:E2; [|discriminate].
    intros H. injection H as <- <-. apply stripPrefix_Some in E2. auto.
Qed.

Lemma scanUrl_Some (l tail t after : list ascii) :
  scanUrl l tail = Some (t, after) ->
  exists u, t = rev tail ++ u /\ l = u ++ ")"%char :: after.
Proof.
  revert tail. induction l as [|c l IH]; intros tail H; [discriminate|].
  cbn [scanUrl] in H. destruct (Ascii.eqb_spec c ")"%char) as [->|Hc].
  - injection H as <- <-. exists []. now rewrite app_nil_r.
  - destruct (lineTerminatorAt (c :: l)); [discriminate|].
    apply IH in H as (u & -> & ->). exists (c :: u). split; [|reflexivity].
    cbn [rev]. now rewrite <- app_assoc.
Qed.

Lemma scanAlt_eq (l alt : list ascii) :
  scanAlt l alt
  = match matchHere l alt with
    | Some r => Some r
    | None =>
        match l with
        | [] => None
        | c :: l' => if lineTerminatorAt l then None else scanAlt l' (c :: alt)
        end
    end.
Proof. destruct l; reflexivity. Qed.

Lemma matchHere_Some (l alt a url after : list ascii) :
  matchHere l alt = Some (a, url, after) ->
  exists scheme u,
    a = rev alt
    /\ l = chars "](" ++ url ++ ")"%char :: after
    /\ url = scheme ++ u
    /\ (scheme = chars "https://" \/ scheme = chars "http://").
Proof.
  unfold matchHere.
  destruct (stripPrefix (chars "](") l) as [l1|] eqn:E1; [|discriminate].
  destruct (matchScheme l1) as [[scheme l2]|] eqn:E2; [|discriminate].
  destruct (scanUrl l2 []) as [[tail after1]|] eqn:E3; [|discriminate].
  intros H. injection H as <- <- <-.
  apply stripPrefix_Some in E1. apply matchScheme_Some in E2 as [-> Hs].
  apply scanUrl_Some in E3 as (u & -> & ->).
  exists scheme, u. cbn [rev app]. split; [reflexivity|]. split; [|auto].
  rewrite E1. now rewrite <- !app_assoc.
Qed.

(** what [scanAlt] finds: the alt text, then [](], a URL with an [http]
    or [https] scheme, then [)] *)
Lemma scanAlt_Some (l alt a url after : list ascii) :
  scanAlt l alt = Some (a, url, after) ->
  exists a' scheme u,
    a = rev alt ++ a'
    /\ l = a' ++ chars "](" ++ url ++ ")"%char :: after
    /\ url = scheme ++ u
    /\ (scheme = chars "https://" \/ scheme = chars "http://").
Proof.
  revert alt. induction l as [|c l IH]; intros alt H; rewrite scanAlt_eq in H.
  - destruct (matchHere [] alt) as [[[a0 url0] after0]|] eqn:Hhere; [|discriminate].
    injection H as <- <- <-.
    apply matchHere_Some in Hhere as (scheme & u & -> & Hl & -> & Hs).
    exists [], scheme, u. now rewrite app_nil_r.
  - destruct (matchHere (c :: l) alt) as [[[a0 url0] after0]|] eqn:Hhere.
    + injection H as <- <- <-.
      apply matchHere_Some in Hhere as (scheme & u & -> & Hl & -> & Hs).
      exists [], scheme, u. now rewrite app_nil_r.
    + destruct (lineTerminatorAt (c :: l)); [discriminate|].
      apply IH in H as (a' & scheme & u & -> & -> & -> & Hs).
      exists (c :: a'), scheme, u. split; [|auto].
      cbn [rev]. now rewrite <- app_assoc.
Qed.

(** a match at the head of [l]: its three strings, and the text it
    covers *)
Lemma matchAt_Some (l : list ascii) (m : RegexMatch) (len : nat) :
  matchAt l = Some (m, len) ->
  exists scheme u after,
    chars (fullMatch m)
    = chars "![" ++ chars (altText m) ++ chars "](" ++ chars (remoteUrl m) ++ [")"%char]
    /\ l = chars (fullMatch m) ++ after
    /\ chars (remoteUrl m) = scheme ++ u
    /\ (scheme = chars "https://" \/ scheme = chars "http://").
Proof.
  unfold matchAt.
  destruct (stripPrefix (chars "![") l) as [l1|] eqn:E1; [|discriminate].
  destruct (scanAlt l1 []) as [[[alt url] after]|] eqn:E2; [|discriminate].
  intros H. injection H as <- <-.
  apply stripPrefix_Some in E1.
  apply scanAlt_Some in E2 as (a' & scheme & u & -> & Hl1 & Hurl & Hs).
  cbn [rev app] in *. cbn [fullMatch altText remoteUrl]. rewrite !chars_ofChars.
  exists scheme, u, after.
  assert (Hl : l = (chars "![" ++ a' ++ chars "](" ++ url ++ [")"%char]) ++ after).
  { rewrite E1, Hl1. rewrite <- !app_assoc. reflexivity. }
  assert (Htake : take (length l - length after) l
                  = chars "![" ++ a' ++ chars "](" ++ url ++ [")"%char]).
  { rewrite Hl at 2. rewrite Hl at 1. rewrite length_app.
    replace (length (chars "![" ++ a' ++ chars "](" ++ url ++ [")"%char])
             + length after - length after)%nat
      with (length (chars "![" ++ a' ++ chars "](" ++ url ++ [")"%char])) by lia.
    apply take_app_length. }
  rewrite Htake. split; [reflexivity|]. split; [exact Hl|]. auto.
Qed.

(** every match of the list covers a piece of the text *)
Lemma matchAllFrom_elem (l : list ascii) (skip : nat) (m : RegexMatch) :
  m ∈ matchAllFrom l skip ->
  exists scheme u before after,
    chars (fullMatch m)
    = chars "![" ++ chars (altText m) ++ chars "](" ++ chars (remoteUrl m) ++ [")"%char]
    /\ l = before ++ chars (fullMatch m) ++ after
    /\ chars (remoteUrl m) = scheme ++ u
    /\ (scheme = chars "https://" \/ scheme = chars "http://").
Proof.
  revert skip. induction l as [|c l IH]; intros skip Hin; [inversion Hin|].
  assert (Hlater : forall k, m ∈ matchAllFrom l k ->
            exists scheme u before after,
              chars (fullMatch m)
              = chars "![" ++ chars (altText m) ++ chars "](" ++ chars (remoteUrl m)
                ++ [")"%char]
              /\ c :: l = before ++ chars (fullMatch m) ++ after
              /\ chars (remoteUrl m) = scheme ++ u
              /\ (scheme = chars "https://" \/ scheme = chars "http://")).
  { intros k Hk. destruct (IH k Hk) as (scheme & u & before & after & Hf & Hl & Hu & Hs).
    exists scheme, u, (c :: before), after. rewrite Hl at 1. auto. }
  cbn [matchAllFrom] in Hin. destruct skip as [|k]; [|now apply (Hlater k)].
  destruct (matchAt (c :: l)) as [[m' len]|] eqn:E; [|now apply (Hlater 0%nat)].
  apply elem_of_cons in Hin as [->|Hin]; [|now apply (Hlater (len - 1)%nat)].
  apply matchAt_Some in E as (scheme & u & after & Hf & Hl & Hu & Hs).
  exists scheme, u, [], after. auto.
Qed.

(** X6. Every match of the image pattern is an image reference
    [![alt](url)] whose URL starts with [http://] or [https://], and it
    is a piece of the document. *)
Theorem imageUrlMatches_shape (markdown : string) (m : RegexMatch) :
  m ∈ imageUrlMatches markdown ->
  fullMatch m = "![" +:+ altText m +:+ "](" +:+ remoteUrl m +:+ ")"
  /\ (exists rest, remoteUrl m = "https://" +:+ rest
                   \/ remoteUrl m = "http://" +:+ rest)
  /\ exists before after, markdown = before +:+ fullMatch m +:+ after.
Proof.
  intros Hin. apply matchAllFrom_elem in Hin
    as (scheme & u & before & after & Hf & Hl & Hu & Hs).
  split; [|split].
  - apply chars_inj. now rewrite !chars_app.
  - exists (ofChars u). destruct Hs as [-> | ->]; [left|right];
      apply chars_inj; now rewrite chars_app, chars_ofChars.
  - exists (ofChars before), (ofChars after). apply chars_inj.
    now rewrite !chars_app, !chars_ofChars.
Qed.

(** a document without the text [](http] has no match *)
Lemma imageUrlMatches_none (markdown : string) :
  (forall before after, markdown <> before +:+ "](http" +:+ after) ->
  imageUrlMatches markdown = [].
Proof.
  intros Hno. destruct (imageUrlMatches markdown) as [|m ms] eqn:E; [reflexivity|].
  exfalso.
  assert (Hin : m ∈ imageUrlMatches markdown) by (rewrite E; left).
  apply matchAllFrom_elem in Hin as (scheme & u & before & after & Hf & Hl & Hu & Hs).
  assert (Htail : exists t, scheme = chars "http" ++ t).
  { destruct Hs as [-> | ->]; [exists (chars "s://")|exists (chars "://")]; reflexivity. }
  destruct Htail as [t ->].
  apply (Hno (ofChars (before ++ chars "![" ++ chars (altText m)))
             (ofChars (t ++ u ++ [")"%char] ++ after))).
  apply chars_inj. rewrite !chars_app, !chars_ofChars, Hl, Hf, Hu.
  rewrite <- !app_assoc. reflexivity.
Qed.

Lemma splitAtFirst_None (pat l acc : list ascii) :
  JsString.splitAtFirst pat l acc = None ->
  forall before after, l <> before ++ pat ++ after.
Proof.
  revert acc. induction l as [|c l IH]; intros acc H before after E.
  - cbn [JsString.splitAtFirst] in H.
    destruct (stripPrefix pat []) eqn:Hs; [discriminate|].
    symmetry in E. apply app_eq_nil in E as [_ E]. apply app_eq_nil in E as [-> _].
    discriminate.
  - cbn [JsString.splitAtFirst] in H.
    destruct (stripPrefix pat (c :: l)) eqn:Hs; [discriminate|].
    destruct before as [|b before].
    + cbn [app] in E. rewrite E, stripPrefix_app in Hs. discriminate.
    + injection E as _ E. exact (IH _ H before after E).
Qed.

(** the reference of [Sample.badReference] *)
Lemma imageUrlMatches_shape_witness :
  fullMatch Sample.badMatch
  = "![" +:+ altText Sample.badMatch +:+ "](" +:+ remoteUrl Sample.badMatch +:+ ")"
  /\ (exists rest, remoteUrl Sample.badMatch = "https://" +:+ rest
                   \/ remoteUrl Sample.badMatch = "http://" +:+ rest)
  /\ exists before after,
       Sample.badReference = before +:+ fullMatch Sample.badMatch +:+ after.
Proof.
  apply (imageUrlMatches_shape Sample.badReference Sample.badMatch).
  replace (imageUrlMatches Sample.badReference) with [Sample.badMatch]
    by (vm_compute; reflexivity).
  apply list_elem_of_here.
Defined.

End RegexSpec.

(** ** More on the Image Externalizer *)

Module ExternalizerMore.
Import Str Path Sys Regex Build PathFacts StrFacts RegexSpec.
Import OrphanSpec ExternalizerSpec.

Section Externalizer.
Variable cwd : string.
Variable urlPathname : string -> option string.
Variable network : nat -> string -> option Response.
Variable imagemin : list Byte.byte -> option (list Byte.byte).

Abbreviation localPathOf := (Build.localPathOf cwd).
Abbreviation processMatch := (Build.processMatch cwd urlPathname network imagemin).
Abbreviation processMatches := (Build.processMatches cwd urlPathname network imagemin).
Abbreviation processMarkdownImages :=
  (Build.processMarkdownImages cwd urlPathname network imagemin).

Lemma processMatches_cons (withLiveReload : bool) (m : RegexMatch)
    (rest : list RegexMatch) (text : string) (w : world) :
  processMatches withLiveReload (m :: rest) text w
  = match processMatch withLiveReload m text w with
    | (Ok text', w') => processMatches withLiveReload rest text' w'
    | (Throw e, w') => (Throw e, w')
    end.
Proof. reflexivity. Qed.

(** the state a turn of the loop leaves depends neither on the text nor
    on the mode *)
Lemma processMatch_state (f1 f2 : bool) (m : RegexMatch) (t1 t2 : string) (w : world) :
  snd (processMatch f1 m t1 w) = snd (processMatch f2 m t2 w).
Proof.
  rewrite !(processMatch_run cwd urlPathname network imagemin).
  destruct (String.eqb (remoteUrl m) ""); [reflexivity|].
  destruct (urlPathname (remoteUrl m)) as [pathname|]; [|reflexivity].
  destruct (files w !! localPathOf pathname); [reflexivity|]. cbv zeta.
  destruct (network (length (requests w)) (remoteUrl m)) as [response|];
    [|reflexivity].
  destruct (negb (ok response)); [reflexivity|].
  destruct (imagemin (body response)); [|reflexivity].
  destruct (isDirectoryAt w (dirname (localPathOf pathname))); reflexivity.
Qed.

Lemma processMatch_Ok (f : bool) (m : RegexMatch) (t : string) (w : world) :
  exists t', fst (processMatch f m t w) = Ok t'.
Proof.
  destruct (processMatch_effect cwd urlPathname network imagemin f m t w)
    as (t' & w' & _ & _ & E & _). rewrite E. eauto.
Qed.

Lemma processMatches_state (f1 f2 : bool) (matches : list RegexMatch)
    (t1 t2 : string) (w : world) :
  snd (processMatches f1 matches t1 w) = snd (processMatches f2 matches t2 w).
Proof.
  revert t1 t2 w. induction matches as [|m rest IH]; intros t1 t2 w; [reflexivity|].
  rewrite !processMatches_cons.
  pose proof (processMatch_state f1 f2 m t1 t2 w) as Hs.
  destruct (processMatch_Ok f1 m t1 w) as [a1 H1].
  destruct (processMatch_Ok f2 m t2 w) as [a2 H2].
  destruct (processMatch f1 m t1 w) as [r1 w1].
  destruct (processMatch f2 m t2 w) as [r2 w2].
  simpl in *. subst. apply IH.
Qed.

(** a turn of the loop keeps the touched set and adds the local path of
    a reference whose URL parses *)
Lemma processMatch_registers (f : bool) (m : RegexMatch) (t : string) (w : world) :
  allUsedImages w ⊆ allUsedImages (snd (processMatch f m t w))
  /\ source (snd (processMatch f m t w)) = source w
  /\ (forall pathname,
        remoteUrl m <> "" -> urlPathname (remoteUrl m) = Some pathname ->
        localPathOf pathname ∈ allUsedImages (snd (processMatch f m t w))).
Proof.
  rewrite (processMatch_run cwd urlPathname network imagemin).
  destruct (String.eqb_spec (remoteUrl m) "") as [He|He].
  { simpl. split_and!; [set_solver|reflexivity|intros; contradiction]. }
  destruct (urlPathname (remoteUrl m)) as [pathname|].
  2:{ simpl. split_and!; [set_solver|reflexivity|intros; discriminate]. }
  assert (Hgoal : forall r : result string * world,
             allUsedImages (snd r) = {[localPathOf pathname]} ∪ allUsedImages w ->
             source (snd r) = source w ->
             allUsedImages w ⊆ allUsedImages (snd r)
             /\ source (snd r) = source w
             /\ (forall p, remoteUrl m <> "" -> Some pathname = Some p ->
                           localPathOf p ∈ allUsedImages (snd r))).
  { intros r Hu Hsrc. rewrite Hu. split_and!; [set_solver|exact Hsrc|].
    intros p _ [= <-]. set_solver. }
  destruct (files w !! localPathOf pathname); [now apply Hgoal|]. cbv zeta.
  destruct (network (length (requests w)) (remoteUrl m)) as [response|];
    [|now apply Hgoal].
  destruct (negb (ok response)); [now apply Hgoal|].
  destruct (imagemin (body response)); [|now apply Hgoal].
  destruct (isDirectoryAt w (dirname (localPathOf pathname))); now apply Hgoal.
Qed.

Lemma processMatches_registers (f : bool) (matches : list RegexMatch) (t : string)
    (w : world) :
  allUsedImages w ⊆ allUsedImages (snd (processMatches f matches t w))
  /\ source (snd (processMatches f matches t w)) = source w
  /\ (forall m pathname,
        m ∈ matches -> remoteUrl m <> "" ->
        urlPathname (remoteUrl m) = Some pathname ->
        localPathOf pathname ∈ allUsedImages (snd (processMatches f matches t w))).
Proof.
  revert t w. induction matches as [|m rest IH]; intros t w.
  - simpl. split_and!; [set_solver|reflexivity|]. intros m p Hin. inversion Hin.
  - rewrite processMatches_cons.
    destruct (processMatch_registers f m t w) as (Hu & Hs & Hreg).
    destruct (processMatch_Ok f m t w) as [t' Ht].
    destruct (processMatch f m t w) as [r w1]. simpl in *. subst r.
    destruct (IH t' w1) as (Hu' & Hs' & Hreg').
    split_and!; [set_solver|congruence|].
    intros m' p Hin Hne Hurl. apply elem_of_cons in Hin as [->|Hin].
    + apply Hu'. now apply Hreg.
    + now apply (Hreg' m').
Qed.

Lemma remoteUrl_nonempty (markdown : string) (m : RegexMatch) :
  m ∈ imageUrlMatches markdown -> remoteUrl m <> "".
Proof.
  intros Hin E. apply matchAllFrom_elem in Hin as (scheme & u & _ & _ & _ & _ & Hu & Hs).
  rewrite E in Hu. destruct Hs as [-> | ->]; discriminate.
Qed.

Lemma processMatches_app (f : bool) (a b : list RegexMatch) (t : string) (w : world) :
  processMatches f (a ++ b) t w
  = match processMatches f a t w with
    | (Ok t1, w1) => processMatches f b t1 w1
    | (Throw e, w1) => (Throw e, w1)
    end.
Proof.
  revert t w. induction a as [|m a IH]; intros t w; [reflexivity|].
  rewrite <- app_comm_cons, !processMatches_cons.
  destruct (processMatch f m t w) as [[t1|e] w1]; [apply IH|reflexivity].
Qed.

(** what a turn of the loop leaves: the console has only grown, the
    files that were there are there, the only path that can be new is
    the local path of the reference, and the text is changed only when a
    file is at that path after the turn *)
Lemma processMatch_outcome (f : bool) (m : RegexMatch) (t : string) (w : world) :
  exists t' w',
    processMatch f m t w = (Ok t', w')
    /\ (exists lines, console w' = console w ++ lines)
    /\ (forall p n, files w !! p = Some n -> files w' !! p = Some n)
    /\ (forall p, files w' !! p = files w !! p
                  \/ exists pathname, urlPathname (remoteUrl m) = Some pathname
                                      /\ p = localPathOf pathname)
    /\ ((t' = t /\ files w' = files w)
        \/ exists pathname, urlPathname (remoteUrl m) = Some pathname
                            /\ is_Some (files w' !! localPathOf pathname)).
Proof.
  rewrite (processMatch_run cwd urlPathname network imagemin).
  assert (Hsame : forall w' : world,
             files w' = files w -> (exists lines, console w' = console w ++ lines) ->
             exists t' w'0,
               (Ok t, w') = (Ok t', w'0)
               /\ (exists lines, console w'0 = console w ++ lines)
               /\ (forall p n, files w !! p = Some n -> files w'0 !! p = Some n)
               /\ (forall p, files w'0 !! p = files w !! p
                             \/ exists pathname,
                                  urlPathname (remoteUrl m) = Some pathname
                                  /\ p = localPathOf pathname)
               /\ ((t' = t /\ files w'0 = files w)
                   \/ exists pathname,
                        urlPathname (remoteUrl m) = Some pathname
                        /\ is_Some (files w'0 !! localPathOf pathname))).
  { intros w' Hf Hc. exists t, w'. rewrite Hf. split_and!; auto. }
  destruct (String.eqb (remoteUrl m) "").
  { apply Hsame; [reflexivity|]. exists []. now rewrite app_nil_r. }
  destruct (urlPathname (remoteUrl m)) as [pathname|] eqn:Hurl.
  2:{ apply Hsame; [reflexivity|]. eexists [_]. reflexivity. }
  destruct (files w !! localPathOf pathname) as [n|] eqn:Hfile.
  { eexists _, _. split; [reflexivity|]. cbn [files console Build.registered setUsed].
    split_and!; auto.
    - exists []. now rewrite app_nil_r.
    - right. exists pathname. rewrite Hfile. eauto. }
  cbv zeta.
  assert (Hreq : forall e,
             exists lines,
               console (addLine (Build.errorLine m e)
                          (Build.requested cwd m pathname w))
               = console w ++ lines).
  { intros e. eexists [_; _]. cbn. now rewrite <- app_assoc. }
  destruct (network (length (requests w)) (remoteUrl m)) as [response|];
    [|apply Hsame; [reflexivity|apply Hreq]].
  destruct (negb (ok response)); [apply Hsame; [reflexivity|apply Hreq]|].
  destruct (imagemin (body response)) as [data|];
    [|apply Hsame; [reflexivity|apply Hreq]].
  destruct (isDirectoryAt w (dirname (localPathOf pathname)));
    [|apply Hsame; [reflexivity|apply Hreq]].
  eexists _, _. split; [reflexivity|].
  cbn [files console addLine addWrite setFiles Build.requested Build.registered
       addRequest setUsed].
  split_and!.
  - eexists [_; _]. now rewrite <- !app_assoc.
  - intros p n Hp. rewrite lookup_insert_ne; [exact Hp|]. congruence.
  - intros p. destruct (decide (localPathOf pathname = p)) as [<-|Hne].
    + right. eauto.
    + left. now rewrite lookup_insert_ne.
  - right. exists pathname. rewrite lookup_insert_eq. eauto.
Qed.

(** what the loop leaves *)
Lemma processMatches_outcome (f : bool) (matches : list RegexMatch) :
  forall (t : string) (w : world),
  exists t' w',
    processMatches f matches t w = (Ok t', w')
    /\ (exists lines, console w' = console w ++ lines)
    /\ (forall p n, files w !! p = Some n -> files w' !! p = Some n)
    /\ (forall p, files w' !! p = files w !! p
                  \/ exists m pathname,
                       m ∈ matches /\ urlPathname (remoteUrl m) = Some pathname
                       /\ p = localPathOf pathname)
    /\ ((forall m pathname,
            m ∈ matches -> urlPathname (remoteUrl m) = Some pathname ->
            files w' !! localPathOf pathname = None) ->
        t' = t /\ files w' = files w).
Proof.
  induction matches as [|m rest IH]; intros t w.
  - exists t, w. split_and!; auto. exists []. now rewrite app_nil_r.
  - rewrite processMatches_cons.
    destruct (processMatch_outcome f m t w)
      as (t1 & w1 & E1 & [l1 Hc1] & Hk1 & Hp1 & Ht1).
    rewrite E1.
    destruct (IH t1 w1) as (t2 & w2 & E2 & [l2 Hc2] & Hk2 & Hp2 & Ht2).
    exists t2, w2. split; [exact E2|]. split_and!.
    + exists (l1 ++ l2). now rewrite Hc2, Hc1, app_assoc.
    + intros p n Hp. now apply Hk2, Hk1.
    + intros p. destruct (Hp2 p) as [->|(m' & pn & Hin & Hu & ->)].
      * destruct (Hp1 p) as [->|(pn & Hu & ->)]; [now left|].
        right. exists m, pn. split_and!; auto. apply list_elem_of_here.
      * right. exists m', pn. split_and!; auto. now apply list_elem_of_further.
    + intros Hnone.
      destruct Ht2 as [-> Hf2].
      { intros m' pn Hin. apply Hnone. now apply list_elem_of_further. }
      destruct Ht1 as [[-> Hf1]|(pn & Hu & [n Hn])].
      * split; [reflexivity|congruence].
      * exfalso. apply Hk2 in Hn.
        rewrite (Hnone m pn (list_elem_of_here _ _) Hu) in Hn. discriminate.
Qed.


(** externalizing returns, keeps the files and the source tree, and
    lets the touched set grow *)
Lemma processMarkdownImages_frame (markdown : string) (withLiveReload : bool)
    (w : world) :
  exists text' w',
    processMarkdownImages markdown withLiveReload w = (Ok text', w')
    /\ (forall p n, files w !! p = Some n -> files w' !! p = Some n)
    /\ allUsedImages w ⊆ allUsedImages w'
    /\ source w' = source w.
Proof.
  unfold Build.processMarkdownImages.
  destruct (processMatches_effect cwd urlPathname network imagemin withLiveReload
              (imageUrlMatches markdown) markdown w)
    as (t' & w' & nw & nr & E & _ & _ & _ & _ & Hkeep & _).
  destruct (processMatches_registers withLiveReload (imageUrlMatches markdown)
              markdown w) as (Hu & Hs & _).
  rewrite E in Hu, Hs. simpl in Hu, Hs. eauto 10.
Qed.


(** X8. In the one-shot build, where no other pass runs while the call
    awaits, the local path of every remote reference whose URL parses is
    in the touched set after the document is externalized, whether its
    image was cached, fetched, or could not be fetched. *)
Theorem reference_registered (markdown : string) (w : world)
    (m : RegexMatch) (pathname : string) :
  m ∈ imageUrlMatches markdown ->
  urlPathname (remoteUrl m) = Some pathname ->
  localPathOf pathname
  ∈ allUsedImages (snd (processMarkdownImages markdown false w)).
Proof.
  intros Hin Hurl. unfold Build.processMarkdownImages.
  destruct (processMatches_registers false (imageUrlMatches markdown)
              markdown w) as (_ & _ & Hreg).
  apply (Hreg m pathname Hin); [|exact Hurl]. now apply (remoteUrl_nonempty markdown).
Qed.

(** X9. The mode changes the rewritten text only: the filesystem, the
    touched set, the console and the requests after externalizing a
    document are the same for the preview and for the static build. *)
Theorem mode_changes_text_only (markdown : string) (w : world) :
  snd (processMarkdownImages markdown true w)
  = snd (processMarkdownImages markdown false w).
Proof. apply processMatches_state. Qed.

(** X10. A document that does not hold the text [](http] has no remote
    image reference: it is returned as it is, and nothing is requested,
    written, logged or registered. *)
Theorem local_document_untouched (markdown : string) (withLiveReload : bool)
    (w : world) :
  JsString.splitAtFirst (chars "](http") (chars markdown) [] = None ->
  processMarkdownImages markdown withLiveReload w = (Ok markdown, w).
Proof.
  intros Hno. unfold Build.processMarkdownImages.
  rewrite (imageUrlMatches_none markdown); [reflexivity|].
  intros before after E. apply (f_equal chars) in E. rewrite !chars_app in E.
  exact (splitAtFirst_None _ _ _ Hno _ _ E).
Qed.

End Externalizer.

(** the reference of [Sample.badReference], whose image cannot be
    fetched *)
Lemma reference_registered_witness :
  Build.localPathOf Sample.cwd "/img.png"
  ∈ allUsedImages (snd (Sample.processMarkdownImages Sample.badReference false
                          Sample.emptySite)).
Proof.
  apply (reference_registered Sample.cwd Sample.pathnameOf Sample.network
           Sample.imagemin Sample.badReference Sample.emptySite
           Sample.badMatch "/img.png").
  - replace (imageUrlMatches Sample.badReference) with [Sample.badMatch]
      by (vm_compute; reflexivity).
    apply list_elem_of_here.
  - vm_compute. reflexivity.
Defined.

(** a document of text only *)
Lemma local_document_untouched_witness :
  Sample.processMarkdownImages "# Setup" true Sample.emptySite
  = (Ok "# Setup", Sample.emptySite).
Proof.
  apply (local_document_untouched Sample.cwd Sample.pathnameOf Sample.network
           Sample.imagemin "# Setup" true Sample.emptySite).
  vm_compute. reflexivity.
Defined.


(** [SampleMore.mixedReferences], externalized: the reference that
    failed is as it was, the other is rewritten *)
Example failed_fetch_mixed_sample :
  fst (Sample.processMarkdownImages SampleMore.mixedReferences false Sample.emptySite)
  = Ok "![x](https://bad.example/a.png) ![y](/img.png)"
  /\ files (snd (Sample.processMarkdownImages SampleMore.mixedReferences false
                   Sample.emptySite)) !! "/site/public/a.png" = None
  /\ requests (snd (Sample.processMarkdownImages SampleMore.mixedReferences false
                      Sample.emptySite))
     = ["https://bad.example/a.png"; "https://good.example/img.png"].
Proof. split_and!; vm_compute; reflexivity. Qed.


End ExternalizerMore.

(** ** What a build pass keeps *)

Module PassSpec.
Import Str Path Nav NavTree Sys Regex Build Pass PathFacts StrFacts.
Import OrphanSpec ExternalizerSpec ExternalizerMore.

Section Keeping.
Variable R : world -> world -> Prop.
Hypothesis R_refl : forall w, R w w.
Hypothesis R_trans : forall w1 w2 w3, R w1 w2 -> R w2 w3 -> R w1 w3.

Lemma Keeps_ret {A} (a : A) : Keeps R (mret a).
Proof. intros w r w' H. inversion H; subst. apply R_refl. Qed.

Lemma Keeps_throw {A} (e : error) : Keeps R (@throw A e).
Proof. intros w r w' H. inversion H; subst. apply R_refl. Qed.

Lemma Keeps_gets {A} (f : world -> A) : Keeps R (gets f).
Proof. intros w r w' H. inversion H; subst. apply R_refl. Qed.

Lemma Keeps_modify (f : world -> world) :
  (forall w, R w (f w)) -> Keeps R (modify f).
Proof. intros Hf w r w' H. inversion H; subst. apply Hf. Qed.

Lemma Keeps_bind {A B} (m : M A) (k : A -> M B) :
  Keeps R m -> (forall a, Keeps R (k a)) -> Keeps R (m ≫= k).
Proof.
  intros Hm Hk w r w' H. unfold mbind, M_bind, bind in H.
  destruct (m w) as [[a|e] w1] eqn:E.
  - apply (R_trans w w1 w'); [now apply (Hm w (Ok a))|now apply (Hk a w1 r)].
  - inversion H; subst. now apply (Hm w (Throw e)).
Qed.

Lemma Keeps_tryCatch {A} (body : M A) (handler : error -> M A) :
  Keeps R body -> (forall e, Keeps R (handler e)) -> Keeps R (tryCatch body handler).
Proof.
  intros Hb Hh w r w' H. unfold tryCatch in H.
  destruct (body w) as [[a|e] w1] eqn:E.
  - inversion H; subst. now apply (Hb w (Ok a)).
  - apply (R_trans w w1 w'); [now apply (Hb w (Throw e))|now apply (Hh e w1 r)].
Qed.

Lemma Keeps_forEach {A} (visit : A -> M unit) (l : list A) :
  (forall x, x ∈ l -> Keeps R (visit x)) -> Keeps R (forEach visit l).
Proof.
  induction l as [|x l IH]; intros Hv.
  - apply Keeps_ret.
  - change (forEach visit (x :: l)) with (visit x ≫= fun _ => forEach visit l).
    apply Keeps_bind; [apply Hv; left|]. intros _. apply IH.
    intros y Hy. apply Hv. now right.
Qed.

End Keeping.

Lemma grows_refl (w : world) : grows w w.
Proof. intros p. auto. Qed.

Lemma grows_trans (w1 w2 w3 : world) : grows w1 w2 -> grows w2 w3 -> grows w1 w3.
Proof.
  intros H1 H2 p. destruct (H1 p) as [A1 B1]. destruct (H2 p) as [A2 B2]. auto.
Qed.

Lemma grows_same (w w' : world) : files w' = files w -> grows w w'.
Proof. intros E p. rewrite E. auto. Qed.

Lemma lookup_mkdir (ds : list string) (f : gmap string node) (p : string) :
  foldr (fun d g => <[d := Dir]> g) f ds !! p
  = if decide (p ∈ ds) then Some Dir else f !! p.
Proof.
  induction ds as [|d ds IH]; simpl.
  - destruct (decide (p ∈ [])) as [H|_]; [inversion H|reflexivity].
  - destruct (decide (d = p)) as [->|Hne].
    + rewrite lookup_insert_eq. destruct (decide (p ∈ p :: ds)) as [_|H]; [reflexivity|].
      exfalso. apply H. left.
    + rewrite lookup_insert_ne by exact Hne. rewrite IH.
      destruct (decide (p ∈ ds)) as [H|H], (decide (p ∈ d :: ds)) as [H'|H'];
        try reflexivity.
      * exfalso. apply H'. now right.
      * apply elem_of_cons in H' as [->|H']; [congruence|contradiction].
Qed.

Lemma Keeps_mkdirSync_grows (p : string) : Keeps grows (mkdirSync p).
Proof.
  intros w r w' H. unfold mkdirSync in H.
  destruct (existsb (isFileAt (files w)) (ancestors p)).
  - inversion H; subst. apply grows_refl.
  - inversion H; subst. intros q. simpl. rewrite lookup_mkdir.
    destruct (decide (q ∈ ancestors p)); eauto.
Qed.

Lemma Keeps_writeFileSync_grows (p : string) (data : list Byte.byte) :
  Keeps grows (writeFileSync p data).
Proof.
  intros w r w' H. unfold writeFileSync in H.
  assert (Hins : forall w1, files w1 = <[p := File data]> (files w) ->
                            files w !! p <> Some Dir -> grows w w1).
  { intros w1 E Hnd q. rewrite E. destruct (decide (p = q)) as [<-|Hne].
    - rewrite lookup_insert_eq. split; [eauto|]. intros Hd. contradiction.
    - rewrite lookup_insert_ne by exact Hne. auto. }
  destruct (files w !! p) as [[d|]|] eqn:E.
  - destruct (isDirectoryAt w (dirname p)); inversion H; subst;
      [apply Hins; [reflexivity|congruence]|apply grows_refl].
  - inversion H; subst. apply grows_refl.
  - destruct (isDirectoryAt w (dirname p)); inversion H; subst;
      [apply Hins; [reflexivity|congruence]|apply grows_refl].
Qed.

Lemma Keeps_consoleLog_grows (text : string) : Keeps grows (consoleLog text).
Proof. intros w r w' H. inversion H; subst. now apply grows_same. Qed.

Lemma lastDot_app (g l : list ascii) (i : nat) (found : option nat) :
  lastDot (g ++ l) i found = lastDot l (i + length g) (lastDot g i found).
Proof.
  revert i found. induction g as [|c g IH]; intros i found; cbn [app lastDot length].
  - now rewrite Nat.add_0_r.
  - rewrite IH. now rewrite Nat.add_succ_r.
Qed.

(** a name that ends with [.html] has no image extension *)
Lemma html_not_image (f : string) :
  endsWith f ".html" = true -> hasImageExtension f = false.
Proof.
  intros H. apply endsWith_split in H.
  change (String.length ".html") with 5%nat in H.
  set (d := dropEnd 5 f) in H.
  assert (Hc : chars f = chars d ++ chars ".html") by (rewrite H at 1; apply chars_app).
  unfold hasImageExtension, extname. rewrite Hc, lastDot_app.
  change (lastDot (chars ".html") (0 + length (chars d)) (lastDot (chars d) 0 None))
    with (Some (0 + length (chars d))%nat).
  cbn [Nat.add]. destruct (length (chars d)) as [|i] eqn:El; [reflexivity|].
  destruct (String.eqb f ".."); [reflexivity|].
  rewrite <- El, drop_app_length. reflexivity.
Qed.

Lemma startsWithChars_short (p r rest : list ascii) :
  Sys.hasSlash p = false ->
  startsWithChars p (r ++ slash :: rest) = true -> startsWithChars p r = true.
Proof.
  unfold Sys.hasSlash. revert r. induction p as [|a p IH]; intros r Hs H;
    [reflexivity|].
  cbn [existsb] in Hs. apply orb_false_iff in Hs as [Ha Hp].
  destruct r as [|b r]; cbn [app startsWithChars] in *.
  - destruct (Ascii.eqb_spec a slash) as [->|Hne]; [|discriminate].
    now rewrite Ascii.eqb_refl in Ha.
  - destruct (Ascii.eqb a b); [|discriminate]. now apply IH.
Qed.

(** the path of an entry of [dir] ends as the entry name does *)
Lemma endsWith_join (dir f suffix : string) :
  isEntryName f = true -> Sys.hasSlash (rev (chars suffix)) = false ->
  endsWith (join dir f) suffix = true -> endsWith f suffix = true.
Proof.
  intros Hf Hs. unfold endsWith.
  rewrite (chars_join dir f (isEntryName_nonempty f Hf)), !rev_app_distr.
  cbn [rev app]. now apply startsWithChars_short.
Qed.

Lemma keepsFiles_refl (w : world) : keepsFiles w w.
Proof. intros p. auto. Qed.

Lemma keepsFiles_trans (w1 w2 w3 : world) :
  keepsFiles w1 w2 -> keepsFiles w2 w3 -> keepsFiles w1 w3.
Proof. intros H12 H23 p Hp. apply H23, H12, Hp. Qed.

Lemma Keeps_mkdirSync_files (p : string) : Keeps keepsFiles (mkdirSync p).
Proof.
  intros w r w' H. unfold mkdirSync in H.
  destruct (existsb (isFileAt (files w)) (ancestors p)) eqn:Hex.
  - inversion H; subst. apply keepsFiles_refl.
  - inversion H; subst. intros q Hq. unfold isFileAt at 1. cbn [files setFiles].
    rewrite lookup_mkdir. destruct (decide (q ∈ ancestors p)) as [Hin|_]; [|exact Hq].
    exfalso. assert (Ht : existsb (isFileAt (files w)) (ancestors p) = true).
    { apply existsb_exists. exists q. split; [now apply list_elem_of_In|exact Hq]. }
    congruence.
Qed.

Lemma writeFileSync_Ok (p : string) (data : list Byte.byte) (w w' : world) :
  writeFileSync p data w = (Ok tt, w') -> files w' = <[p := File data]> (files w).
Proof.
  unfold writeFileSync.
  destruct (files w !! p) as [[d|]|]; try discriminate;
    destruct (isDirectoryAt w (dirname p)); try discriminate;
    intros H; injection H as <-; reflexivity.
Qed.

Lemma Keeps_writeFileSync_files (p : string) (data : list Byte.byte) :
  Keeps keepsFiles (writeFileSync p data).
Proof.
  intros w [[]|e] w' H.
  - apply writeFileSync_Ok in H. intros q Hq. unfold isFileAt in *. rewrite H.
    destruct (decide (p = q)) as [->|Hne];
      [now rewrite lookup_insert_eq|now rewrite lookup_insert_ne].
  - unfold writeFileSync in H.
    destruct (files w !! p) as [[d|]|]; try destruct (isDirectoryAt w (dirname p));
      inversion H; subst; apply keepsFiles_refl.
Qed.

Lemma Keeps_consoleLog_files (text : string) : Keeps keepsFiles (consoleLog text).
Proof. intros w r w' H. inversion H; subst. intros p Hp. exact Hp. Qed.

Lemma forEach_cons {A : Type} (visit : A -> M unit) (x : A) (rest : list A)
    (w : world) :
  forEach visit (x :: rest) w
  = match visit x w with
    | (Ok _, w') => forEach visit rest w'
    | (Throw e, w') => (Throw e, w')
    end.
Proof. reflexivity. Qed.

Section Pass.
Variable cwd : string.
Variable urlPathname : string -> option string.
Variable network : nat -> string -> option Response.
Variable imagemin : list Byte.byte -> option (list Byte.byte).
Variable markedParse :
  (option string -> option string -> string -> string) -> string -> string.
Variable sanitizeHtml : string -> SanitizeOptions -> string.
Variable defaultAllowedTags : list string.
Variable defaultAllowedAttributes : list (string * list string).
Variable createHtmlTemplate : string -> string -> string -> bool -> string.
Variable localeCompare : string -> string -> Z.

Abbreviation publicDir := (Build.publicDir cwd).
Abbreviation imageDir := (Build.imageDir cwd).
Abbreviation processMarkdownImages :=
  (Build.processMarkdownImages cwd urlPathname network imagemin).
Abbreviation processFile :=
  (Build.processFile cwd urlPathname network imagemin markedParse sanitizeHtml
     defaultAllowedTags defaultAllowedAttributes createHtmlTemplate).
Abbreviation processEntry :=
  (Build.processEntry cwd urlPathname network imagemin markedParse sanitizeHtml
     defaultAllowedTags defaultAllowedAttributes createHtmlTemplate).
Abbreviation processFiles :=
  (Build.processFiles cwd urlPathname network imagemin markedParse sanitizeHtml
     defaultAllowedTags defaultAllowedAttributes createHtmlTemplate).
Abbreviation buildPages :=
  (Build.buildPages cwd urlPathname network imagemin markedParse sanitizeHtml
     defaultAllowedTags defaultAllowedAttributes createHtmlTemplate localeCompare).
Abbreviation compile :=
  (Build.compile cwd urlPathname network imagemin markedParse sanitizeHtml
     defaultAllowedTags defaultAllowedAttributes createHtmlTemplate localeCompare).
Abbreviation cleanupOrphanedImages := (Build.cleanupOrphanedImages cwd).
Abbreviation writePages :=
  (Pass.writePages cwd urlPathname network imagemin markedParse sanitizeHtml
     defaultAllowedTags defaultAllowedAttributes createHtmlTemplate localeCompare).
Abbreviation buildOutput :=
  (Pass.buildOutput cwd urlPathname network imagemin markedParse sanitizeHtml
     defaultAllowedTags defaultAllowedAttributes createHtmlTemplate localeCompare).

Lemma Keeps_processMarkdownImages_grows (markdown : string) (withLiveReload : bool) :
  Keeps grows (processMarkdownImages markdown withLiveReload).
Proof.
  intros w r w' H.
  destruct (processMarkdownImages_frame cwd urlPathname network imagemin markdown
              withLiveReload w) as (t & w1 & E & Hkeep & _).
  rewrite E in H. inversion H; subst. intros p. split.
  - intros [n Hn]. apply Hkeep in Hn. eauto.
  - apply Hkeep.
Qed.

(** the pages of a listing are built under any relation the four
    operations of [processFiles] keep *)
Lemma Keeps_processFiles (R : world -> world -> Prop) :
  (forall w, R w w) ->
  (forall w1 w2 w3, R w1 w2 -> R w2 w3 -> R w1 w3) ->
  (forall p, Keeps R (mkdirSync p)) ->
  (forall p data, Keeps R (writeFileSync p data)) ->
  (forall text, Keeps R (consoleLog text)) ->
  (forall markdown f, Keeps R (processMarkdownImages markdown f)) ->
  forall navTree withLiveReload entries outBaseDir webPathPrefix,
    Keeps R (processFiles navTree withLiveReload entries outBaseDir webPathPrefix).
Proof.
  intros Hrefl Htrans Hmk Hwr Hlog Hpmi navTree withLiveReload entries.
  unfold Build.processFiles.
  induction entries as [entries IH] using NavTreeSpec.listing_ind.
  intros outBaseDir webPathPrefix. apply Keeps_forEach; auto.
  intros e Hin. destruct e as [n content|n sub|n].
  - cbn [Build.processEntry]. destruct (endsWith n ".md"); [|now apply Keeps_ret].
    unfold Build.processFile.
    apply Keeps_bind; auto. intros markdownContent.
    apply Keeps_bind; auto.
  - change (Keeps R (mkdirSync (join outBaseDir n)
                     ≫= fun _ => forEach (processEntry navTree withLiveReload
                                            (join outBaseDir n)
                                            (webPathPrefix +:+ n +:+ "/")) sub)).
    apply Keeps_bind; auto. intros _. apply (IH (DDir n sub) Hin).
  - cbn [Build.processEntry]. now apply Keeps_ret.
Qed.

Lemma buildPages_run (withLiveReload : bool) (w : world) :
  buildPages withLiveReload w = buildOutput withLiveReload (seeded w).
Proof.
  unfold Build.buildPages, Pass.buildOutput, Pass.writePages, seeded. do 2 unfold_monad.
  cbn [source setUsed addLine]. destruct (source w); reflexivity.
Qed.

Lemma Keeps_buildOutput_grows : Keeps grows (buildOutput true).
Proof.
  unfold Pass.buildOutput, Pass.writePages.
  apply (Keeps_bind grows grows_trans);
    [exact (Keeps_gets grows grows_refl _)|intros present].
  apply (Keeps_bind grows grows_trans);
    [rewrite andb_false_r; exact (Keeps_ret grows grows_refl tt)|intros _].
  apply (Keeps_bind grows grows_trans); [apply Keeps_mkdirSync_grows|intros _].
  apply (Keeps_bind grows grows_trans);
    [exact (Keeps_gets grows grows_refl _)|intros entries].
  apply (Keeps_processFiles grows grows_refl grows_trans Keeps_mkdirSync_grows
           Keeps_writeFileSync_grows Keeps_consoleLog_grows
           Keeps_processMarkdownImages_grows).
Qed.

Lemma files_seeded (w : world) : files (seeded w) = files w.
Proof. unfold seeded. destruct (source w); reflexivity. Qed.

Lemma source_seeded (w : world) :
  source (seeded w) = Some (default [DFile "index.md" seedPage] (source w)).
Proof. unfold seeded. destruct (source w) eqn:E; simpl; [exact E|reflexivity]. Qed.

(** the state [compile] ends in, from the one [buildPages] ends in *)
Lemma compile_state (withLiveReload : bool) (w : world) :
  let w1 := snd (buildPages withLiveReload w) in
  (files (snd (compile withLiveReload w)) = files w1
   /\ allUsedImages (snd (compile withLiveReload w)) = allUsedImages w1
   /\ source (snd (compile withLiveReload w)) = source w1)
  \/ (exists r, buildPages withLiveReload w = (Ok tt, w1)
                /\ files (snd (compile withLiveReload w))
                   = files (snd (cleanupOrphanedImages w1))
                /\ allUsedImages (snd (compile withLiveReload w))
                   = allUsedImages (snd (cleanupOrphanedImages w1))
                /\ source (snd (compile withLiveReload w))
                   = source (snd (cleanupOrphanedImages w1))
                /\ fst (cleanupOrphanedImages w1) = r
                /\ (r = Ok tt <-> fst (compile withLiveReload w) = Ok tt)).
Proof.
  cbv zeta.
  rewrite (compile_run cwd urlPathname network imagemin markedParse sanitizeHtml
             defaultAllowedTags defaultAllowedAttributes createHtmlTemplate
             localeCompare).
  destruct (buildPages withLiveReload w) as [[[]|e] w1]; [|left; auto].
  right. cbn [snd]. exists (fst (cleanupOrphanedImages w1)).
  destruct (cleanupOrphanedImages w1) as [[[]|e] w2]; cbn [fst snd];
    split_and!; try reflexivity; split; intros H; try reflexivity; discriminate.
Qed.

(** X11. A pass of the preview build removes nothing but entries with an
    image extension that lie directly in the output directory: every
    other path that was there is still there, whether the pass completes
    or throws. *)
Theorem preview_pass_removes_images_only (w : world) (p : string) :
  is_Some (files w !! p) ->
  is_Some (files (snd (compile true w)) !! p)
  \/ exists f, p = join imageDir f /\ isEntryName f = true
               /\ hasImageExtension f = true.
Proof.
  intros Hp.
  assert (Hgrow : is_Some (files (snd (buildPages true w)) !! p)).
  { rewrite buildPages_run.
    destruct (buildOutput true (seeded w)) as [r w1] eqn:E.
    apply Keeps_buildOutput_grows in E. apply E. now rewrite files_seeded. }
  destruct (compile_state true w) as [(Hf & _)|(r & _ & Hf & _)]; rewrite Hf;
    [now left|].
  destruct (cleanupOrphanedImages (snd (buildPages true w))) as [r' w2] eqn:Hc.
  apply cleanup_changes in Hc as [_ Hch]. cbn [snd].
  destruct (Hch p) as [Hsame|(_ & f & Hin & Ho & ->)]; [left; now rewrite Hsame|].
  right. exists f. apply elem_of_listing in Hin as [Hname _].
  unfold Build.isOrphan in Ho. apply andb_true_iff in Ho as [Hext _]. auto.
Qed.

(** X13. The touched set of an earlier pass does not reach the next one:
    a pass gives the same result whatever the set holds when it starts. *)
Theorem touched_set_reset (withLiveReload : bool) (w : world) (used : gset string) :
  compile withLiveReload (setUsed used w) = compile withLiveReload w.
Proof.
  assert (Hs : seeded (setUsed used w) = seeded w).
  { unfold seeded. cbn [source setUsed]. destruct (source w); reflexivity. }
  rewrite !(compile_run cwd urlPathname network imagemin markedParse sanitizeHtml
              defaultAllowedTags defaultAllowedAttributes createHtmlTemplate
              localeCompare).
  now rewrite !buildPages_run, Hs.
Qed.

Lemma buildOutput_run (withLiveReload : bool) (w : world) :
  buildOutput withLiveReload w
  = writePages withLiveReload
      (if match files w !! publicDir with Some _ => true | None => false end
          && negb withLiveReload
       then setFiles (filter (fun kv => isUnder publicDir (fst kv) = false) (files w)) w
       else w).
Proof.
  unfold Pass.buildOutput, existsSync, rmSync. unfold_monad.
  destruct (match files w !! publicDir with Some _ => true | None => false end
            && negb withLiveReload); reflexivity.
Qed.

Lemma Keeps_writePages_grows (withLiveReload : bool) :
  Keeps grows (writePages withLiveReload).
Proof.
  unfold Pass.writePages.
  apply (Keeps_bind grows grows_trans); [apply Keeps_mkdirSync_grows|intros _].
  apply (Keeps_bind grows grows_trans);
    [exact (Keeps_gets grows grows_refl _)|intros entries].
  apply (Keeps_processFiles grows grows_refl grows_trans Keeps_mkdirSync_grows
           Keeps_writeFileSync_grows Keeps_consoleLog_grows
           Keeps_processMarkdownImages_grows).
Qed.

Lemma ancestorsFrom_self (l seen : list ascii) :
  seen <> [] \/ l <> [] -> ofChars (rev seen ++ l) ∈ ancestorsFrom seen l.
Proof.
  revert seen. induction l as [|c l IH]; intros seen H.
  - rewrite app_nil_r. destruct seen as [|s seen]; [destruct H; congruence|].
    cbn [ancestorsFrom]. apply list_elem_of_here.
  - assert (Hnext : ofChars (rev seen ++ c :: l) ∈ ancestorsFrom (c :: seen) l).
    { replace (rev seen ++ c :: l) with (rev (c :: seen) ++ l)
        by (cbn [rev]; now rewrite <- app_assoc).
      apply IH. left. discriminate. }
    cbn [ancestorsFrom]. destruct (Ascii.eqb c slash); [|exact Hnext].
    destruct seen as [|s seen]; [exact Hnext|].
    apply list_elem_of_further. exact Hnext.
Qed.

Lemma ancestors_self (p : string) : p <> "" -> p ∈ ancestors p.
Proof.
  intros Hp. unfold ancestors.
  rewrite <- (ofChars_chars p) at 1.
  apply (ancestorsFrom_self (chars p) []). right.
  intros E. apply Hp. rewrite <- (ofChars_chars p), E. reflexivity.
Qed.

Lemma publicDir_nonempty : publicDir <> "".
Proof.
  unfold Build.publicDir, join. destruct cwd; discriminate.
Qed.

(** a pass that gets through the writing of the pages leaves the output
    directory in place *)
Lemma writePages_dir (withLiveReload : bool) (w w' : world) :
  writePages withLiveReload w = (Ok tt, w') -> files w' !! publicDir = Some Dir.
Proof.
  unfold Pass.writePages. unfold_monad. unfold mkdirSync at 1.
  destruct (existsb (isFileAt (files w)) (ancestors publicDir)); [discriminate|].
  cbn [source setFiles]. intros H.
  apply (Keeps_processFiles grows grows_refl grows_trans Keeps_mkdirSync_grows
           Keeps_writeFileSync_grows Keeps_consoleLog_grows
           Keeps_processMarkdownImages_grows) in H.
  apply H. cbn [files setFiles]. rewrite lookup_mkdir.
  destruct (decide (publicDir ∈ ancestors publicDir)) as [_|Hn]; [reflexivity|].
  exfalso. apply Hn, ancestors_self, publicDir_nonempty.
Qed.

Lemma cleanup_removes (w w' : world) (f : string) :
  cleanupOrphanedImages w = (Ok tt, w') ->
  files w !! imageDir = Some Dir ->
  f ∈ listing imageDir (files w) -> Build.isOrphan cwd w f = true ->
  files w' !! join imageDir f = None.
Proof.
  rewrite cleanup_run. cbv zeta. intros H Hd Hin Ho. rewrite Hd in H.
  destruct (Build.sweep cwd _ _) as [[[]|e] w1] eqn:Hs; [|discriminate].
  injection H as <-. cbn [files addLine].
  eapply sweep_removes; [exact Hs|exact Hin|].
  rewrite <- Ho. now apply isOrphan_used.
Qed.

Lemma compile_Ok (withLiveReload : bool) (w w' : world) :
  compile withLiveReload w = (Ok tt, w') ->
  exists w1 w2, buildPages withLiveReload w = (Ok tt, w1)
                /\ cleanupOrphanedImages w1 = (Ok tt, w2)
                /\ w' = addLine (Log "Build complete!") w2.
Proof.
  rewrite (compile_run cwd urlPathname network imagemin markedParse sanitizeHtml
             defaultAllowedTags defaultAllowedAttributes createHtmlTemplate
             localeCompare).
  destruct (buildPages withLiveReload w) as [[[]|e] w1]; [|discriminate].
  destruct (cleanupOrphanedImages w1) as [[[]|e] w2] eqn:Hc; [|discriminate].
  intros H. injection H as <-. exists w1, w2. auto.
Qed.

(** X14. After a pass that completes, every file with an image extension
    directly in the output directory is in the touched set: the files
    and the set agree. *)
Theorem images_left_are_touched
    (withLiveReload : bool) (w w' : world) (f : string) :
  compile withLiveReload w = (Ok tt, w') ->
  isEntryName f = true -> hasImageExtension f = true ->
  is_Some (files w' !! join imageDir f) ->
  join imageDir f ∈ allUsedImages w'.
Proof.
  intros Hc Hname Hext Hfile.
  apply compile_Ok in Hc as (w1 & w2 & Hb & Hcl & ->).
  cbn [files allUsedImages addLine] in *.
  rewrite buildPages_run, buildOutput_run in Hb. apply writePages_dir in Hb.
  destruct (cleanup_changes _ _ _ _ Hcl) as [Hu Hch]. rewrite Hu.
  destruct (decide (join imageDir f ∈ allUsedImages w1)) as [Hin|Hout]; [exact Hin|].
  exfalso.
  assert (Hl : f ∈ listing imageDir (files w1)).
  { apply elem_of_listing. split; [exact Hname|].
    destruct (Hch (join imageDir f)) as [<-|[Hnone _]]; [exact Hfile|].
    rewrite Hnone in Hfile. destruct Hfile; discriminate. }
  assert (Ho : Build.isOrphan cwd w1 f = true).
  { unfold Build.isOrphan, isUsed. rewrite Hext. cbn [andb].
    now rewrite bool_decide_eq_false_2. }
  rewrite (cleanup_removes w1 w2 f Hcl Hb Hl Ho) in Hfile.
  destruct Hfile; discriminate.
Qed.


Lemma seeded_setFiles (old : gmap string node) (w : world) :
  seeded (setFiles old w) = setFiles old (seeded w).
Proof. unfold seeded. cbn [source setFiles]. destruct (source w); reflexivity. Qed.

Lemma setFiles_setFiles (f g : gmap string node) (w : world) :
  setFiles f (setFiles g w) = setFiles f w.
Proof. reflexivity. Qed.

Lemma filter_outside (dir : string) (f g : gmap string node) :
  (forall p, isUnder dir p = false -> f !! p = g !! p) ->
  filter (fun kv => isUnder dir (fst kv) = false) f
  = filter (fun kv => isUnder dir (fst kv) = false) g.
Proof.
  intros H. apply map_eq. intros p. apply option_eq. intros x.
  rewrite !map_lookup_filter_Some. cbn [fst].
  split; intros [Hx Hp]; (split; [|exact Hp]); [rewrite <- H|rewrite H]; auto.
Qed.

(** X15. The one-shot build starts from an empty output directory: what
    the output directory held before has no effect on the result of the
    pass, neither on what it returns nor on the state it leaves. *)
Theorem build_ignores_old_output (w : world) (old : gmap string node) :
  is_Some (files w !! publicDir) -> is_Some (old !! publicDir) ->
  (forall p, isUnder publicDir p = false -> old !! p = files w !! p) ->
  compile false (setFiles old w) = compile false w.
Proof.
  intros [n Hn] [n' Hn'] Hout.
  rewrite !(compile_run cwd urlPathname network imagemin markedParse sanitizeHtml
              defaultAllowedTags defaultAllowedAttributes createHtmlTemplate
              localeCompare).
  rewrite !buildPages_run, !buildOutput_run, seeded_setFiles.
  cbn [files setFiles]. rewrite files_seeded, Hn, Hn'. cbn [andb negb].
  rewrite setFiles_setFiles, (filter_outside publicDir old (files w) Hout).
  reflexivity.
Qed.

Lemma join_below (dir n : string) : isEntryName n = true -> join dir n <> dir.
Proof.
  intros Hn E. rewrite (join_entry dir n Hn) in E.
  apply (f_equal chars) in E. rewrite chars_app in E.
  apply (f_equal (@length ascii)) in E. rewrite length_app in E.
  destruct (chars ("/" +:+ n)) eqn:El; [discriminate|]. cbn [length] in E. lia.
Qed.

Lemma sweep_nothing (l : list string) (w : world) :
  (forall f, f ∈ l -> Build.isOrphan cwd w f = false) ->
  Build.sweep cwd l w = (Ok tt, w).
Proof.
  induction l as [|file rest IH]; intros H; [reflexivity|].
  rewrite sweep_cons, sweepFile_run, (H file) by apply list_elem_of_here.
  apply IH. intros f Hf. apply H. now apply list_elem_of_further.
Qed.

(** X16. The Orphan Collector is idempotent: run again after a run that
    returned, it returns and leaves the filesystem and the touched set
    as they are. *)
Theorem collector_idempotent (w w1 : world) :
  cleanupOrphanedImages w = (Ok tt, w1) ->
  exists w2, cleanupOrphanedImages w1 = (Ok tt, w2)
             /\ files w2 = files w1 /\ allUsedImages w2 = allUsedImages w1.
Proof.
  intros H. destruct (cleanup_changes _ _ _ _ H) as [Hu Hch].
  assert (Hdir : files w1 !! imageDir = files w !! imageDir).
  { destruct (Hch imageDir) as [E|(_ & f & Hin & _ & E)]; [exact E|].
    apply elem_of_listing in Hin as [Hn _]. symmetry in E.
    now apply join_below in E. }
  rewrite (cleanup_run cwd w1). cbv zeta. rewrite Hdir.
  destruct (files w !! imageDir) as [[d|]|] eqn:Hd.
  - rewrite cleanup_run in H. cbv zeta in H. rewrite Hd in H. discriminate.
  - rewrite sweep_nothing; [eexists; split_and!; reflexivity|].
    intros f Hin. rewrite (isOrphan_used cwd w1) by reflexivity.
    destruct (Build.isOrphan cwd w1 f) eqn:Ho; [exfalso|reflexivity].
    apply elem_of_listing in Hin as [Hn Hsome].
    assert (Hin : f ∈ listing imageDir (files w)).
    { apply elem_of_listing. split; [exact Hn|].
      destruct (Hch (join imageDir f)) as [<-|[Hnone _]]; [exact Hsome|].
      rewrite Hnone in Hsome. destruct Hsome; discriminate. }
    rewrite (cleanup_removes w w1 f H Hd Hin) in Hsome;
      [destruct Hsome; discriminate|].
    rewrite <- Ho. symmetry. now apply isOrphan_used.
  - eexists; split_and!; reflexivity.
Qed.

Lemma Keeps_processMarkdownImages_files (markdown : string) (withLiveReload : bool) :
  Keeps keepsFiles (processMarkdownImages markdown withLiveReload).
Proof.
  intros w r w' H.
  destruct (processMarkdownImages_frame cwd urlPathname network imagemin markdown
              withLiveReload w) as (t & w1 & E & Hkeep & _).
  rewrite E in H. inversion H; subst. intros p Hp. unfold isFileAt in *.
  destruct (files w !! p) as [n|] eqn:Hn; [|discriminate].
  now rewrite (Hkeep p n Hn).
Qed.

Lemma Keeps_processFiles_files navTree withLiveReload entries outBaseDir webPathPrefix :
  Keeps keepsFiles
    (processFiles navTree withLiveReload entries outBaseDir webPathPrefix).
Proof.
  apply (Keeps_processFiles keepsFiles keepsFiles_refl keepsFiles_trans
           Keeps_mkdirSync_files Keeps_writeFileSync_files Keeps_consoleLog_files
           Keeps_processMarkdownImages_files).
Qed.

(** the page of a markdown file is a file once [processFile] has returned *)
Lemma processFile_page navTree withLiveReload name content outBaseDir webPathPrefix
    (w w' : world) :
  processFile navTree withLiveReload name content outBaseDir webPathPrefix w
  = (Ok tt, w') ->
  isFileAt (files w') (join outBaseDir (mdToHtml name)) = true.
Proof.
  unfold Build.processFile. unfold_monad.
  destruct (processMarkdownImages_frame cwd urlPathname network imagemin content
              withLiveReload w) as (t & w1 & E & _).
  rewrite E.
  destruct (writeFileSync _ _ w1) as [[[]|e] w2] eqn:Hw; [|discriminate].
  intros H. injection H as <-. apply writeFileSync_Ok in Hw.
  unfold isFileAt. cbn [files addLine]. now rewrite Hw, lookup_insert_eq.
Qed.

(** every page of the listing is a file once [processFiles] has returned *)
Lemma processFiles_pages navTree withLiveReload entries :
  forall outBaseDir webPathPrefix w w',
    processFiles navTree withLiveReload entries outBaseDir webPathPrefix w
    = (Ok tt, w') ->
    forall p, p ∈ pagePaths outBaseDir entries -> isFileAt (files w') p = true.
Proof.
  induction entries as [entries IH] using NavTreeSpec.listing_ind.
  intros outBaseDir webPathPrefix.
  assert (Hsub : forall l, (forall d, d ∈ l -> d ∈ entries) ->
            forall w w',
              processFiles navTree withLiveReload l outBaseDir webPathPrefix w
              = (Ok tt, w') ->
              forall p, p ∈ pagePaths outBaseDir l -> isFileAt (files w') p = true).
  { induction l as [|x rest IHl]; intros Hl w w' H p Hp; [inversion Hp|].
    unfold Build.processFiles in H. rewrite forEach_cons in H.
    destruct (processEntry navTree withLiveReload outBaseDir webPathPrefix x w)
      as [[[]|e] w1] eqn:Hx; [|discriminate].
    unfold pagePaths in Hp. cbn [flat_map] in Hp.
    apply elem_of_app in Hp as [Hp|Hp].
    - apply (Keeps_processFiles_files navTree withLiveReload rest outBaseDir
               webPathPrefix w1 _ w' H).
      destruct x as [n content|n sub|n]; cbn [direntPages] in Hp.
      + cbn [Build.processEntry] in Hx.
        destruct (endsWith n ".md"); [|inversion Hp].
        apply list_elem_of_singleton in Hp as ->.
        eapply processFile_page, Hx.
      + change (processEntry navTree withLiveReload outBaseDir webPathPrefix
                  (DDir n sub) w)
          with ((mkdirSync (join outBaseDir n)
                 ≫= fun _ => processFiles navTree withLiveReload sub
                               (join outBaseDir n) (webPathPrefix +:+ n +:+ "/")) w)
          in Hx.
        unfold_monad.
        destruct (mkdirSync (join outBaseDir n) w) as [[[]|e] w0]; [|discriminate].
        apply (IH (DDir n sub) (Hl _ (list_elem_of_here _ _)) _ _ _ _ Hx p Hp).
      + inversion Hp.
    - apply (IHl (fun d Hd => Hl d (list_elem_of_further _ _ _ Hd)) w1 w' H p Hp). }
  intros w w' H p Hp. apply (Hsub entries (fun d Hd => Hd) w w' H p Hp).
Qed.

Lemma join_html (dir d : string) :
  endsWith (join dir (d +:+ ".html")) ".html" = true.
Proof.
  unfold join.
  replace (String.eqb (d +:+ ".html") "") with false by (now destruct d).
  rewrite <- !StrFacts.string_append_assoc. apply endsWith_app.
Qed.

Lemma pagePaths_html (entries : list Dirent) :
  forall outBaseDir p, p ∈ pagePaths outBaseDir entries -> endsWith p ".html" = true.
Proof.
  induction entries as [entries IH] using NavTreeSpec.listing_ind.
  intros outBaseDir p Hp. unfold pagePaths in Hp.
  apply list_elem_of_In, in_flat_map in Hp as (e & He & Hp).
  apply list_elem_of_In in He, Hp.
  destruct e as [n content|n sub|n]; cbn [direntPages] in Hp.
  - destruct (endsWith n ".md") eqn:Hmd; [|inversion Hp].
    apply list_elem_of_singleton in Hp as ->.
    rewrite (NavTreeSpec.mdToHtml_markdown n Hmd). apply join_html.
  - apply (IH (DDir n sub) He (join outBaseDir n) p Hp).
  - inversion Hp.
Qed.

(** the page of every markdown file is a file after a pass that
    completes *)
Lemma pages_are_files (withLiveReload : bool) (w w' : world) (p : string) :
  compile withLiveReload w = (Ok tt, w') ->
  p ∈ pagePaths publicDir (default [DFile "index.md" seedPage] (source w)) ->
  isFileAt (files w') p = true.
Proof.
  intros Hc Hp.
  apply compile_Ok in Hc as (w1 & w2 & Hb & Hcl & ->). cbn [files addLine].
  assert (H1 : isFileAt (files w1) p = true).
  { rewrite buildPages_run, buildOutput_run in Hb.
    unfold Pass.writePages in Hb. unfold_monad.
    destruct (mkdirSync publicDir _) as [[[]|e] w0] eqn:Hmk; [|discriminate].
    assert (Hs : source w0 = Some (default [DFile "index.md" seedPage] (source w))).
    { unfold mkdirSync in Hmk.
      destruct (existsb _ _); [discriminate|]. injection Hmk as <-.
      cbn [source setFiles].
      destruct (_ && _); cbn [source setFiles]; apply source_seeded. }
    rewrite Hs in Hb. cbn [default] in Hb.
    apply (processFiles_pages _ _ _ _ _ _ _ Hb p Hp). }
  destruct (cleanup_changes _ _ _ _ Hcl) as [_ Hch].
  unfold isFileAt in *.
  destruct (Hch p) as [->|(_ & f & Hin & Ho & ->)]; [exact H1|].
  exfalso. apply elem_of_listing in Hin as [Hn _].
  apply pagePaths_html in Hp. apply (endsWith_join _ f ".html" Hn) in Hp;
    [|reflexivity].
  apply html_not_image in Hp. unfold Build.isOrphan in Ho.
  rewrite Hp in Ho. discriminate.
Qed.

(** X17. After a pass that completes, the page of every markdown file of
    the source tree is a file in the output directory, at the place of
    the document in the tree: no later step of the pass, the Orphan
    Collector included, removes a page or turns it into a directory. *)
Theorem pages_written (withLiveReload : bool) (w w' : world) (p : string) :
  compile withLiveReload w = (Ok tt, w') ->
  p ∈ pagePaths publicDir (default [DFile "index.md" seedPage] (source w)) ->
  isFileAt (files w') p = true.
Proof. apply pages_are_files. Qed.

Lemma join_nonempty (dir x : string) : x <> "" -> join dir x = dir +:+ "/" +:+ x.
Proof. intros Hx. unfold join. apply String.eqb_neq in Hx. now rewrite Hx. Qed.

(** a link of the navigation model is the web path prefix followed by
    the place of a page below the output directory *)
Lemma links_are_pages (entries : list Dirent) :
  forall webPathPrefix outBaseDir p,
    wellNamed entries = true ->
    p ∈ allPaths (Nav.buildNavTree localeCompare entries webPathPrefix) ->
    p <> "#" ->
    exists rest, p = webPathPrefix +:+ rest
                 /\ outBaseDir +:+ "/" +:+ rest ∈ pagePaths outBaseDir entries.
Proof.
  induction entries as [entries IH] using NavTreeSpec.listing_ind.
  intros webPathPrefix outBaseDir p Hwf. rewrite NavSpec.buildNavTree_unfold.
  unfold allPaths.
  rewrite flat_map_app, elem_of_app, !list_elem_of_In, !in_flat_map.
  intros [(item & Hitem & Hp)|(item & Hitem & Hp)] Hne.
  - apply in_map_iff in Hitem as (d & <- & Hd).
    apply list_elem_of_In, NavTreeSpec.elem_of_sortedFiles in Hd as [Hin Hmd].
    cbn [fileItem navPaths] in Hp. destruct Hp as [<-|[]].
    exists (mdToHtml (name d)). split; [reflexivity|].
    unfold isMarkdown in Hmd. apply andb_true_iff in Hmd as [Hfile Hmd].
    destruct d as [n c|n es|n]; try discriminate. cbn [name] in *.
    apply list_elem_of_In, in_flat_map. exists (DFile n c).
    split; [now apply list_elem_of_In|]. cbn [direntPages]. rewrite Hmd.
    left. apply join_nonempty. rewrite (NavTreeSpec.mdToHtml_markdown n Hmd).
    now destruct (dropEnd 3 n).
  - apply in_flat_map in Hitem as (d & Hd & Hitem).
    apply list_elem_of_In, NavTreeSpec.elem_of_sortedDirs in Hd as [Hin Hdir].
    destruct d as [n c|n sub|n]; try discriminate.
    assert (Hd : direntNamed (DDir n sub) = true).
    { unfold wellNamed in Hwf. rewrite forallb_forall in Hwf.
      now apply Hwf, list_elem_of_In. }
    cbn [direntNamed] in Hd. apply andb_true_iff in Hd as [Hn Hsub].
    apply negb_true_iff, String.eqb_neq in Hn.
    destruct (Nav.childrenOf localeCompare webPathPrefix (DDir n sub))
      as [|c cs] eqn:Hc; [inversion Hitem|].
    cbn [dirItem] in Hitem. destruct Hitem as [<-|[]].
    assert (Hbelow : forall q, q ∈ allPaths (c :: cs) -> q <> "#" ->
              exists rest, q = webPathPrefix +:+ rest
                           /\ outBaseDir +:+ "/" +:+ rest
                              ∈ pagePaths outBaseDir entries).
    { intros q Hq Hqne. rewrite <- Hc in Hq. unfold Nav.childrenOf in Hq.
      destruct (IH (DDir n sub) Hin _ (join outBaseDir n) q Hsub Hq Hqne)
        as (rest & -> & Hpage).
      exists (n +:+ "/" +:+ rest). split.
      - unfold subPrefix. cbn [name]. now rewrite !string_append_assoc.
      - apply list_elem_of_In, in_flat_map. exists (DDir n sub).
        split; [now apply list_elem_of_In|]. apply list_elem_of_In.
        cbn [direntPages]. rewrite (join_nonempty outBaseDir n Hn) in Hpage |- *.
        rewrite !string_append_assoc in Hpage. exact Hpage. }
    cbn [navPaths] in Hp. destruct Hp as [<-|Hp].
    + unfold dirPath in *. destruct (List.find isIndexPage (c :: cs)) as [i|] eqn:Hf;
        [|congruence].
      apply find_some in Hf as [Hi _]. apply Hbelow; [|exact Hne].
      unfold allPaths. apply list_elem_of_In, in_flat_map. exists i.
      split; [exact Hi|]. destruct i. cbn. now left.
    + apply Hbelow; [now apply list_elem_of_In|exact Hne].
Qed.

(** X18. The sidebar has no dead link: after a pass that completes, every
    link of the navigation model other than the placeholder [#] is the
    web path of a file in the output directory. *)
Theorem sidebar_links_exist (withLiveReload : bool) (w w' : world) (p : string) :
  compile withLiveReload w = (Ok tt, w') ->
  wellNamed (default [DFile "index.md" seedPage] (source w)) = true ->
  p ∈ allPaths (Nav.buildNavTree localeCompare
                  (default [DFile "index.md" seedPage] (source w)) "/") ->
  p <> "#" ->
  isFileAt (files w') (publicDir +:+ p) = true.
Proof.
  intros Hc Hwf Hp Hne.
  destruct (links_are_pages _ "/" publicDir p Hwf Hp Hne) as (rest & -> & Hpage).
  exact (pages_are_files withLiveReload w w' _ Hc Hpage).
Qed.

Lemma keepsUsed_refl (w : world) : keepsUsed w w.
Proof. unfold keepsUsed. set_solver. Qed.

Lemma keepsUsed_trans (w1 w2 w3 : world) :
  keepsUsed w1 w2 -> keepsUsed w2 w3 -> keepsUsed w1 w3.
Proof. unfold keepsUsed. set_solver. Qed.

Lemma Keeps_processFiles_used navTree withLiveReload entries outBaseDir webPathPrefix :
  Keeps keepsUsed
    (processFiles navTree withLiveReload entries outBaseDir webPathPrefix).
Proof.
  apply (Keeps_processFiles keepsUsed keepsUsed_refl keepsUsed_trans).
  - intros p w r w' H. unfold mkdirSync in H.
    destruct (existsb _ _); inversion H; subst; intros x Hx; exact Hx.
  - intros p data w r w' H. unfold writeFileSync in H.
    destruct (files w !! p) as [[d|]|]; try destruct (isDirectoryAt w (dirname p));
      inversion H; subst; intros x Hx; exact Hx.
  - intros text w r w' H. inversion H; subst. intros x Hx. exact Hx.
  - intros markdown f w r w' H.
    destruct (processMarkdownImages_frame cwd urlPathname network imagemin markdown
                f w) as (t & w1 & E & _ & Hu & _).
    rewrite E in H. inversion H; subst. exact Hu.
Qed.

(** the references of a document are in the touched set once
    [processFile] has returned *)
Lemma processFile_registers navTree withLiveReload name content outBaseDir
    webPathPrefix (w w' : world) (m : RegexMatch) (pathname : string) :
  processFile navTree withLiveReload name content outBaseDir webPathPrefix w
  = (Ok tt, w') ->
  m ∈ imageUrlMatches content -> urlPathname (remoteUrl m) = Some pathname ->
  Build.localPathOf cwd pathname ∈ allUsedImages w'.
Proof.
  intros H Hm Hurl.
  destruct (processMatches_registers cwd urlPathname network imagemin withLiveReload
              (imageUrlMatches content) content w) as (_ & _ & Hreg).
  specialize (Hreg m pathname Hm (ExternalizerMore.remoteUrl_nonempty content m Hm) Hurl).
  revert H. unfold Build.processFile, Build.processMarkdownImages. unfold_monad.
  destruct (Build.processMatches cwd urlPathname network imagemin withLiveReload
              (imageUrlMatches content) content w) as [[t|e] w1]; [|discriminate].
  cbn [snd] in Hreg.
  destruct (writeFileSync _ _ w1) as [[[]|e] w2] eqn:Hw; [|discriminate].
  intros H. injection H as <-. cbn [allUsedImages addLine].
  unfold writeFileSync in Hw.
  destruct (files w1 !! _) as [[d|]|]; try discriminate;
    destruct (isDirectoryAt w1 _); try discriminate;
    injection Hw as <-; exact Hreg.
Qed.

Lemma processFiles_registers navTree withLiveReload entries (m : RegexMatch)
    (pathname : string) :
  urlPathname (remoteUrl m) = Some pathname ->
  forall outBaseDir webPathPrefix w w',
    processFiles navTree withLiveReload entries outBaseDir webPathPrefix w
    = (Ok tt, w') ->
    forall content, content ∈ documents entries -> m ∈ imageUrlMatches content ->
                    Build.localPathOf cwd pathname ∈ allUsedImages w'.
Proof.
  intros Hurl. induction entries as [entries IH] using NavTreeSpec.listing_ind.
  intros outBaseDir webPathPrefix.
  assert (Hsub : forall l, (forall d, d ∈ l -> d ∈ entries) ->
            forall w w',
              processFiles navTree withLiveReload l outBaseDir webPathPrefix w
              = (Ok tt, w') ->
              forall content, content ∈ documents l -> m ∈ imageUrlMatches content ->
                              Build.localPathOf cwd pathname ∈ allUsedImages w').
  { induction l as [|x rest IHl]; intros Hl w w' H content Hc Hm; [inversion Hc|].
    unfold Build.processFiles in H. rewrite forEach_cons in H.
    destruct (processEntry navTree withLiveReload outBaseDir webPathPrefix x w)
      as [[[]|e] w1] eqn:Hx; [|discriminate].
    unfold documents in Hc. cbn [flat_map] in Hc.
    apply elem_of_app in Hc as [Hc|Hc].
    - apply (Keeps_processFiles_used navTree withLiveReload rest outBaseDir
               webPathPrefix w1 _ w' H).
      destruct x as [n text|n sub|n]; cbn [direntDocuments] in Hc.
      + cbn [Build.processEntry] in Hx.
        destruct (endsWith n ".md"); [|inversion Hc].
        apply list_elem_of_singleton in Hc as ->.
        eapply processFile_registers; [exact Hx|exact Hm|exact Hurl].
      + change (processEntry navTree withLiveReload outBaseDir webPathPrefix
                  (DDir n sub) w)
          with ((mkdirSync (join outBaseDir n)
                 ≫= fun _ => processFiles navTree withLiveReload sub
                               (join outBaseDir n) (webPathPrefix +:+ n +:+ "/")) w)
          in Hx.
        unfold_monad.
        destruct (mkdirSync (join outBaseDir n) w) as [[[]|e] w0]; [|discriminate].
        apply (IH (DDir n sub) (Hl _ (list_elem_of_here _ _)) _ _ _ _ Hx content Hc Hm).
      + inversion Hc.
    - apply (IHl (fun d Hd => Hl d (list_elem_of_further _ _ _ Hd)) w1 w' H content Hc Hm). }
  intros w w' H content Hc Hm. apply (Hsub entries (fun d Hd => Hd) w w' H content Hc Hm).
Qed.

(** X19. After a one-shot build that completes, the touched set holds
    the local path of every remote image reference of every markdown
    document of the source tree whose URL parses: the collector of that
    pass spares the images the documents refer to. The one-shot build is
    the only pass of its process; a pass of the dev server can be
    overlapped by the next one, which replaces the set, and is not
    covered. *)
Theorem references_touched (w w' : world) (content : string)
    (m : RegexMatch) (pathname : string) :
  compile false w = (Ok tt, w') ->
  content ∈ documents (default [DFile "index.md" seedPage] (source w)) ->
  m ∈ imageUrlMatches content ->
  urlPathname (remoteUrl m) = Some pathname ->
  Build.localPathOf cwd pathname ∈ allUsedImages w'.
Proof.
  intros Hc Hdoc Hm Hurl.
  apply compile_Ok in Hc as (w1 & w2 & Hb & Hcl & ->). cbn [allUsedImages addLine].
  destruct (cleanup_changes _ _ _ _ Hcl) as [-> _].
  rewrite buildPages_run, buildOutput_run in Hb.
  unfold Pass.writePages in Hb. unfold_monad.
  destruct (mkdirSync publicDir _) as [[[]|e] w0] eqn:Hmk; [|discriminate].
  assert (Hs : source w0 = Some (default [DFile "index.md" seedPage] (source w))).
  { unfold mkdirSync in Hmk.
    destruct (existsb _ _); [discriminate|]. injection Hmk as <-.
    cbn [source setFiles].
    destruct (_ && _); cbn [source setFiles]; apply source_seeded. }
  rewrite Hs in Hb. cbn [default] in Hb.
  exact (processFiles_registers _ _ _ m pathname Hurl _ _ _ _ Hb content Hdoc Hm).
Qed.

End Pass.

(** a run whose result is [Ok a] *)
Lemma run_Ok {A : Type} (m : M A) (w : world) (a : A) :
  fst (m w) = Ok a -> m w = (Ok a, snd (m w)).
Proof. intros H. rewrite <- H. apply surjective_pairing. Qed.

(** the image of an earlier pass in [SampleMore.illustrated] *)
Lemma preview_pass_removes_images_only_witness :
  is_Some (files (snd (Sample.compile true SampleMore.illustrated))
           !! "/site/public/old.png")
  \/ exists f, "/site/public/old.png" = join (Build.imageDir Sample.cwd) f
               /\ isEntryName f = true /\ hasImageExtension f = true.
Proof.
  apply (preview_pass_removes_images_only Sample.cwd Sample.pathnameOf Sample.network
           Sample.imagemin Sample.markedParse Sample.sanitizeHtml [] []
           Sample.createHtmlTemplate Sample.localeCompare SampleMore.illustrated
           "/site/public/old.png").
  exists (File [Byte.x02]). vm_compute. reflexivity.
Defined.

(** the image the document of [SampleMore.illustrated] refers to *)
Lemma images_left_are_touched_witness :
  join (Build.imageDir Sample.cwd) "img.png"
  ∈ allUsedImages (snd (Sample.compile false SampleMore.illustrated)).
Proof.
  apply (images_left_are_touched Sample.cwd Sample.pathnameOf Sample.network
           Sample.imagemin Sample.markedParse Sample.sanitizeHtml [] []
           Sample.createHtmlTemplate Sample.localeCompare false
           SampleMore.illustrated
           (snd (Sample.compile false SampleMore.illustrated)) "img.png").
  - apply run_Ok. vm_compute. reflexivity.
  - reflexivity.
  - vm_compute. reflexivity.
  - exists (File [Byte.x89; Byte.x50; Byte.x4e; Byte.x47]). vm_compute. reflexivity.
Defined.

(** [SampleMore.illustrated] with and without the image of the earlier
    pass *)
Lemma build_ignores_old_output_witness :
  Sample.compile false
    (setFiles (delete "/site/public/old.png" (files SampleMore.illustrated))
              SampleMore.illustrated)
  = Sample.compile false SampleMore.illustrated.
Proof.
  apply (build_ignores_old_output Sample.cwd Sample.pathnameOf Sample.network
           Sample.imagemin Sample.markedParse Sample.sanitizeHtml [] []
           Sample.createHtmlTemplate Sample.localeCompare SampleMore.illustrated
           (delete "/site/public/old.png" (files SampleMore.illustrated))).
  - exists Dir. vm_compute. reflexivity.
  - exists Dir. vm_compute. reflexivity.
  - intros p Hp. apply lookup_delete_ne. intros <-. vm_compute in Hp. discriminate.
Defined.

(** the collector on [Sample.afterPass], twice *)
Lemma collector_idempotent_witness :
  exists w2,
    Sample.cleanupOrphanedImages (snd (Sample.cleanupOrphanedImages Sample.afterPass))
    = (Ok tt, w2)
    /\ files w2 = files (snd (Sample.cleanupOrphanedImages Sample.afterPass))
    /\ allUsedImages w2
       = allUsedImages (snd (Sample.cleanupOrphanedImages Sample.afterPass)).
Proof.
  apply (collector_idempotent Sample.cwd Sample.afterPass).
  apply run_Ok. vm_compute. reflexivity.
Defined.

(** the page of [guide/setup.md] of [SampleMore.illustrated] *)
Lemma pages_written_witness :
  isFileAt (files (snd (Sample.compile true SampleMore.illustrated)))
           "/site/public/guide/setup.html" = true.
Proof.
  apply (pages_written Sample.cwd Sample.pathnameOf Sample.network
           Sample.imagemin Sample.markedParse Sample.sanitizeHtml [] []
           Sample.createHtmlTemplate Sample.localeCompare true
           SampleMore.illustrated (snd (Sample.compile true SampleMore.illustrated))).
  - apply run_Ok. vm_compute. reflexivity.
  - apply (bool_decide_unpack _). vm_compute. exact I.
Defined.

(** the link to [guide/setup.md] in the sidebar of
    [SampleMore.illustrated] *)
Lemma sidebar_links_exist_witness :
  isFileAt (files (snd (Sample.compile true SampleMore.illustrated)))
           (Build.publicDir Sample.cwd +:+ "/guide/setup.html") = true.
Proof.
  apply (sidebar_links_exist Sample.cwd Sample.pathnameOf Sample.network
           Sample.imagemin Sample.markedParse Sample.sanitizeHtml [] []
           Sample.createHtmlTemplate Sample.localeCompare true
           SampleMore.illustrated (snd (Sample.compile true SampleMore.illustrated))).
  - apply run_Ok. vm_compute. reflexivity.
  - vm_compute. reflexivity.
  - apply (bool_decide_unpack _). vm_compute. exact I.
  - discriminate.
Defined.

(** the reference of the document [index.md] of [SampleMore.illustrated] *)
Lemma references_touched_witness :
  Build.localPathOf Sample.cwd "/img.png"
  ∈ allUsedImages (snd (Sample.compile false SampleMore.illustrated)).
Proof.
  apply (references_touched Sample.cwd Sample.pathnameOf Sample.network
           Sample.imagemin Sample.markedParse Sample.sanitizeHtml [] []
           Sample.createHtmlTemplate Sample.localeCompare
           SampleMore.illustrated (snd (Sample.compile false SampleMore.illustrated))
           SampleMore.goodReference SampleMore.goodMatch "/img.png").
  - apply run_Ok. vm_compute. reflexivity.
  - apply (bool_decide_unpack _). vm_compute. exact I.
  - replace (imageUrlMatches SampleMore.goodReference) with [SampleMore.goodMatch]
      by (vm_compute; reflexivity).
    apply list_elem_of_here.
  - vm_compute. reflexivity.
Defined.

End PassSpec.

(** ** The dev loop over whole traces *)

Module DevLoopMore.
Import DevLoop DevLoopTrace DevLoopSpec.

Lemma named_step (st : state) (e : event) :
  isNamedWatch e = true -> step st e = handleRebuild st.
Proof.
  destruct e as [[f|]| |i ok|id|id|id]; try discriminate. cbn [isNamedWatch].
  intros H. cbn [step onWatch]. destruct (String.eqb f ""); [discriminate|reflexivity].
Qed.

Lemma tick_or_not (e : event) : e = Tick \/ e <> Tick.
Proof. destruct e; (now left) || (now right). Qed.

Lemma fold_startRebuild (due : list (nat * nat)) (st : state) :
  liveReloadClients (fold_left (fun s _ => startRebuild s) due st)
  = liveReloadClients st.
Proof.
  revert st. induction due as [|t due IH]; intros st; [reflexivity|].
  cbn [fold_left]. now rewrite IH.
Qed.

(** an event that is neither a notification with a file name nor a tick
    leaves the clock, the timers and the rebuilds started as they are *)
Lemma quiet_step (st : state) (e : event) :
  isNamedWatch e = false -> e <> Tick ->
  timers (step st e) = timers st /\ timeout (step st e) = timeout st
  /\ now (step st e) = now st /\ starts (step st e) = starts st.
Proof.
  intros Hn Ht. destruct e as [[f|]| |i ok|id|id|id]; try congruence; cbn [step onWatch].
  - cbn [isNamedWatch] in Hn. destruct (String.eqb f ""); [auto|discriminate].
  - auto.
  - destruct (running st !! i); [|auto]. unfold finishRebuild. destruct ok; cbn; auto.
  - cbn. auto.
  - cbn. auto.
  - cbn. auto.
Qed.

Lemma pending_slot (since : option nat) (st : state) : pending since st -> slot st 0.
Proof.
  destruct since as [n|]; cbn [pending]; [|now left].
  intros (id & Ht & Hto & Hn). right. exists id, (now st + (100 - n))%nat.
  split_and!; [exact Ht|exact Hto|lia|lia].
Qed.

Lemma restless_run (events : list event) :
  forall since st,
    pending since st -> noWindowCloses since events = true ->
    starts (run st events) = starts st.
Proof.
  induction events as [|e events IH]; intros since st Hp Hw; [reflexivity|].
  rewrite run_cons. cbn [noWindowCloses] in Hw.
  destruct (isNamedWatch e) eqn:Hn.
  - rewrite (named_step st e Hn).
    destruct (handleRebuild_slot st 0 (pending_slot since st Hp))
      as (Ht & Hto & Hnow & Hs & _).
    rewrite (IH (Some 0%nat) (handleRebuild st)); [exact Hs| |exact Hw].
    exists (nextTimer st). rewrite Ht, Hto, Hnow. split_and!; [reflexivity..|lia].
  - destruct (tick_or_not e) as [->|Hne].
    + cbn [step]. destruct since as [n|].
      * apply andb_true_iff in Hw as [Hlt Hw]. apply Nat.ltb_lt in Hlt.
        destruct Hp as (id & Ht & Hto & _).
        destruct (tick_waiting st id _ Ht) as (Ht' & Hs' & Hn' & Hto' & _); [lia|].
        rewrite (IH (Some (S n)) (tick st)); [exact Hs'| |exact Hw].
        exists id. rewrite Ht', Hto', Hn'. split_and!; [f_equal; f_equal; lia|auto|lia].
      * destruct (tick_idle st Hp) as (Ht' & Hs' & _).
        rewrite (IH None (tick st)); [exact Hs'|exact Ht'|exact Hw].
    + destruct (quiet_step st e Hn Hne) as (Ht & Hto & Hnow & Hs).
      assert (Hw' : noWindowCloses since events = true).
      { destruct e; try exact Hw. congruence. }
      rewrite (IH since (step st e)); [exact Hs| |exact Hw'].
      destruct since as [n|]; cbn [pending] in *; [|congruence].
      destruct Hp as (id & Hp1 & Hp2 & Hp3). exists id. rewrite Ht, Hto, Hnow. auto.
Qed.

Lemma unnamed_noWindowCloses (events : list event) :
  Forall (fun e => isNamedWatch e = false) events ->
  noWindowCloses None events = true.
Proof.
  induction 1 as [|e events He _ IH]; [reflexivity|].
  cbn [noWindowCloses]. rewrite He. destruct e; exact IH.
Qed.

Lemma unnamed_run (events : list event) (st : state) :
  timers st = [] -> Forall (fun e => isNamedWatch e = false) events ->
  starts (run st events) = starts st.
Proof.
  intros Ht Hu. apply (restless_run events None st Ht).
  now apply unnamed_noWindowCloses.
Qed.

(** X20. With no rebuild queued, nothing but a notification that carries
    a file name leads to a rebuild: notifications without one, the
    passing of time, connections and settling passes start none. *)
Theorem unnamed_events_start_nothing (st : state) (events : list event) :
  timers st = [] -> Forall (fun e => isNamedWatch e = false) events ->
  starts (run st events) = starts st.
Proof. apply unnamed_run. Qed.

(** X21. The debounce has no upper bound on the wait: as long as every
    notification with a file name is followed by the next within less
    than 100 ms, no rebuild starts, however long the notifications go
    on. *)
Theorem restless_saves_start_nothing (st : state) (events : list event) :
  timers st = [] -> noWindowCloses None events = true ->
  starts (run st events) = starts st.
Proof. intros Ht. now apply (restless_run events None st). Qed.

(** the queued rebuild starts when its timer is due, whatever else
    happens meanwhile, as long as no notification with a file name
    arrives *)
Lemma timer_fires (events : list event) :
  forall st id due,
    timers st = [(id, due)] -> (now st < due)%nat -> (due <= now st + ticks events)%nat ->
    Forall (fun e => isNamedWatch e = false) events ->
    starts (run st events) = starts st ++ [due].
Proof.
  induction events as [|e events IH]; intros st id due Ht Hlt Hle Hu.
  - cbn in Hle. lia.
  - rewrite run_cons. apply Forall_cons in Hu as [He Hu].
    destruct (tick_or_not e) as [->|Hne].
    + cbn [step]. rewrite ticks_cons_tick in Hle.
      destruct (Nat.le_gt_cases due (S (now st))) as [Hdue|Hdue].
      * destruct (tick_fires st id due Ht Hdue) as (Ht' & Hs' & _).
        rewrite (unnamed_run events (tick st) Ht' Hu), Hs'. do 2 f_equal. lia.
      * destruct (tick_waiting st id due Ht Hdue) as (Ht' & Hs' & Hn' & _).
        rewrite (IH (tick st) id due Ht'); [now rewrite Hs'|lia|lia|exact Hu].
    + destruct (quiet_step st e He Hne) as (Ht' & _ & Hnow & Hs).
      assert (Hticks : ticks (e :: events) = ticks events).
      { destruct e; try reflexivity. congruence. }
      rewrite Hticks in Hle.
      rewrite (IH (step st e) id due); [now rewrite Hs|congruence|lia|lia|exact Hu].
Qed.

(** X22. The rebuild for a notification starts exactly 100 ms after it:
    a notification with a file name that is followed by at least 100 ms
    without another one starts one rebuild, at the time of the
    notification plus 100 ms, whatever connections, settling passes and
    notifications without a file name come in between. *)
Theorem rebuild_after_window (st : state) (f : string) (events : list event) :
  timers st = [] -> f <> "" ->
  Forall (fun e => isNamedWatch e = false) events ->
  (100 <= ticks events)%nat ->
  starts (run st (Watch (Some f) :: events)) = starts st ++ [(now st + 100)%nat].
Proof.
  intros Ht Hf Hu Hticks. rewrite run_cons.
  assert (Hn : isNamedWatch (Watch (Some f)) = true).
  { cbn [isNamedWatch]. apply String.eqb_neq in Hf. now rewrite Hf. }
  rewrite (named_step st _ Hn).
  destruct (handleRebuild_slot st 0 (or_introl Ht)) as (Ht' & _ & Hnow & Hs & _).
  rewrite (timer_fires events (handleRebuild st) _ _ Ht'); [now rewrite Hs|lia|lia|exact Hu].
Qed.

Lemma clientIds_step (st : state) (e : event) :
  clientIds (step st e)
  = match e with
    | Connect id => clientIds st ++ [id]
    | Close id => List.filter (fun i => negb (Nat.eqb i id)) (clientIds st)
    | _ => clientIds st
    end.
Proof.
  unfold clientIds. destruct e as [[f|]| |i ok|id|id|id]; cbn [step onWatch].
  - destruct (String.eqb f ""); [reflexivity|].
    unfold handleRebuild, debounced, clearTimeout. now destruct (timeout st).
  - reflexivity.
  - unfold tick. now rewrite fold_startRebuild.
  - destruct (running st !! i); [|reflexivity]. unfold finishRebuild.
    destruct ok; cbn; [|reflexivity]. rewrite map_map.
    apply map_ext. intros c. unfold notify. now destruct (negb (writableEnded c)).
  - cbn. now rewrite map_app.
  - cbn. induction (liveReloadClients st) as [|c cs IH]; [reflexivity|].
    cbn [List.filter map]. destruct (negb (Nat.eqb (clientId c) id)); cbn [map];
      now rewrite IH.
  - cbn. rewrite map_map. apply map_ext. intros c.
    now destruct (Nat.eqb (clientId c) id).
Qed.

Lemma absent_client_stays (events : list event) (id : nat) :
  forall st, id ∉ clientIds st -> Connect id ∉ events ->
             id ∉ clientIds (run st events).
Proof.
  induction events as [|e events IH]; intros st Hid Hc; [exact Hid|].
  rewrite run_cons. apply IH.
  - rewrite clientIds_step. destruct e as [fn| |i ok|id'|id'|id']; try exact Hid.
    + intros Hin. apply elem_of_app in Hin as [Hin|Hin]; [now apply Hid|].
      apply list_elem_of_singleton in Hin as ->. apply Hc, list_elem_of_here.
    + intros Hin. apply list_elem_of_In, filter_In in Hin as [Hin _].
      now apply Hid, list_elem_of_In.
  - intros Hin. apply Hc. now apply list_elem_of_further.
Qed.

(** X23. A connection that has closed is no longer a client: once its
    [close] event is handled it is in the list of clients of no later
    state, so no reload is written to it, until a connection with its
    identity is opened again. *)
Theorem closed_client_forgotten (st : state) (id : nat) (events : list event) :
  Connect id ∉ events ->
  id ∉ clientIds (run (step st (Close id)) events).
Proof.
  intros Hc. apply absent_client_stays; [|exact Hc].
  rewrite clientIds_step. intros Hin.
  apply list_elem_of_In, filter_In in Hin as [_ Hne].
  now rewrite Nat.eqb_refl in Hne.
Qed.

(** [SampleMore.idleEvents] from the start of the server *)
Lemma unnamed_events_start_nothing_witness :
  starts (run initial SampleMore.idleEvents) = starts initial.
Proof.
  apply (unnamed_events_start_nothing initial SampleMore.idleEvents).
  - reflexivity.
  - unfold SampleMore.idleEvents. repeat constructor.
Defined.

(** [SampleMore.restlessSaves]: 297 ms of saves and no rebuild *)
Lemma restless_saves_start_nothing_witness :
  starts (run initial SampleMore.restlessSaves) = starts initial.
Proof.
  apply (restless_saves_start_nothing initial SampleMore.restlessSaves).
  - reflexivity.
  - vm_compute. reflexivity.
Defined.

(** a save, a connection and an event without a file name, then 100 ms *)
Lemma rebuild_after_window_witness :
  starts (run initial (Watch (Some "index.md")
                       :: [Connect 1; Watch None] ++ repeat Tick 100))
  = starts initial ++ [(now initial + 100)%nat].
Proof.
  apply (rebuild_after_window initial "index.md"
           ([Connect 1; Watch None] ++ repeat Tick 100)).
  - reflexivity.
  - discriminate.
  - apply Forall_app. split; [repeat constructor|].
    apply Forall_forall. intros e He. apply list_elem_of_In, repeat_spec in He.
    now subst.
  - vm_compute. apply le_n.
Defined.

(** the first of two clients closes; a third connects later *)
Lemma closed_client_forgotten_witness :
  1%nat ∉ clientIds (run (step (run initial [Connect 1; Connect 2]) (Close 1))
                         [Watch (Some "index.md"); Tick; Connect 3]).
Proof.
  apply (closed_client_forgotten (run initial [Connect 1; Connect 2]) 1
           [Watch (Some "index.md"); Tick; Connect 3]).
  intros H. repeat (apply elem_of_cons in H as [H|H]; [discriminate|]).
  inversion H.
Defined.

End DevLoopMore.

(** ** The sidebar and the options of the sanitizer *)

Module PageSpec.
Import Str Nav NavTree Build Options.

Lemma NavItem_children_ind (P : NavItem -> Prop) :
  (forall name path children,
      Forall P (default [] children) -> P (mkNavItem name path children)) ->
  forall item, P item.
Proof.
  intros H. fix IH 1. intros [name path children]. apply H.
  destruct children as [cs|]; cbn [default]; [|constructor].
  induction cs as [|c cs IHcs]; constructor; [apply IH|exact IHcs].
Qed.

Lemma sidebarItem_eq (p name path : string) (children : option (list NavItem)) :
  sidebarItem p (mkNavItem name path children)
  = "<li><a href=" +:+ dq +:+ path +:+ dq +:+ " class=" +:+ dq
    +:+ (if String.eqb path p then "active" else "") +:+ dq
    +:+ ">" +:+ name +:+ "</a>"
    +:+ match children with
        | Some (c :: cs) =>
            "<ul>" +:+ foldr (fun item html => sidebarItem p item +:+ html) ""
                             (c :: cs) +:+ "</ul>"
        | _ => ""
        end
    +:+ "</li>".
Proof.
  cbn [sidebarItem]. destruct children as [[|c cs]|]; reflexivity.
Qed.

Lemma sidebarItems_same (p q : string) (l : list NavItem) :
  Forall (fun item =>
            (forall path, path ∈ navPaths item ->
                          String.eqb path p = String.eqb path q) ->
            sidebarItem p item = sidebarItem q item) l ->
  (forall path, path ∈ flat_map navPaths l -> String.eqb path p = String.eqb path q) ->
  foldr (fun item html => sidebarItem p item +:+ html) "" l
  = foldr (fun item html => sidebarItem q item +:+ html) "" l.
Proof.
  induction l as [|x l IHl]; intros IH Hl; [reflexivity|].
  apply Forall_cons in IH as [Hx IH]. cbn [foldr]. f_equal.
  - apply Hx. intros path Hin. apply Hl. cbn [flat_map]. apply elem_of_app. now left.
  - apply IHl; [exact IH|]. intros path Hin. apply Hl. cbn [flat_map].
    apply elem_of_app. now right.
Qed.

Lemma sidebarItem_same (p q : string) (item : NavItem) :
  (forall path, path ∈ navPaths item -> String.eqb path p = String.eqb path q) ->
  sidebarItem p item = sidebarItem q item.
Proof.
  induction item as [name href children IH] using NavItem_children_ind.
  intros H. rewrite !sidebarItem_eq.
  rewrite (H href) by (cbn [navPaths]; apply list_elem_of_here).
  destruct children as [[|c cs]|]; try reflexivity.
  rewrite (sidebarItems_same p q (c :: cs) IH); [reflexivity|].
  intros path Hin. apply H. cbn [navPaths]. now apply list_elem_of_further.
Qed.

(** X24. The sidebar depends on the page it is made for only through the
    entries whose link is that page: for two pages that the links of the
    tree do not tell apart, in particular two pages no entry links to,
    the sidebars are the same text. *)
Theorem sidebar_marks_current_only (navTree : list NavItem) (p q : string) :
  (forall path, path ∈ allPaths navTree -> String.eqb path p = String.eqb path q) ->
  generateSidebarHtml navTree p = generateSidebarHtml navTree q.
Proof.
  intros H. unfold generateSidebarHtml.
  rewrite (sidebarItems_same p q navTree); [reflexivity| |exact H].
  apply Forall_forall. intros item _. apply sidebarItem_same.
Qed.

Lemma sidebar_marks_current_only_witness :
  generateSidebarHtml [mkNavItem "Guide" "/guide.html" None] "/a.html"
  = generateSidebarHtml [mkNavItem "Guide" "/guide.html" None] "/b.html".
Proof.
  apply sidebar_marks_current_only. intros path Hin.
  apply list_elem_of_singleton in Hin as ->. reflexivity.
Defined.

(** X25. The attributes the sanitizer is told to keep are the defaults
    for every tag but [img]; for [img] they are the five of the program,
    whatever the defaults give for it: the entry is replaced, not
    merged. *)
Theorem sanitizeOptions_attributes (defaultTags : list string)
    (defaultAttributes : list (string * list string)) (tag : string) :
  attributesFor tag (allowedAttributes (sanitizeOptions defaultTags defaultAttributes))
  = if String.eqb tag "img"
    then Some ["src"; "alt"; "title"; "loading"; "decoding"]
    else attributesFor tag defaultAttributes.
Proof.
  unfold sanitizeOptions, attributesFor. cbn [allowedAttributes].
  induction defaultAttributes as [|[k v] l IH]; cbn [List.filter app find fst snd].
  - rewrite String.eqb_sym. now destruct (String.eqb tag "img").
  - destruct (String.eqb_spec k "img") as [->|Hk]; cbn [negb app find fst snd].
    + rewrite IH. rewrite (String.eqb_sym "img" tag).
      now destruct (String.eqb tag "img").
    + destruct (String.eqb_spec k tag) as [->|Hkt]; [|exact IH].
      apply String.eqb_neq in Hk. now rewrite Hk.
Qed.

End PageSpec.
